(** * Time-series analysis utilities of the NetCDF viewer

    A shallow embedding of [src/utils/analysis.ts] and of the recomputation
    done by [AnalysisPanel] ([src/components/AnalysisPanel.tsx]).

    JavaScript numbers are IEEE 754 binary64 values.  They are embedded as
    [spec_float] with the operations of [SpecFloat] at precision 53 and
    maximal exponent 1024, so that rounding, infinities, signed zeros and
    NaN behave as they do in the program. *)

From Stdlib Require Import String QArith Qround.
From Stdlib Require Import ZArith List Bool Lia Permutation Sorted.
From Stdlib Require Import Floats.SpecFloat.
Import ListNotations.

Local Open Scope string_scope.
Local Open Scope list_scope.
Local Open Scope Z_scope.

(** ** JavaScript numbers *)

Module Num.

Definition prec : Z := 53.
Definition emax : Z := 1024.

Definition number := spec_float.

Definition add : number -> number -> number := SFadd prec emax.
Definition sub : number -> number -> number := SFsub prec emax.
Definition mul : number -> number -> number := SFmul prec emax.
Definition div : number -> number -> number := SFdiv prec emax.

(** [a < b], [a > b], [a <= b], [a === b]: all false on NaN. *)
Definition lt (a b : number) : bool := SFltb a b.
Definition gt (a b : number) : bool := SFltb b a.
Definition le (a b : number) : bool := SFleb a b.
Definition strict_eq (a b : number) : bool := SFeqb a b.

Definition Math_abs : number -> number := SFabs.
Definition Math_sqrt : number -> number := SFsqrt prec emax.

(** An integer read as a number (exact below 2^53, rounded above). *)
Definition ofZ (z : Z) : number := binary_normalize prec emax z 0 false.
Definition ofNat (n : nat) : number := ofZ (Z.of_nat n).

(** A decimal literal [n / 10^k]: the nearest binary64 value, obtained by
    one correctly rounded division of two exactly represented integers. *)
Definition lit (n d : Z) : number := div (ofZ n) (ofZ d).

(** The values of the type that are binary64 numbers: a finite value has a
    mantissa and an exponent in canonical form. *)
Definition valid (x : number) : bool := valid_binary prec emax x.

(** [2 ** e]. *)
Definition pow2 (e : Z) : number := binary_normalize prec emax 1 e false.

Definition zero : number := S754_zero false.
Definition NaN : number := S754_nan.
Definition Infinity : number := S754_infinity false.

Definition is_nan (x : number) : bool :=
  match x with S754_nan => true | _ => false end.

(** The values that are binary64 numbers other than NaN. *)
Definition is_number (x : number) : Prop :=
  valid x = true /\ is_nan x = false.

Definition is_zero (x : number) : bool :=
  match x with S754_zero _ => true | _ => false end.

Definition is_finite (x : number) : bool :=
  match x with
  | S754_zero _ | S754_finite _ _ _ => true
  | _ => false
  end.

(** [x ** 2], the correctly rounded square. *)
Definition sq (x : number) : number := mul x x.

(** [Math.min(a, b)] and [Math.max(a, b)]: NaN is contagious and [-0] is
    below [+0]. *)
Definition min2 (a b : number) : number :=
  match a, b with
  | S754_nan, _ | _, S754_nan => S754_nan
  | S754_zero sa, S754_zero sb => S754_zero (sa || sb)
  | _, _ => if SFltb b a then b else a
  end.

Definition max2 (a b : number) : number :=
  match a, b with
  | S754_nan, _ | _, S754_nan => S754_nan
  | S754_zero sa, S754_zero sb => S754_zero (sa && sb)
  | _, _ => if SFltb a b then b else a
  end.

(** [Math.min(...values)] and [Math.max(...values)]. *)
Definition Math_min (values : list number) : number :=
  fold_left min2 values (S754_infinity false).
Definition Math_max (values : list number) : number :=
  fold_left max2 values (S754_infinity true).

(** [values.reduce((sum, val) => sum + val, 0)]. *)
Definition sum (values : list number) : number :=
  fold_left add values zero.

#[global] Arguments add : simpl never.
#[global] Arguments sub : simpl never.
#[global] Arguments mul : simpl never.
#[global] Arguments div : simpl never.
#[global] Arguments Math_sqrt : simpl never.
#[global] Arguments ofZ : simpl never.
#[global] Arguments ofNat : simpl never.
#[global] Arguments lit : simpl never.

End Num.

Import Num.

(** ** Arrays *)

(** [data.slice(start, end)] with JavaScript's treatment of negative and
    overlong positions. *)
Definition clamp_index (len k : Z) : Z :=
  if k <? 0 then Z.max (len + k) 0 else Z.min k len.

Definition slice {A} (data : list A) (s e : Z) : list A :=
  let len := Z.of_nat (length data) in
  let from := clamp_index len s in
  let to := clamp_index len e in
  firstn (Z.to_nat (to - from)) (skipn (Z.to_nat from) data).

(** Exceptions. *)
Inductive result (A : Type) : Type :=
| Ok (a : A)
| Throw (message : string).
Arguments Ok {A} a.
Arguments Throw {A} message.

Definition is_throw {A} (r : result A) : bool :=
  match r with Throw _ => true | Ok _ => false end.

(** ** Moving averages *)

(** One iteration of the loop of [calculateSimpleMovingAverage]. *)
Definition sma_step (data : list number) (windowSize : Z)
    (result : list number) (i : nat) : list number :=
  if Z.of_nat i <? windowSize - 1 then
    let partialWindow := slice data 0 (Z.of_nat i + 1) in
    let sum := Num.sum partialWindow in
    result ++ [div sum (ofNat (length partialWindow))]
  else
    let window := slice data (Z.of_nat i - windowSize + 1) (Z.of_nat i + 1) in
    let sum := Num.sum window in
    result ++ [div sum (ofZ windowSize)].

(** The window size is a count of points: the control that sets it only
    stores the result of [parseInt]. *)
Definition calculateSimpleMovingAverage (data : list number) (windowSize : Z)
    : result (list number) :=
  if (windowSize <=? 0) || (windowSize >? Z.of_nat (length data)) then
    Throw "Window size must be positive and <= data length"
  else
    Ok (fold_left (sma_step data windowSize) (seq 0 (length data)) []).

(** One iteration of the loop of [calculateExponentialMovingAverage]; a
    missing element or a missing previous average skips the iteration. *)
Definition ema_step (data : list number) (alpha : number)
    (result : list number) (i : nat) : list number :=
  match nth_error data i, nth_error result (i - 1) with
  | Some currentVal, Some prevEma =>
      let ema := add (mul alpha currentVal) (mul (sub (ofZ 1) alpha) prevEma) in
      result ++ [ema]
  | _, _ => result
  end.

Definition calculateExponentialMovingAverage (data : list number)
    (alpha : number) : result (list number) :=
  if le alpha zero || gt alpha (ofZ 1) then
    Throw "Alpha must be in range (0, 1]"
  else
    match data with
    | [] => Ok []
    | firstVal :: _ =>
        Ok (fold_left (ema_step data alpha) (seq 1 (length data - 1)) [firstVal])
    end.

(** ** Linear trend *)

Record TrendResult : Type := mkTrend {
  slope : number;
  intercept : number;
  r2 : number
}.

(** First loop of [calculateLinearTrend]: the accumulators
    [(numerator, denominator)]. *)
Definition trend_acc_step (x y : list number) (xMean yMean : number)
    (acc : number * number) (i : nat) : number * number :=
  match nth_error x i, nth_error y i with
  | Some xVal, Some yVal =>
      let xDiff := sub xVal xMean in
      let yDiff := sub yVal yMean in
      (add (fst acc) (mul xDiff yDiff), add (snd acc) (mul xDiff xDiff))
  | _, _ => acc
  end.

(** Second loop: the accumulators [(ssTotal, ssResidual)]. *)
Definition trend_ss_step (x y : list number) (yMean slope intercept : number)
    (acc : number * number) (i : nat) : number * number :=
  match nth_error x i, nth_error y i with
  | Some xVal, Some yVal =>
      let yPredicted := add (mul slope xVal) intercept in
      (add (fst acc) (sq (sub yVal yMean)),
       add (snd acc) (sq (sub yVal yPredicted)))
  | _, _ => acc
  end.

Definition calculateLinearTrend (x y : list number) : result TrendResult :=
  if negb (length x =? length y)%nat || (length x =? 0)%nat then
    Throw "X and Y arrays must have the same non-zero length"
  else
    let n := length x in
    let xMean := div (Num.sum x) (ofNat n) in
    let yMean := div (Num.sum y) (ofNat n) in
    let '(numerator, denominator) :=
      fold_left (trend_acc_step x y xMean yMean) (seq 0 n) (zero, zero) in
    let slope := if strict_eq denominator zero then zero else div numerator denominator in
    let intercept := sub yMean (mul slope xMean) in
    let '(ssTotal, ssResidual) :=
      fold_left (trend_ss_step x y yMean slope intercept) (seq 0 n) (zero, zero) in
    let r2 := if strict_eq ssTotal zero then zero
              else sub (ofZ 1) (div ssResidual ssTotal) in
    Ok (mkTrend slope intercept r2).

(** ** Sorting

    [Array.prototype.sort] with a comparator is a stable sort; an element moves
    behind another one only when the comparator's result for the pair is
    positive (a NaN result counts as zero).  [positive a b] says whether the
    comparator applied to [a] and [b] is positive. *)
Section Sort.
Context {A : Type}.
Variable positive : A -> A -> bool.

Fixpoint sort_insert (a : A) (l : list A) : list A :=
  match l with
  | [] => [a]
  | b :: l' => if positive a b then b :: sort_insert a l' else a :: b :: l'
  end.

Definition array_sort (l : list A) : list A :=
  fold_right sort_insert [] l.
End Sort.

(** [a] may stand before [b]: the comparator does not ask to swap them. *)
Definition in_order {A} (positive : A -> A -> bool) (a b : A) : Prop :=
  positive a b = false.

(** The comparator [(a, b) => a - b] on numbers. *)
Definition number_ascending (a b : number) : bool := gt (sub a b) zero.

(** ** Data points *)

(** A timestamp is a whole number of milliseconds; where the program does
    arithmetic on it as a number it is read through [ofZ]. *)
Record DataPoint : Type := mkPoint {
  timestamp : Z;        (* Unix timestamp in milliseconds *)
  value : number
}.

(** The comparator [(a, b) => a.timestamp - b.timestamp]. *)
Definition timestamp_ascending (a b : DataPoint) : bool :=
  timestamp a - timestamp b >? 0.

Inductive AggregationPeriod : Type :=
| hourly | daily | weekly | monthly | yearly.

Inductive AggregationFunction : Type :=
| mean | sum | min | max | count | median.

(** ** Calendar periods

    [Date] as ECMAScript defines it on time values, for time values within
    the range of [Date].  The offset of local time from UTC belongs to the
    host: [LocalTZA t true] is the offset at the UTC time [t] and
    [LocalTZA t false] the offset at the local time [t]. *)
Section Calendar.
Variable LocalTZA : Z -> bool -> Z.

Definition msPerDay : Z := 86400000.
Definition msPerHour : Z := 3600000.

Definition Day (t : Z) : Z := t / msPerDay.
Definition TimeWithinDay (t : Z) : Z := t mod msPerDay.
Definition HourFromTime (t : Z) : Z := (t / msPerHour) mod 24.
Definition WeekDay (t : Z) : Z := (Day t + 4) mod 7.

Definition LocalTime (t : Z) : Z := t + LocalTZA t true.
Definition UTC (t : Z) : Z := t - LocalTZA t false.

(** Year, month (0 to 11) and day of the month (1 to 31) of a day number
    in the proleptic Gregorian calendar. *)
Definition civil_of_day (d : Z) : Z * Z * Z :=
  let z := d + 719468 in
  let era := z / 146097 in
  let doe := z - era * 146097 in
  let yoe := (doe - doe / 1460 + doe / 36524 - doe / 146096) / 365 in
  let doy := doe - (365 * yoe + yoe / 4 - yoe / 100) in
  let mp := (5 * doy + 2) / 153 in
  let dd := doy - (153 * mp + 2) / 5 + 1 in
  let m := if mp <? 10 then mp + 3 else mp - 9 in
  let y := yoe + era * 400 + (if m <=? 2 then 1 else 0) in
  (y, m - 1, dd).

Definition YearFromTime (t : Z) : Z := fst (fst (civil_of_day (Day t))).
Definition MonthFromTime (t : Z) : Z := snd (fst (civil_of_day (Day t))).
Definition DateFromTime (t : Z) : Z := snd (civil_of_day (Day t)).

(** [MakeDay(year, month, date)]: months outside 0..11 carry into the
    year, the day of the month is added to the first of the month. *)
Definition MakeDay (year month date : Z) : Z :=
  let ym := year + month / 12 in
  let mn := month mod 12 + 1 in
  let y := if mn <=? 2 then ym - 1 else ym in
  let era := y / 400 in
  let yoe := y - era * 400 in
  let doy := (153 * (if mn >? 2 then mn - 3 else mn + 9) + 2) / 5 in
  let doe := yoe * 365 + yoe / 4 - yoe / 100 + doy in
  era * 146097 + doe - 719468 + date - 1.

Definition MakeDate (day time : Z) : Z := day * msPerDay + time.

(** The methods of [Date] that [getPeriodStart] calls, on the time value. *)
Definition setMinutes0 (tv : Z) : Z :=       (* setMinutes(0, 0, 0) *)
  let t := LocalTime tv in
  UTC (MakeDate (Day t) (HourFromTime t * msPerHour)).

Definition setHours0 (tv : Z) : Z :=         (* setHours(0, 0, 0, 0) *)
  let t := LocalTime tv in
  UTC (MakeDate (Day t) 0).

Definition getDay (tv : Z) : Z := WeekDay (LocalTime tv).
Definition getDate (tv : Z) : Z := DateFromTime (LocalTime tv).

Definition setDate (tv date : Z) : Z :=
  let t := LocalTime tv in
  UTC (MakeDate (MakeDay (YearFromTime t) (MonthFromTime t) date)
                (TimeWithinDay t)).

Definition setMonth01 (tv : Z) : Z :=        (* setMonth(0, 1) *)
  let t := LocalTime tv in
  UTC (MakeDate (MakeDay (YearFromTime t) 0 1) (TimeWithinDay t)).

Definition getPeriodStart (timestamp : Z) (period : AggregationPeriod) : Z :=
  let date := timestamp in
  match period with
  | hourly => setMinutes0 date
  | daily => setHours0 date
  | weekly =>
      let dayOfWeek := getDay date in
      let diff := if dayOfWeek =? 0 then 6 else dayOfWeek - 1 in
      let date := setDate date (getDate date - diff) in
      setHours0 date
  | monthly =>
      let date := setDate date 1 in
      setHours0 date
  | yearly =>
      let date := setMonth01 date in
      setHours0 date
  end.
End Calendar.

(** ** Aggregation *)

(** [sorted[i] ?? 0]. *)
Definition at_or_zero (l : list number) (i : nat) : number :=
  match nth_error l i with
  | Some v => v
  | None => zero
  end.

Definition applyAggregationFunction (values : list number)
    (func : AggregationFunction) : number :=
  match values with
  | [] => NaN
  | _ =>
    match func with
    | mean => div (Num.sum values) (ofNat (length values))
    | sum => Num.sum values
    | min => Math_min values
    | max => Math_max values
    | count => ofNat (length values)
    | median =>
        let sorted := array_sort number_ascending values in
        let mid := (length sorted / 2)%nat in
        if (length sorted mod 2 =? 0)%nat then
          let val1 := at_or_zero sorted (mid - 1) in
          let val2 := at_or_zero sorted mid in
          div (add val1 val2) (ofZ 2)
        else at_or_zero sorted mid
    end
  end.

(** [Map<number, number[]>]: the entries in insertion order. *)
Definition Groups : Type := list (Z * list number).

Definition Map_has (groups : Groups) (key : Z) : bool :=
  existsb (fun entry => fst entry =? key) groups.

Definition Map_get (groups : Groups) (key : Z) : option (list number) :=
  match find (fun entry => fst entry =? key) groups with
  | Some entry => Some (snd entry)
  | None => None
  end.

(** [set] replaces the value of a present key in place and appends an
    absent one. *)
Fixpoint Map_set (groups : Groups) (key : Z) (values : list number) : Groups :=
  match groups with
  | [] => [(key, values)]
  | entry :: rest =>
      if fst entry =? key then (key, values) :: rest
      else entry :: Map_set rest key values
  end.

Section Aggregation.
Variable LocalTZA : Z -> bool -> Z.

(** The body of [data.forEach] in [aggregateByTimePeriod]; [push] on the
    array held by the map is a replacement of the entry. *)
Definition group_step (period : AggregationPeriod) (groups : Groups)
    (point : DataPoint) : Groups :=
  let periodStart := getPeriodStart LocalTZA (timestamp point) period in
  let groups :=
    if negb (Map_has groups periodStart) then Map_set groups periodStart []
    else groups in
  match Map_get groups periodStart with
  | Some values => Map_set groups periodStart (values ++ [value point])
  | None => groups
  end.

Definition aggregateByTimePeriod (data : list DataPoint)
    (period : AggregationPeriod) (func : AggregationFunction)
    : list DataPoint :=
  match data with
  | [] => []
  | _ =>
    let groups := fold_left (group_step period) data [] in
    let result :=
      map (fun entry =>
             mkPoint (fst entry) (applyAggregationFunction (snd entry) func))
          groups in
    array_sort timestamp_ascending result
  end.
End Aggregation.

(** ** Anomalies and outliers *)

(** [data.forEach((value, index) => ...)] pushing the indices that pass a
    test, from position [index] on. *)
Fixpoint indices_where (test : number -> bool) (data : list number)
    (index : nat) : list nat :=
  match data with
  | [] => []
  | value :: rest =>
      if test value then index :: indices_where test rest (S index)
      else indices_where test rest (S index)
  end.

Definition mean_of (data : list number) : number :=
  div (Num.sum data) (ofNat (length data)).

Definition variance_of (data : list number) (mean : number) : number :=
  div (fold_left (fun sum val => add sum (sq (sub val mean))) data zero)
      (ofNat (length data)).

Definition zScore_exceeds (mean stdDev threshold : number) (value : number)
    : bool :=
  let zScore := Math_abs (div (sub value mean) stdDev) in
  gt zScore threshold.

Definition detectAnomalies (data : list number) (threshold : number)
    : list nat :=
  if (length data =? 0)%nat || le threshold zero then []
  else
    let mean := mean_of data in
    let variance := variance_of data mean in
    let stdDev := Math_sqrt variance in
    indices_where (zScore_exceeds mean stdDev threshold) data 0.

Record IQRResult : Type := mkIQR {
  q1 : number;
  q3 : number;
  iqr : number;
  lowerBound : number;
  upperBound : number;
  outlierIndices : list nat
}.

(** [Math.floor(n * 0.25)] and [Math.floor(n * 0.75)] for a length [n]:
    both factors are binary fractions, the products are exact. *)
Definition floor_of_length_times (n : nat) (factor : Q) : nat :=
  Z.to_nat (Qfloor (inject_Z (Z.of_nat n) * factor)).

Definition is_outlier (lowerBound upperBound : number) (value : number) : bool :=
  lt value lowerBound || gt value upperBound.

Definition calculateIQR (data : list number) : IQRResult :=
  match data with
  | [] => mkIQR zero zero zero zero zero []
  | _ =>
    let sorted := array_sort number_ascending data in
    let n := length sorted in
    let q1Index := floor_of_length_times n 0.25 in
    let q3Index := floor_of_length_times n 0.75 in
    let q1 := at_or_zero sorted q1Index in
    let q3 := at_or_zero sorted q3Index in
    let iqr := sub q3 q1 in
    let lowerBound := sub q1 (mul (lit 15 10) iqr) in
    let upperBound := add q3 (mul (lit 15 10) iqr) in
    mkIQR q1 q3 iqr lowerBound upperBound
          (indices_where (is_outlier lowerBound upperBound) data 0)
  end.

(** ** Filters *)

(** [bound !== undefined && test(bound)]. *)
Definition defined_and {A} (bound : option A) (test : A -> bool) : bool :=
  match bound with
  | Some b => test b
  | None => false
  end.

Definition value_in_range (min max : option number) (point : DataPoint) : bool :=
  if defined_and min (fun min => lt (value point) min) then false
  else if defined_and max (fun max => gt (value point) max) then false
  else true.

Definition filterByValueRange (data : list DataPoint)
    (min max : option number) : list DataPoint :=
  filter (value_in_range min max) data.

(** A [Date] is given by its time value. *)
Definition Date : Type := Z.
Definition getTime (d : Date) : Z := d.

Definition date_in_range (startTime endTime : option Z) (point : DataPoint)
    : bool :=
  if defined_and startTime (fun startTime => timestamp point <? startTime)
  then false
  else if defined_and endTime (fun endTime => timestamp point >? endTime)
  then false
  else true.

Definition filterByDateRange (data : list DataPoint)
    (startDate endDate : option Date) : list DataPoint :=
  let startTime := option_map getTime startDate in
  let endTime := option_map getTime endDate in
  filter (date_in_range startTime endTime) data.

(** ** The recomputation of [AnalysisPanel] *)

Module DateRange.
Record t : Type := mk { startDate : option Date; endDate : option Date }.
End DateRange.

Module ValueRange.
Record t : Type := mk {
  min : option number;
  max : option number;
  excludeOutliers : bool
}.
End ValueRange.

Inductive MovingAverageType : Type := none | sma | ema.

(** [type !== 'none']. *)
Definition is_active (type : MovingAverageType) : bool :=
  match type with none => false | _ => true end.

Module MovingAverageSettings.
Record t : Type := mk {
  type : MovingAverageType;
  windowSize : Z;
  alpha : number;
  visible : bool
}.
End MovingAverageSettings.

Module TrendLineSettings.
Record t : Type := mk { enabled : bool; trendData : option TrendResult }.
End TrendLineSettings.

Module AggregationSettings.
Record t : Type := mk {
  enabled : bool;
  period : AggregationPeriod;
  func : AggregationFunction
}.
End AggregationSettings.

Module AnomalySettings.
Record t : Type := mk {
  enabled : bool;
  threshold : number;
  excludeFromStats : bool
}.
End AnomalySettings.

Module Anomaly.
Record t : Type := mk {
  index : nat;
  timestamp : Z;
  value : number;
  zScore : number
}.
End Anomaly.

Record AnalysisState : Type := mkState {
  dateRange : DateRange.t;
  valueRange : ValueRange.t;
  movingAverage : MovingAverageSettings.t;
  trendLine : TrendLineSettings.t;
  aggregation : AggregationSettings.t;
  anomaly : AnomalySettings.t
}.

Record ProcessedData : Type := mkProcessed {
  filteredData : list DataPoint;
  movingAverageData : option (list number);
  trendData : option TrendResult;
  aggregatedData : option (list DataPoint);
  anomalies : list Anomaly.t
}.

Definition is_some {A} (o : option A) : bool :=
  match o with Some _ => true | None => false end.

(** An exception raised by a step ends the recomputation. *)
Definition bind {A B} (r : result A) (k : A -> result B) : result B :=
  match r with
  | Ok a => k a
  | Throw message => Throw message
  end.

Notation "x <- r ;; k" := (bind r (fun x => k))
  (at level 61, r at next level, right associativity).

(** [indices.map(...).filter(a => a !== null)] of step 6. *)
Definition anomaly_of_index (dataForAnalysis : list DataPoint)
    (mean stdDev : number) (index : nat) : option Anomaly.t :=
  match nth_error dataForAnalysis index with
  | None => None
  | Some point =>
      Some (Anomaly.mk index (timestamp point) (value point)
                       (div (sub (value point) mean) stdDev))
  end.

Fixpoint non_null {A} (l : list (option A)) : list A :=
  match l with
  | [] => []
  | Some a :: rest => a :: non_null rest
  | None :: rest => non_null rest
  end.

Section Recomputation.
Variable LocalTZA : Z -> bool -> Z.

Definition processedData (rawData : list DataPoint) (st : AnalysisState)
    : result ProcessedData :=
  match rawData with
  | [] => Ok (mkProcessed [] None None None [])
  | _ =>
    let dateRange := dateRange st in
    let valueRange := valueRange st in
    let movingAverage := movingAverage st in
    let trendLine := trendLine st in
    let aggregation := aggregation st in
    let anomaly := anomaly st in
    (* Step 1: date range filter *)
    let filtered :=
      if is_some (DateRange.startDate dateRange)
         || is_some (DateRange.endDate dateRange)
      then filterByDateRange rawData (DateRange.startDate dateRange)
                             (DateRange.endDate dateRange)
      else rawData in
    (* Step 2: value range filter *)
    let filtered :=
      if is_some (ValueRange.min valueRange)
         || is_some (ValueRange.max valueRange)
      then filterByValueRange filtered (ValueRange.min valueRange)
                              (ValueRange.max valueRange)
      else filtered in
    (* Step 3: aggregation *)
    let aggregatedData :=
      if AggregationSettings.enabled aggregation
         && (0 <? length filtered)%nat
      then Some (aggregateByTimePeriod LocalTZA filtered
                   (AggregationSettings.period aggregation)
                   (AggregationSettings.func aggregation))
      else None in
    let dataForAnalysis :=
      match aggregatedData with
      | Some aggregated => aggregated
      | None => filtered
      end in
    (* Step 4: moving average *)
    movingAverageData <-
      (if is_active (MovingAverageSettings.type movingAverage)
          && MovingAverageSettings.visible movingAverage
          && (0 <? length dataForAnalysis)%nat
       then
         let values := map value dataForAnalysis in
         match MovingAverageSettings.type movingAverage with
         | sma =>
             r <- calculateSimpleMovingAverage values
                    (MovingAverageSettings.windowSize movingAverage) ;;
             Ok (Some r)
         | ema =>
             r <- calculateExponentialMovingAverage values
                    (MovingAverageSettings.alpha movingAverage) ;;
             Ok (Some r)
         | none => Ok None
         end
       else Ok None) ;;
    (* Step 5: trend line *)
    trendData <-
      (if TrendLineSettings.enabled trendLine
          && (2 <=? length dataForAnalysis)%nat
       then
         let x := map (fun d => ofZ (timestamp d)) dataForAnalysis in
         let y := map value dataForAnalysis in
         r <- calculateLinearTrend x y ;;
         Ok (Some r)
       else Ok None) ;;
    (* Step 6: anomalies *)
    let anomalies :=
      if AnomalySettings.enabled anomaly && (0 <? length dataForAnalysis)%nat
      then
        let values := map value dataForAnalysis in
        let indices :=
          detectAnomalies values (AnomalySettings.threshold anomaly) in
        let mean := mean_of values in
        let variance := variance_of values mean in
        let stdDev := Math_sqrt variance in
        non_null (map (anomaly_of_index dataForAnalysis mean stdDev) indices)
      else [] in
    Ok (mkProcessed filtered movingAverageData trendData aggregatedData
                    anomalies)
  end.
End Recomputation.

(** ** Auxiliary definitions used in the statements *)

(** The element pushed at iteration [i]. *)
Definition sma_at (data : list number) (windowSize : Z) (i : nat) : number :=
  if Z.of_nat i <? windowSize - 1 then
    let partialWindow := slice data 0 (Z.of_nat i + 1) in
    div (Num.sum partialWindow) (ofNat (length partialWindow))
  else
    div (Num.sum (slice data (Z.of_nat i - windowSize + 1) (Z.of_nat i + 1)))
        (ofZ windowSize).

(** The recurrence, seeded with the previous average. *)
Fixpoint ema_from (alpha prev : number) (rest : list number) : list number :=
  match rest with
  | [] => []
  | v :: rest' =>
      let e := add (mul alpha v) (mul (sub (ofZ 1) alpha) prev) in
      e :: ema_from alpha e rest'
  end.


(** The sums of the least-squares fit, written over the paired values. *)
Definition sum_cross (x y : list number) (xMean yMean : number) : number :=
  Num.sum (map (fun p => mul (sub (fst p) xMean) (sub (snd p) yMean))
               (combine x y)).

Definition sum_sq_dev (x : list number) (xMean : number) : number :=
  Num.sum (map (fun v => sq (sub v xMean)) x).

Definition ss_residual (x y : list number) (slope intercept : number) : number :=
  Num.sum (map (fun p => sq (sub (snd p) (add (mul slope (fst p)) intercept)))
               (combine x y)).

(** [sub] is [l] with some elements left out, the others in their order. *)
Inductive Subsequence {A : Type} : list A -> list A -> Prop :=
| Subsequence_nil : Subsequence [] []
| Subsequence_keep a sub l : Subsequence sub l -> Subsequence (a :: sub) (a :: l)
| Subsequence_drop a sub l : Subsequence sub l -> Subsequence sub (a :: l).

(** The bounds read as constraints: an absent bound constrains nothing. *)
Definition not_below (min : option number) (v : number) : Prop :=
  forall lo, min = Some lo -> lt v lo = false.

Definition not_above (max : option number) (v : number) : Prop :=
  forall hi, max = Some hi -> gt v hi = false.

Definition not_before (startDate : option Date) (t : Z) : Prop :=
  forall st, startDate = Some st -> getTime st <= t.

Definition not_after (endDate : option Date) (t : Z) : Prop :=
  forall en, endDate = Some en -> t <= getTime en.

(** What one iteration of the grouping loop does to the map: the value is
    appended to the array of its key, a new key comes last. *)
Fixpoint push_group (groups : Groups) (key : Z) (v : number) : Groups :=
  match groups with
  | [] => [(key, [v])]
  | entry :: rest =>
      if fst entry =? key then (key, snd entry ++ [v]) :: rest
      else entry :: push_group rest key v
  end.

(** The array held for a key, empty when the key is absent. *)
Definition lookup (groups : Groups) (key : Z) : list number :=
  match Map_get groups key with
  | Some values => values
  | None => []
  end.

(** The comparator [(a, b) => a - b] on timestamps. *)
Definition Z_ascending (a b : Z) : bool := a - b >? 0.

Section Buckets.
Variable LocalTZA : Z -> bool -> Z.

(** The values of the points of a period, in input order. *)
Definition bucket (period : AggregationPeriod) (key : Z)
    (data : list DataPoint) : list number :=
  map value
      (filter (fun p => getPeriodStart LocalTZA (timestamp p) period =? key)
              data).

(** The output point of a bucket. *)
Definition bucket_point (period : AggregationPeriod)
    (func : AggregationFunction) (data : list DataPoint) (key : Z)
    : DataPoint :=
  mkPoint key (applyAggregationFunction (bucket period key data) func).

(** The keys of the map after the grouping loop. *)
Definition group_keys (period : AggregationPeriod) (data : list DataPoint)
    : list Z :=
  map fst (fold_left (group_step LocalTZA period) data []).
End Buckets.

(** The initial state of [AnalysisPanel]. *)
Definition initialState : AnalysisState :=
  mkState (DateRange.mk None None)
          (ValueRange.mk None None false)
          (MovingAverageSettings.mk none 7 (lit 3 10) true)
          (TrendLineSettings.mk false None)
          (AggregationSettings.mk false daily mean)
          (AnomalySettings.mk false (ofZ 2) false).

(** The state after the user selects the simple moving average: the
    type changes, the window keeps its initial size 7. *)
Definition smaSelected : AnalysisState :=
  mkState (dateRange initialState) (valueRange initialState)
          (MovingAverageSettings.mk sma 7 (lit 3 10) true)
          (trendLine initialState) (aggregation initialState)
          (anomaly initialState).

(** The reducers that do not look at the order of the values. *)
Definition order_free (func : AggregationFunction) : bool :=
  match func with
  | count | min | max => true
  | _ => false
  end.

(** ** The steps of the recomputation, one by one

    The same code as in [processedData], cut at the comments that number
    its steps. *)
Section RecomputationSteps.
Variable LocalTZA : Z -> bool -> Z.

(** Steps 1 and 2: the date filter, then the value filter. *)
Definition filtered_series (rawData : list DataPoint) (st : AnalysisState)
    : list DataPoint :=
  let filtered :=
    if is_some (DateRange.startDate (dateRange st))
       || is_some (DateRange.endDate (dateRange st))
    then filterByDateRange rawData (DateRange.startDate (dateRange st))
                           (DateRange.endDate (dateRange st))
    else rawData in
  if is_some (ValueRange.min (valueRange st))
     || is_some (ValueRange.max (valueRange st))
  then filterByValueRange filtered (ValueRange.min (valueRange st))
                          (ValueRange.max (valueRange st))
  else filtered.

(** Step 3: the aggregated series, when aggregation applies. *)
Definition aggregated_series (rawData : list DataPoint) (st : AnalysisState)
    : option (list DataPoint) :=
  let filtered := filtered_series rawData st in
  if AggregationSettings.enabled (aggregation st) && (0 <? length filtered)%nat
  then Some (aggregateByTimePeriod LocalTZA filtered
               (AggregationSettings.period (aggregation st))
               (AggregationSettings.func (aggregation st)))
  else None.

(** [dataForAnalysis]. *)
Definition analysed_series (rawData : list DataPoint) (st : AnalysisState)
    : list DataPoint :=
  match aggregated_series rawData st with
  | Some aggregated => aggregated
  | None => filtered_series rawData st
  end.
End RecomputationSteps.

(** Step 4 on the analysed series. *)
Definition moving_average_step (st : AnalysisState)
    (dataForAnalysis : list DataPoint) : result (option (list number)) :=
  if is_active (MovingAverageSettings.type (movingAverage st))
     && MovingAverageSettings.visible (movingAverage st)
     && (0 <? length dataForAnalysis)%nat
  then
    let values := map value dataForAnalysis in
    match MovingAverageSettings.type (movingAverage st) with
    | sma =>
        r <- calculateSimpleMovingAverage values
               (MovingAverageSettings.windowSize (movingAverage st)) ;;
        Ok (Some r)
    | ema =>
        r <- calculateExponentialMovingAverage values
               (MovingAverageSettings.alpha (movingAverage st)) ;;
        Ok (Some r)
    | none => Ok None
    end
  else Ok None.

(** Step 5 on the analysed series. *)
Definition trend_step (st : AnalysisState) (dataForAnalysis : list DataPoint)
    : result (option TrendResult) :=
  if TrendLineSettings.enabled (trendLine st)
     && (2 <=? length dataForAnalysis)%nat
  then
    let x := map (fun d => ofZ (timestamp d)) dataForAnalysis in
    let y := map value dataForAnalysis in
    r <- calculateLinearTrend x y ;;
    Ok (Some r)
  else Ok None.

(** Step 6 on the analysed series. *)
Definition anomalies_step (st : AnalysisState)
    (dataForAnalysis : list DataPoint) : list Anomaly.t :=
  if AnomalySettings.enabled (anomaly st) && (0 <? length dataForAnalysis)%nat
  then
    let values := map value dataForAnalysis in
    let indices := detectAnomalies values (AnomalySettings.threshold (anomaly st)) in
    let mean := mean_of values in
    let variance := variance_of values mean in
    let stdDev := Math_sqrt variance in
    non_null (map (anomaly_of_index dataForAnalysis mean stdDev) indices)
  else [].

(** The series the panel hands to the anomaly list:
    [processedData.aggregatedData ?? processedData.filteredData]. *)
Definition dataPoints_of (r : ProcessedData) : list DataPoint :=
  match aggregatedData r with
  | Some aggregated => aggregated
  | None => filteredData r
  end.

(** What makes a moving-average engine throw. *)
Definition window_out_of_range (windowSize : Z) (n : nat) : Prop :=
  windowSize <= 0 \/ windowSize > Z.of_nat n.

Definition alpha_out_of_range (alpha : number) : Prop :=
  le alpha zero = true \/ gt alpha (ofZ 1) = true.

(** ** The value-range control

    [ValueRangeFilter] keeps the envelope of [calculateIQR] over all values
    and emits the range that the recomputation filters by. *)
Module IqrInfo.
Record t : Type := mk {
  lowerBound : number;
  upperBound : number;
  outlierCount : nat
}.
End IqrInfo.



(** * Properties *)

(** ** Loops that push one element per iteration *)

Lemma fold_left_push {A B} (f : B -> A) (step : list A -> B -> list A) :
  (forall acc i, step acc i = acc ++ [f i]) ->
  forall l acc, fold_left step l acc = acc ++ map f l.
Proof.
  intros Hstep l.
  induction l as [|i l IH]; intros acc; simpl.
  - now rewrite app_nil_r.
  - rewrite IH, Hstep, <- app_assoc. reflexivity.
Qed.

Lemma nth_error_map_seq {A} (f : nat -> A) (n i : nat) :
  (i < n)%nat -> nth_error (map f (seq 0 n)) i = Some (f i).
Proof.
  intros Hi.
  rewrite nth_error_map, nth_error_seq.
  destruct (Nat.ltb_spec i n); [reflexivity | lia].
Qed.

(** ** Simple moving average *)

Lemma sma_step_push data windowSize acc i :
  sma_step data windowSize acc i = acc ++ [sma_at data windowSize i].
Proof.
  unfold sma_step, sma_at.
  destruct (Z.of_nat i <? windowSize - 1); reflexivity.
Qed.

Lemma slice_prefix {A} (data : list A) (i : nat) :
  (i < length data)%nat ->
  slice data 0 (Z.of_nat i + 1) = firstn (S i) data.
Proof.
  intros Hi. unfold slice, clamp_index.
  destruct (Z.ltb_spec 0 0); [lia|].
  destruct (Z.ltb_spec (Z.of_nat i + 1) 0); [lia|].
  rewrite (Z.min_l 0) by lia.
  rewrite Z.min_l by lia.
  simpl skipn. f_equal. lia.
Qed.

Lemma slice_window {A} (data : list A) (windowSize : Z) (i : nat) :
  (i < length data)%nat -> 0 < windowSize -> windowSize - 1 <= Z.of_nat i ->
  slice data (Z.of_nat i - windowSize + 1) (Z.of_nat i + 1)
  = firstn (Z.to_nat windowSize) (skipn (S i - Z.to_nat windowSize) data).
Proof.
  intros Hi Hw Hle. unfold slice, clamp_index.
  destruct (Z.ltb_spec (Z.of_nat i - windowSize + 1) 0); [lia|].
  destruct (Z.ltb_spec (Z.of_nat i + 1) 0); [lia|].
  rewrite !Z.min_l by lia.
  f_equal; [lia | f_equal; lia].
Qed.

Lemma length_window {A} (data : list A) (windowSize : Z) (i : nat) :
  (i < length data)%nat -> 0 < windowSize -> windowSize - 1 <= Z.of_nat i ->
  length (firstn (Z.to_nat windowSize) (skipn (S i - Z.to_nat windowSize) data))
  = Z.to_nat windowSize.
Proof.
  intros Hi Hw Hle.
  rewrite length_firstn, length_skipn. lia.
Qed.

(** ** Exponential moving average *)

Lemma length_ema_from alpha prev rest :
  length (ema_from alpha prev rest) = length rest.
Proof.
  revert prev. induction rest as [|v rest IH]; intros prev; simpl; auto.
Qed.

(** The loop, resumed after [done] of the inputs have been consumed. *)
Lemma ema_loop alpha first :
  forall rest done result last,
    length result = S (length done) ->
    nth_error result (length done) = Some last ->
    fold_left (ema_step ((first :: done) ++ rest) alpha)
              (seq (S (length done)) (length rest)) result
    = result ++ ema_from alpha last rest.
Proof.
  induction rest as [|v rest IH]; intros done result last Hlen Hlast; simpl.
  - now rewrite app_nil_r.
  - unfold ema_step at 2.
    replace (nth_error (first :: done ++ v :: rest) (S (length done)))
      with (Some v)
      by (simpl; rewrite nth_error_app2, Nat.sub_diag by lia; reflexivity).
    replace (S (length done) - 1)%nat with (length done) by lia.
    rewrite Hlast.
    set (e := add (mul alpha v) (mul (sub (ofZ 1) alpha) last)).
    assert (Hd : length (done ++ [v]) = S (length done))
      by (rewrite length_app; simpl; lia).
    specialize (IH (done ++ [v]) (result ++ [e]) e).
    rewrite Hd in IH.
    replace ((first :: done ++ [v]) ++ rest)
      with (first :: done ++ v :: rest) in IH
      by (simpl; rewrite <- app_assoc; reflexivity).
    rewrite IH.
    + rewrite <- app_assoc. reflexivity.
    + rewrite length_app. simpl. lia.
    + rewrite nth_error_app2 by lia.
      replace (S (length done) - length result)%nat with 0%nat by lia.
      reflexivity.
Qed.

Lemma ema_unfold data alpha :
  le alpha zero = false -> gt alpha (ofZ 1) = false ->
  calculateExponentialMovingAverage data alpha
  = Ok match data with
       | [] => []
       | first :: rest => first :: ema_from alpha first rest
       end.
Proof.
  intros H0 H1. unfold calculateExponentialMovingAverage.
  rewrite H0, H1. simpl.
  destruct data as [|first rest]; [reflexivity|].
  f_equal.
  replace (length (first :: rest) - 1)%nat with (length rest) by (simpl; lia).
  apply (ema_loop alpha first rest [] [first] first); reflexivity.
Qed.

Lemma ema_from_recurrence alpha :
  forall rest prev t v p,
    nth_error rest t = Some v ->
    nth_error (prev :: ema_from alpha prev rest) t = Some p ->
    nth_error (ema_from alpha prev rest) t
    = Some (add (mul alpha v) (mul (sub (ofZ 1) alpha) p)).
Proof.
  induction rest as [|w rest IH]; intros prev t v p Hv Hp.
  - destruct t; discriminate.
  - destruct t as [|t]; simpl in *.
    + now inversion Hv; inversion Hp; subst.
    + eapply IH; eauto.
Qed.

(** ** Claims on the moving averages *)

(** C3. [calculateSimpleMovingAverage] throws exactly when the window is not
    positive or exceeds the length of the input.  Otherwise it returns an
    array as long as the input, whose element at an index [i] below
    [window - 1] is the mean of the values at positions [0..i], and whose
    element at an index [i] from [window - 1] on is the mean of the values at
    positions [i - window + 1 .. i].  For the data 1, 2, 3, 4, 5 and the
    window 3 the result is 1, 1.5, 2, 3, 4. *)
Theorem C3_simple_moving_average (data : list number) (windowSize : Z) :
  (is_throw (calculateSimpleMovingAverage data windowSize) = true
   <-> windowSize <= 0 \/ windowSize > Z.of_nat (length data))
  /\ (0 < windowSize <= Z.of_nat (length data) ->
      exists out,
        calculateSimpleMovingAverage data windowSize = Ok out
        /\ length out = length data
        /\ forall i, (i < length data)%nat ->
             (Z.of_nat i < windowSize - 1 ->
              nth_error out i = Some (mean_of (firstn (S i) data)))
             /\ (windowSize - 1 <= Z.of_nat i ->
                 nth_error out i
                 = Some (mean_of (firstn (Z.to_nat windowSize)
                                    (skipn (S i - Z.to_nat windowSize) data)))))
  /\ calculateSimpleMovingAverage (map ofZ [1; 2; 3; 4; 5]) 3
     = Ok [ofZ 1; lit 15 10; ofZ 2; ofZ 3; ofZ 4].
Proof.
  split; [|split].
  - unfold calculateSimpleMovingAverage.
    destruct (Z.leb_spec windowSize 0);
      destruct (Z.gtb_spec windowSize (Z.of_nat (length data)));
      simpl; split; intros; try discriminate; try reflexivity; lia.
  - intros [Hpos Hle].
    exists (map (sma_at data windowSize) (seq 0 (length data))).
    split; [|split].
    + unfold calculateSimpleMovingAverage.
      destruct (Z.leb_spec windowSize 0); [lia|].
      destruct (Z.gtb_spec windowSize (Z.of_nat (length data))); [lia|].
      simpl. f_equal.
      apply (fold_left_push (sma_at data windowSize)).
      apply sma_step_push.
    + now rewrite length_map, length_seq.
    + intros i Hi.
      rewrite nth_error_map_seq by exact Hi.
      unfold sma_at, mean_of.
      split; intros Hcase.
      * destruct (Z.ltb_spec (Z.of_nat i) (windowSize - 1)); [|lia].
        now rewrite slice_prefix by exact Hi.
      * destruct (Z.ltb_spec (Z.of_nat i) (windowSize - 1)); [lia|].
        rewrite slice_window by (auto; lia).
        rewrite length_window by (auto; lia).
        unfold ofNat. now rewrite Z2Nat.id by lia.
  - vm_compute. reflexivity.
Qed.

Lemma C3_simple_moving_average_witness :
  exists out,
    calculateSimpleMovingAverage (map ofZ [4; 8; 6]) 2 = Ok out
    /\ length out = 3%nat
    /\ nth_error out 0 = Some (mean_of [ofZ 4])
    /\ nth_error out 2 = Some (mean_of [ofZ 8; ofZ 6]).
Proof.
  destruct (C3_simple_moving_average (map ofZ [4; 8; 6]) 2)
    as (_ & Hok & _).
  destruct Hok as (out & Hout & Hlen & Hnth); [simpl; lia|].
  exists out. split; [exact Hout | split; [exact Hlen|]].
  split.
  - apply (proj1 (Hnth 0%nat ltac:(simpl; lia))). lia.
  - apply (proj2 (Hnth 2%nat ltac:(simpl; lia))). lia.
Defined.

(** C4. [calculateExponentialMovingAverage] throws exactly when [alpha <= 0]
    or [alpha > 1].  Otherwise the output is as long as the input, an empty
    input gives an empty output, the first output is the first input, and
    every later output is [alpha * value[t] + (1 - alpha) * EMA[t-1]].  For
    10, 20, 30 and [alpha = 0.5] the result is 10, 15, 22.5. *)
Theorem C4_exponential_moving_average (data : list number) (alpha : number) :
  (is_throw (calculateExponentialMovingAverage data alpha) = true
   <-> le alpha zero = true \/ gt alpha (ofZ 1) = true)
  /\ (le alpha zero = false -> gt alpha (ofZ 1) = false ->
      exists out,
        calculateExponentialMovingAverage data alpha = Ok out
        /\ length out = length data
        /\ (data = [] -> out = [])
        /\ nth_error out 0 = nth_error data 0
        /\ forall t v prev,
             nth_error data (S t) = Some v ->
             nth_error out t = Some prev ->
             nth_error out (S t)
             = Some (add (mul alpha v) (mul (sub (ofZ 1) alpha) prev)))
  /\ calculateExponentialMovingAverage (map ofZ [10; 20; 30]) (lit 5 10)
     = Ok [ofZ 10; ofZ 15; lit 225 10].
Proof.
  split; [|split].
  - destruct (le alpha zero) eqn:H0; destruct (gt alpha (ofZ 1)) eqn:H1;
      try (unfold calculateExponentialMovingAverage; rewrite H0, H1; simpl;
           split; auto; fail).
    rewrite ema_unfold by assumption. simpl.
    split; [discriminate | intros [H|H]; discriminate].
  - intros H0 H1. rewrite ema_unfold by assumption.
    destruct data as [|first rest].
    + exists []. repeat split; auto. intros t v prev Hv. destruct t; discriminate.
    + exists (first :: ema_from alpha first rest).
      split; [reflexivity|]. split; [simpl; now rewrite length_ema_from|].
      split; [discriminate|]. split; [reflexivity|].
      intros t v prev Hv Hp. simpl in Hv |- *.
      now apply ema_from_recurrence.
  - vm_compute. reflexivity.
Qed.

Lemma C4_exponential_moving_average_witness :
  exists out,
    calculateExponentialMovingAverage (map ofZ [10; 20; 30]) (lit 5 10) = Ok out
    /\ length out = 3%nat
    /\ nth_error out 0 = Some (ofZ 10).
Proof.
  destruct (C4_exponential_moving_average (map ofZ [10; 20; 30]) (lit 5 10))
    as (_ & Hok & _).
  destruct Hok as (out & Hout & Hlen & _ & Hfirst & _);
    [vm_compute; reflexivity | vm_compute; reflexivity |].
  exists out. auto.
Defined.

(** ** Loops over the indices of an array *)

Lemma fold_indices_from {A B} (g : B -> A -> B) (l : list A) :
  forall r p a,
    l = p ++ r ->
    fold_left (fun acc i => match nth_error l i with
                            | Some v => g acc v
                            | None => acc
                            end)
              (seq (length p) (length r)) a
    = fold_left g r a.
Proof.
  induction r as [|v r IH]; intros p a Hl; simpl; [reflexivity|].
  assert (Hv : nth_error l (length p) = Some v).
  { subst l. rewrite nth_error_app2, Nat.sub_diag by lia. reflexivity. }
  rewrite Hv.
  specialize (IH (p ++ [v]) (g a v)).
  rewrite length_app in IH. simpl in IH.
  replace (length p + 1)%nat with (S (length p)) in IH by lia.
  apply IH. subst l. now rewrite <- app_assoc.
Qed.

Lemma fold_indices {A B} (g : B -> A -> B) (l : list A) (a : B) :
  fold_left (fun acc i => match nth_error l i with
                          | Some v => g acc v
                          | None => acc
                          end)
            (seq 0 (length l)) a
  = fold_left g l a.
Proof. exact (fold_indices_from g l l [] a eq_refl). Qed.

Lemma nth_error_combine {A B} (x : list A) (y : list B) :
  forall i,
    nth_error (combine x y) i
    = match nth_error x i, nth_error y i with
      | Some a, Some b => Some (a, b)
      | _, _ => None
      end.
Proof.
  revert y. induction x as [|a x IH]; intros [|b y] [|i]; simpl; auto.
  - now destruct (nth_error x i).
Qed.

Lemma fold_left_ext_in {A B} (f g : B -> A -> B) (l : list A) :
  (forall acc i, f acc i = g acc i) ->
  forall a, fold_left f l a = fold_left g l a.
Proof.
  intros H. induction l as [|i l IH]; intros a; simpl; [reflexivity|].
  now rewrite H, IH.
Qed.

(** Two accumulators updated together are two separate sums. *)
Lemma fold_left_pair {A} (f1 f2 : A -> number) (l : list A) :
  forall a b,
    fold_left (fun acc v => (add (fst acc) (f1 v), add (snd acc) (f2 v))) l (a, b)
    = (fold_left add (map f1 l) a, fold_left add (map f2 l) b).
Proof.
  induction l as [|v l IH]; intros a b; simpl; [reflexivity|].
  apply IH.
Qed.

Lemma map_fst_combine {A B C} (f : A -> C) (x : list A) (y : list B) :
  length x = length y ->
  map (fun p => f (fst p)) (combine x y) = map f x.
Proof.
  revert y. induction x as [|a x IH]; intros [|b y] H; simpl in *;
    try discriminate; auto.
  f_equal. apply IH. lia.
Qed.

Lemma map_snd_combine {A B C} (f : B -> C) (x : list A) (y : list B) :
  length x = length y ->
  map (fun p => f (snd p)) (combine x y) = map f y.
Proof.
  revert y. induction x as [|a x IH]; intros [|b y] H; simpl in *;
    try discriminate; auto.
  f_equal. apply IH. lia.
Qed.

(** ** Linear trend *)

Lemma trend_first_loop x y xMean yMean :
  length x = length y ->
  fold_left (trend_acc_step x y xMean yMean) (seq 0 (length x)) (zero, zero)
  = (sum_cross x y xMean yMean, sum_sq_dev x xMean).
Proof.
  intros Hlen.
  rewrite (fold_left_ext_in _
    (fun acc i => match nth_error (combine x y) i with
                  | Some p => (add (fst acc) (mul (sub (fst p) xMean) (sub (snd p) yMean)),
                               add (snd acc) (sq (sub (fst p) xMean)))
                  | None => acc
                  end)).
  2:{ intros acc i. unfold trend_acc_step. rewrite nth_error_combine.
      destruct (nth_error x i), (nth_error y i); reflexivity. }
  replace (length x) with (length (combine x y))
    by (rewrite length_combine; lia).
  rewrite (fold_indices
    (fun acc p => (add (fst acc) (mul (sub (fst p) xMean) (sub (snd p) yMean)),
                   add (snd acc) (sq (sub (fst p) xMean))))).
  rewrite (fold_left_pair
             (fun p => mul (sub (fst p) xMean) (sub (snd p) yMean))
             (fun p => sq (sub (fst p) xMean))).
  unfold sum_cross, sum_sq_dev, Num.sum.
  now rewrite (map_fst_combine (fun v => sq (sub v xMean))) by exact Hlen.
Qed.

Lemma trend_second_loop x y yMean slope intercept :
  length x = length y ->
  fold_left (trend_ss_step x y yMean slope intercept) (seq 0 (length x))
            (zero, zero)
  = (sum_sq_dev y yMean, ss_residual x y slope intercept).
Proof.
  intros Hlen.
  rewrite (fold_left_ext_in _
    (fun acc i => match nth_error (combine x y) i with
                  | Some p => (add (fst acc) (sq (sub (snd p) yMean)),
                               add (snd acc)
                                   (sq (sub (snd p)
                                            (add (mul slope (fst p)) intercept))))
                  | None => acc
                  end)).
  2:{ intros acc i. unfold trend_ss_step. rewrite nth_error_combine.
      destruct (nth_error x i), (nth_error y i); reflexivity. }
  replace (length x) with (length (combine x y))
    by (rewrite length_combine; lia).
  rewrite (fold_indices
    (fun acc p => (add (fst acc) (sq (sub (snd p) yMean)),
                   add (snd acc)
                       (sq (sub (snd p) (add (mul slope (fst p)) intercept)))))).
  rewrite (fold_left_pair
             (fun p => sq (sub (snd p) yMean))
             (fun p => sq (sub (snd p) (add (mul slope (fst p)) intercept)))).
  unfold ss_residual, sum_sq_dev, Num.sum.
  now rewrite (map_snd_combine (fun v => sq (sub v yMean))) by exact Hlen.
Qed.

Lemma trend_unfold x y :
  length x = length y -> length x <> 0%nat ->
  let xMean := mean_of x in
  let yMean := mean_of y in
  let slope :=
    if strict_eq (sum_sq_dev x xMean) zero then zero
    else div (sum_cross x y xMean yMean) (sum_sq_dev x xMean) in
  let intercept := sub yMean (mul slope xMean) in
  calculateLinearTrend x y
  = Ok (mkTrend slope intercept
          (if strict_eq (sum_sq_dev y yMean) zero then zero
           else sub (ofZ 1)
                    (div (ss_residual x y slope intercept)
                         (sum_sq_dev y yMean)))).
Proof.
  intros Hlen Hne. unfold calculateLinearTrend.
  destruct (Nat.eqb_spec (length x) (length y)); [|contradiction].
  destruct (Nat.eqb_spec (length x) 0); [contradiction|].
  simpl negb. simpl orb. cbv iota.
  fold (mean_of x).
  replace (div (Num.sum y) (ofNat (length x))) with (mean_of y)
    by (unfold mean_of; now rewrite Hlen).
  rewrite trend_first_loop by exact Hlen.
  rewrite trend_second_loop by exact Hlen.
  reflexivity.
Qed.

(** *** Infinities and NaN in the sums *)

Lemma sub_nonfinite_r v m : is_finite m = false -> is_finite (sub v m) = false.
Proof.
  destruct m as [s|s| |s mm e]; try discriminate; intros _;
    destruct v as [sv|sv| |sv mv ev]; try reflexivity;
    destruct sv, s; reflexivity.
Qed.

Lemma sq_nonfinite v : is_finite v = false -> is_finite (sq v) = false.
Proof.
  destruct v as [s|s| |s m e]; try discriminate; intros _; reflexivity.
Qed.

Lemma add_nonfinite_l a b : is_finite a = false -> is_finite (add a b) = false.
Proof.
  destruct a as [s|s| |s m e]; try discriminate; intros _;
    destruct b as [sb|sb| |sb mb eb]; try reflexivity;
    destruct s, sb; reflexivity.
Qed.

Lemma add_nonfinite_r a b : is_finite b = false -> is_finite (add a b) = false.
Proof.
  destruct b as [s|s| |s m e]; try discriminate; intros _;
    destruct a as [sa|sa| |sa ma ea]; try reflexivity;
    destruct s, sa; reflexivity.
Qed.

Lemma fold_add_nonfinite l :
  forall a, is_finite a = false -> is_finite (fold_left add l a) = false.
Proof.
  induction l as [|v l IH]; intros a Ha; simpl; [exact Ha|].
  apply IH. now apply add_nonfinite_l.
Qed.




Lemma strict_eq_finite s m e s' m' e' :
  strict_eq (S754_finite s m e) (S754_finite s' m' e') = true ->
  s = s' /\ m = m' /\ e = e'.
Proof.
  unfold strict_eq, SFeqb, SFcompare.
  change (Pos.compare_cont Eq m m') with (Pos.compare m m').
  destruct s, s'; try discriminate;
    destruct (Z.compare_spec e e'); try discriminate;
    destruct (Pos.compare_spec m m'); try discriminate;
    intros _; subst; auto.
Qed.

(** *** Values that equal the computed mean *)





(** C5, as stated, fails.  Identical x values do not make the computed sum
    of squares zero: for 0.1, 0.1, 0.1 the sum rounds, the computed mean is
    0.10000000000000002, each deviation is one unit in the last place and
    the denominator is 5.8e-34, not 0; with y = 1, 2, 4 the slope is
    10.67 and the intercept differs from the mean of y.  Constant y values
    do not make R2 zero either: for x = 10^15 + 19, 10^15 + 14, 10^15 + 16
    and y = 0.1, 0.1, 0.1 the computed [SS_total] is not 0 and R2 is -1. *)
Lemma C5_counterexample :
  let x := [lit 1 10; lit 1 10; lit 1 10] in
  let y := map ofZ [1; 2; 4] in
  let x' := map ofZ [1000000000000019; 1000000000000014; 1000000000000016] in
  let y' := [lit 1 10; lit 1 10; lit 1 10] in
  (forall v, In v x -> v = lit 1 10)
  /\ (exists t,
        calculateLinearTrend x y = Ok t
        /\ strict_eq (sum_sq_dev x (mean_of x)) zero = false
        /\ strict_eq (slope t) zero = false
        /\ gt (slope t) (ofZ 10) = true
        /\ strict_eq (intercept t) (mean_of y) = false)
  /\ (forall v, In v y' -> v = lit 1 10)
  /\ (exists t,
        calculateLinearTrend x' y' = Ok t
        /\ strict_eq (sum_sq_dev y' (mean_of y')) zero = false
        /\ r2 t = ofZ (-1)).
Proof.
  cbv zeta. split; [intros v [<-|[<-|[<-|[]]]]; reflexivity|].
  split; [eexists; split; [vm_compute; reflexivity|];
          vm_compute; repeat split; reflexivity|].
  split; [intros v [<-|[<-|[<-|[]]]]; reflexivity|].
  eexists. split; [vm_compute; reflexivity|].
  vm_compute. split; reflexivity.
Qed.



(** ** Sorting *)

Section SortFacts.
Context {A : Type}.
Variable positive : A -> A -> bool.

Lemma sort_insert_perm a l : Permutation (sort_insert positive a l) (a :: l).
Proof.
  induction l as [|b l IH]; simpl; [reflexivity|].
  destruct (positive a b); [|reflexivity].
  rewrite IH. apply perm_swap.
Qed.

Lemma array_sort_perm l : Permutation (array_sort positive l) l.
Proof.
  induction l as [|a l IH]; simpl; [reflexivity|].
  rewrite sort_insert_perm. now constructor.
Qed.

Lemma array_sort_length l : length (array_sort positive l) = length l.
Proof. apply Permutation_length, array_sort_perm. Qed.

Hypothesis positive_antisym :
  forall a b, positive a b = true -> positive b a = false.

Lemma sort_insert_hd a b l :
  in_order positive b a -> HdRel (in_order positive) b l -> HdRel (in_order positive) b (sort_insert positive a l).
Proof.
  intros Hba Hbl. destruct l as [|c l]; simpl; [now constructor|].
  destruct (positive a c); constructor; auto.
  now inversion Hbl.
Qed.

Lemma sort_insert_sorted a l :
  Sorted (in_order positive) l -> Sorted (in_order positive) (sort_insert positive a l).
Proof.
  induction l as [|b l IH]; intros Hs; simpl.
  - repeat constructor.
  - inversion Hs as [|? ? Hl Hhd]; subst.
    destruct (positive a b) eqn:Hab.
    + constructor; [now apply IH|].
      apply sort_insert_hd; [now apply positive_antisym | exact Hhd].
    + constructor; [exact Hs|]. now constructor.
Qed.

Lemma array_sort_sorted l : Sorted (in_order positive) (array_sort positive l).
Proof.
  induction l as [|a l IH]; simpl; [constructor|].
  now apply sort_insert_sorted.
Qed.
End SortFacts.

(** Sorting commutes with a map that preserves the comparator. *)
Lemma array_sort_map {A B} (posA : A -> A -> bool) (posB : B -> B -> bool)
    (f : A -> B) :
  (forall a b, posB (f a) (f b) = posA a b) ->
  forall l, array_sort posB (map f l) = map f (array_sort posA l).
Proof.
  intros Hf.
  assert (Hins : forall a l,
             sort_insert posB (f a) (map f l) = map f (sort_insert posA a l)).
  { intros a l. induction l as [|b l IH]; simpl; [reflexivity|].
    rewrite Hf. destruct (posA a b); simpl; [now rewrite IH | reflexivity]. }
  induction l as [|a l IH]; simpl; [reflexivity|].
  now rewrite IH, Hins.
Qed.

(** *** The comparator on numbers *)

Lemma binary_round_negative m e :
  SFltb zero (binary_round prec emax true m e) = false.
Proof.
  unfold binary_round, binary_round_aux.
  destruct (shl_align _ _ _) as [mz ez].
  destruct (shr_fexp _ _ _ _ _) as [mrs' e'].
  destruct (shr_fexp _ _ _ _ _) as [mrs'' e''].
  destruct (shr_m mrs''); try reflexivity.
  destruct (Z.leb _ _); reflexivity.
Qed.

Lemma number_ascending_antisym a b :
  number_ascending a b = true -> number_ascending b a = false.
Proof.
  unfold number_ascending, gt, sub.
  destruct a as [sa|sa| |sa ma ea], b as [sb|sb| |sb mb eb];
    try (lazymatch goal with
         | |- context [SFsub _ _ (S754_finite _ _ _) (S754_finite _ _ _)] => fail
         | _ => idtac
         end;
         try destruct sa; try destruct sb; cbv; congruence).
  unfold SFsub.
  rewrite (Z.min_comm eb ea).
  set (ez := Z.min ea eb).
  set (da := cond_Zopp sa (Z.pos (fst (shl_align ma ea ez)))).
  set (db := cond_Zopp sb (Z.pos (fst (shl_align mb eb ez)))).
  replace (Z.sub db da) with (- (Z.sub da db)) by lia.
  destruct (Z.sub da db) as [|d|d]; simpl.
  - cbv. congruence.
  - intros _. apply binary_round_negative.
  - now rewrite binary_round_negative.
Qed.

(** *** The order of numbers *)

Ltac order_step :=
  match goal with
  | |- context [Pos.compare_cont Eq ?a ?b] =>
      change (Pos.compare_cont Eq a b) with (Pos.compare a b)
  | |- context [Z.compare ?a ?b] => destruct (Z.compare_spec a b)
  | |- context [Pos.compare ?a ?b] => destruct (Pos.compare_spec a b)
  end;
  simpl; try subst; try lia.

Ltac order_cases :=
  repeat match goal with
         | s : bool |- _ => destruct s
         end;
  simpl; repeat order_step; try congruence; try lia.

(** Between two bounds in the wrong order there is no number: a value that
    is neither below the larger bound nor above the smaller one is NaN. *)
Lemma between_inverted_bounds lo hi v :
  gt lo hi = true -> lt v lo = false -> gt v hi = false -> v = NaN.
Proof.
  unfold gt, lt, SFltb, SFcompare.
  destruct lo as [sl|sl| |sl ml el], hi as [sh|sh| |sh mh eh],
           v as [sv|sv| |sv mv ev]; try reflexivity; order_cases.
Qed.

Lemma not_lt_iff_le lo v :
  is_nan lo = false -> is_nan v = false -> (lt v lo = false <-> le lo v = true).
Proof.
  unfold lt, le, SFltb, SFleb, SFcompare.
  destruct lo as [sl|sl| |sl ml el], v as [sv|sv| |sv mv ev];
    try discriminate; intros _ _; order_cases; split; congruence.
Qed.

Lemma not_le_lt a b :
  is_nan a = false -> is_nan b = false -> le a b = false -> lt b a = true.
Proof.
  unfold lt, le, SFltb, SFleb, SFcompare.
  destruct a as [sa|sa| |sa ma ea], b as [sb|sb| |sb mb eb];
    try discriminate; intros _ _; order_cases.
Qed.

Lemma le_trans a b c : le a b = true -> le b c = true -> le a c = true.
Proof.
  unfold le, SFleb, SFcompare.
  destruct a as [sa|sa| |sa ma ea], b as [sb|sb| |sb mb eb],
           c as [sc|sc| |sc mc ec]; try discriminate; order_cases.
Qed.

(** ** Rounding keeps the sign of a difference *)

Lemma digits2_pos_lower m : 2 ^ (Z.pos (digits2_pos m) - 1) <= Z.pos m.
Proof.
  induction m as [m IH|m IH|]; simpl digits2_pos.
  - rewrite Pos2Z.inj_succ.
    replace (Z.succ (Z.pos (digits2_pos m)) - 1)
      with (Z.succ (Z.pos (digits2_pos m) - 1)) by lia.
    rewrite Z.pow_succ_r by lia. lia.
  - rewrite Pos2Z.inj_succ.
    replace (Z.succ (Z.pos (digits2_pos m)) - 1)
      with (Z.succ (Z.pos (digits2_pos m) - 1)) by lia.
    rewrite Z.pow_succ_r by lia. lia.
  - simpl. lia.
Qed.

Lemma digits2_pos_upper m : Z.pos m < 2 ^ Z.pos (digits2_pos m).
Proof.
  induction m as [m IH|m IH|]; simpl digits2_pos.
  - rewrite Pos2Z.inj_succ, Z.pow_succ_r by lia. lia.
  - rewrite Pos2Z.inj_succ, Z.pow_succ_r by lia. lia.
  - simpl. lia.
Qed.

Lemma shr_1_m r : 0 <= shr_m r -> shr_m (shr_1 r) = shr_m r / 2.
Proof.
  destruct r as [m rb sb]. cbn [shr_m shr_1].
  destruct m as [|[p|p|]|p]; intros Hm; cbn [shr_m]; try lia;
    first [ reflexivity
          | apply Z.div_unique with 1; lia
          | apply Z.div_unique with 0; lia ].
Qed.

Lemma shr_1_nonneg r : 0 <= shr_m r -> 0 <= shr_m (shr_1 r).
Proof.
  intros H. rewrite shr_1_m by exact H. apply Z.div_pos; lia.
Qed.

Lemma iter_shr_m n :
  forall r, 0 <= shr_m r ->
            shr_m (iter_pos shr_1 n r) = shr_m r / 2 ^ Z.pos n.
Proof.
  induction n as [n IH|n IH|]; intros r Hr; simpl iter_pos.
  - assert (H1 : 0 <= shr_m (shr_1 r)) by now apply shr_1_nonneg.
    assert (H2 : 0 <= shr_m (iter_pos shr_1 n (shr_1 r)))
      by (rewrite IH by exact H1; apply Z.div_pos; lia).
    rewrite IH by exact H2. rewrite IH by exact H1. rewrite shr_1_m by exact Hr.
    rewrite !Z.div_div by lia.
    f_equal. rewrite Pos2Z.inj_xI.
    rewrite <- Z.pow_add_r, <- Z.pow_succ_r by lia. f_equal. lia.
  - assert (H2 : 0 <= shr_m (iter_pos shr_1 n r))
      by (rewrite IH by exact Hr; apply Z.div_pos; lia).
    rewrite IH by exact H2. rewrite IH by exact Hr.
    rewrite !Z.div_div by lia.
    f_equal. rewrite Pos2Z.inj_xO.
    rewrite <- Z.pow_add_r by lia. f_equal. lia.
  - rewrite shr_1_m by exact Hr. reflexivity.
Qed.

(** Shifting to the format's exponent leaves a positive mantissa
    positive and an exponent that is at least [emin] at least [emin]. *)
Lemma shr_fexp_positive m e l :
  0 < m -> emin prec emax <= e ->
  0 < shr_m (fst (shr_fexp prec emax m e l))
  /\ emin prec emax <= snd (shr_fexp prec emax m e l).
Proof.
  intros Hm He. unfold shr_fexp, shr.
  assert (Hrec : shr_m (shr_record_of_loc m l) = m)
    by (destruct l as [|[]]; reflexivity).
  destruct m as [|p|p]; try lia. simpl Zdigits2.
  pose proof (digits2_pos_lower p) as Hlow.
  unfold fexp. set (d := Z.pos (digits2_pos p)) in *.
  assert (Hd : 0 < d) by (subst d; lia).
  change (emin prec emax) with (-1074) in *. change prec with 53 in *.
  destruct (Z.max (d + e - 53) (-1074) - e) as [|n|n] eqn:Hn; simpl;
    try (rewrite Hrec; split; lia).
  rewrite iter_shr_m by (rewrite Hrec; lia). rewrite Hrec.
  assert (Hnd : Z.pos n = d - 53) by lia.
  split; [|lia].
  apply Z.div_str_pos. split; [apply Z.pow_pos_nonneg; lia|].
  rewrite Hnd. etransitivity; [|exact Hlow].
  apply Z.pow_le_mono_r; lia.
Qed.

Lemma round_nearest_even_ge m l : m <= round_nearest_even m l.
Proof.
  unfold round_nearest_even.
  destruct l as [|[]]; try destruct (Z.even m); lia.
Qed.

Lemma binary_round_aux_positive m e l :
  0 < m -> emin prec emax <= e ->
  SFltb zero (binary_round_aux prec emax false m e l) = true.
Proof.
  intros Hm He. unfold binary_round_aux.
  destruct (shr_fexp_positive m e l Hm He) as (Hm1 & He1).
  destruct (shr_fexp prec emax m e l) as [mrs' e']. simpl fst in *. simpl snd in *.
  pose proof (round_nearest_even_ge (shr_m mrs') (loc_of_shr_record mrs'))
    as Hge.
  set (m2 := round_nearest_even (shr_m mrs') (loc_of_shr_record mrs')) in *.
  assert (Hm2 : 0 < m2) by lia.
  destruct (shr_fexp_positive m2 e' loc_Exact Hm2 He1) as (Hm3 & _).
  destruct (shr_fexp prec emax m2 e' loc_Exact) as [mrs'' e''].
  simpl fst in *.
  destruct (shr_m mrs'') as [|p|p]; try lia.
  destruct (Z.leb e'' (Z.sub emax prec)); reflexivity.
Qed.

Lemma shl_align_exponent m e e' :
  emin prec emax <= e -> emin prec emax <= e' ->
  emin prec emax <= snd (shl_align m e e').
Proof.
  intros He He'. unfold shl_align.
  destruct (Z.sub e' e); simpl; assumption.
Qed.

Lemma binary_round_positive m e :
  emin prec emax <= e ->
  SFltb zero (binary_round prec emax false m e) = true.
Proof.
  intros He. unfold binary_round.
  pose proof (shl_align_exponent m e
                (fexp prec emax (Z.add (Z.pos (digits2_pos m)) e)) He) as Hs.
  destruct (shl_align m e _) as [mz ez]. simpl snd in Hs.
  apply binary_round_aux_positive; [lia|].
  apply Hs. unfold fexp. lia.
Qed.

Lemma shl_align_value m e ez :
  ez <= e -> Z.pos (fst (shl_align m e ez)) = Z.pos m * 2 ^ (e - ez).
Proof.
  intros Hle. unfold shl_align.
  destruct (Z.sub ez e) as [|d|d] eqn:Hd; simpl fst.
  - replace (e - ez) with 0 by lia. simpl. lia.
  - lia.
  - change (Pos.iter xO m d) with (shift_pos d m).
    rewrite shift_pos_correct.
    replace (e - ez) with (Z.pos d) by lia.
    change (Z.pow_pos 2 d) with (2 ^ Z.pos d). lia.
Qed.

(** What validity says about a finite binary64 value: the exponent is at
    least [emin], the mantissa has at most 53 digits, and exactly 53 above
    the least exponent. *)
Lemma valid_finite s m e :
  valid (S754_finite s m e) = true ->
  -1074 <= e
  /\ Z.pos m < 2 ^ 53
  /\ (-1074 < e -> 2 ^ 52 <= Z.pos m).
Proof.
  unfold valid, valid_binary, bounded, canonical_mantissa, fexp.
  change (emin prec emax) with (-1074). change prec with 53.
  intros H. apply andb_true_iff in H. destruct H as (Hc & _).
  apply Z.eqb_eq in Hc.
  pose proof (digits2_pos_lower m) as Hlow.
  pose proof (digits2_pos_upper m) as Hup.
  set (d := Z.pos (digits2_pos m)) in *.
  assert (Hd : 0 < d) by (subst d; lia).
  split; [lia|]. split.
  - eapply Z.lt_le_trans; [exact Hup|]. apply Z.pow_le_mono_r; lia.
  - intros He. replace 52 with (d - 1) by lia. exact Hlow.
Qed.

(** The difference of a larger and a smaller value is positive: gradual
    underflow leaves no difference of distinct values at zero. *)
Lemma sub_positive a b :
  valid a = true -> valid b = true ->
  lt b a = true -> gt (sub a b) zero = true.
Proof.
  unfold lt, gt, sub.
  destruct a as [sa|sa| |sa ma ea], b as [sb|sb| |sb mb eb];
    try (lazymatch goal with
         | |- context [SFsub _ _ (S754_finite _ _ _) (S754_finite _ _ _)] => fail
         | _ => idtac
         end;
         intros _ _; try destruct sa; try destruct sb; cbv; congruence).
  intros Ha Hb Hlt.
  apply valid_finite in Ha, Hb.
  destruct Ha as (Hea & Hma & Hna), Hb as (Heb & Hmb & Hnb).
  unfold SFsub.
  set (ez := Z.min ea eb).
  pose proof (shl_align_value ma ea ez ltac:(subst ez; lia)) as HA.
  pose proof (shl_align_value mb eb ez ltac:(subst ez; lia)) as HB.
  assert (HD : 0 < Z.sub (cond_Zopp sa (Z.pos (fst (shl_align ma ea ez))))
                         (cond_Zopp sb (Z.pos (fst (shl_align mb eb ez))))).
  { rewrite HA, HB. clear HA HB.
    unfold SFltb, SFcompare in Hlt.
    change (Pos.compare_cont Eq mb ma) with (Pos.compare mb ma) in Hlt.
    assert (Hpa : 0 < 2 ^ (ea - ez)) by (apply Z.pow_pos_nonneg; subst ez; lia).
    assert (Hpb : 0 < 2 ^ (eb - ez)) by (apply Z.pow_pos_nonneg; subst ez; lia).
    destruct sa, sb; cbn [cond_Zopp]; try discriminate; try nia.
    - (* both negative: the exponent or the mantissa of [b] is larger *)
      destruct (Z.compare_spec eb ea) as [He|He|He]; try discriminate.
      + destruct (Pos.compare_spec mb ma); simpl in Hlt; try discriminate.
        subst eb. subst ez. rewrite Z.min_id, Z.sub_diag.
        change (2 ^ 0) with 1. lia.
      + subst ez. rewrite Z.min_l by lia. rewrite Z.sub_diag.
        assert (2 <= 2 ^ (eb - ea))
          by (change 2 with (2 ^ 1) at 1; apply Z.pow_le_mono_r; lia).
        change (2 ^ 0) with 1. specialize (Hnb ltac:(lia)). nia.
    - (* both positive *)
      destruct (Z.compare_spec eb ea) as [He|He|He]; try discriminate.
      + destruct (Pos.compare_spec mb ma); simpl in Hlt; try discriminate.
        subst eb. subst ez. rewrite Z.min_id, Z.sub_diag.
        change (2 ^ 0) with 1. lia.
      + subst ez. rewrite Z.min_r by lia. rewrite Z.sub_diag.
        assert (2 <= 2 ^ (ea - eb))
          by (change 2 with (2 ^ 1) at 1; apply Z.pow_le_mono_r; lia).
        change (2 ^ 0) with 1. specialize (Hna ltac:(lia)). nia. }
  clear HA HB. unfold binary_normalize.
  destruct (Z.sub (cond_Zopp sa _) _) as [|d|d]; try lia.
  apply binary_round_positive.
  change (emin prec emax) with (-1074). subst ez. lia.
Qed.

(** *** The sorted copy of an array of numbers is ascending *)

Lemma in_order_le a b :
  is_number a -> is_number b ->
  in_order number_ascending a b -> le a b = true.
Proof.
  intros (Hva & Hna) (Hvb & Hnb) Hord.
  destruct (le a b) eqn:Hle; [reflexivity|].
  apply not_le_lt in Hle; try assumption.
  apply sub_positive in Hle; try assumption.
  unfold in_order, number_ascending in Hord. congruence.
Qed.

Lemma Sorted_among {A} (P : A -> Prop) (R R' : A -> A -> Prop) (l : list A) :
  (forall a b, P a -> P b -> R a b -> R' a b) ->
  Forall P l -> Sorted R l -> Sorted R' l.
Proof.
  intros Himp Hall Hs.
  induction Hs as [|a l Hl IH Hhd]; [constructor|].
  inversion Hall as [|? ? Ha Hrest]; subst.
  constructor; [now apply IH|].
  destruct Hhd as [|b l Hab]; constructor.
  inversion Hrest; subst. now apply Himp.
Qed.

Lemma array_sort_ascending data :
  Forall is_number data ->
  StronglySorted (fun a b => le a b = true) (array_sort number_ascending data).
Proof.
  intros Hall.
  apply Sorted_StronglySorted; [intros a b c; apply le_trans|].
  apply (Sorted_among is_number (in_order number_ascending)).
  - intros a b. apply in_order_le.
  - rewrite Forall_forall in *. intros v Hv. apply Hall.
    eapply Permutation_in; [apply array_sort_perm | exact Hv].
  - apply array_sort_sorted, number_ascending_antisym.
Qed.

(** ** Indices selected by a test *)

Lemma indices_where_spec test data :
  forall k i,
    In i (indices_where test data k)
    <-> (k <= i)%nat
        /\ exists v, nth_error data (i - k) = Some v /\ test v = true.
Proof.
  induction data as [|v data IH]; intros k i; simpl.
  - split; [contradiction|]. intros (_ & w & Hw & _).
    destruct (i - k)%nat; discriminate.
  - assert (Hrest : In i (indices_where test data (S k))
                    <-> (k < i)%nat
                        /\ exists w, nth_error (v :: data) (i - k) = Some w
                                     /\ test w = true).
    { rewrite IH. split.
      - intros (Hk & w & Hw & Ht). split; [lia|]. exists w. split; [|exact Ht].
        replace (i - k)%nat with (S (i - S k)) by lia. exact Hw.
      - intros (Hk & w & Hw & Ht). split; [lia|]. exists w. split; [|exact Ht].
        replace (i - k)%nat with (S (i - S k)) in Hw by lia. exact Hw. }
    destruct (test v) eqn:Htv; simpl; rewrite Hrest.
    + split.
      * intros [<-|(Hk & Hw)].
        -- split; [lia|]. exists v. rewrite Nat.sub_diag. auto.
        -- split; [lia | exact Hw].
      * intros (Hk & w & Hw & Ht).
        destruct (Nat.eq_dec k i) as [->|Hne]; [now left|].
        right. split; [lia|]. now exists w.
    + split.
      * intros (Hk & Hw). split; [lia | exact Hw].
      * intros (Hk & w & Hw & Ht).
        destruct (Nat.eq_dec k i) as [->|Hne].
        -- rewrite Nat.sub_diag in Hw. simpl in Hw. congruence.
        -- split; [lia|]. now exists w.
Qed.

Lemma indices_where_sorted test data :
  forall k, StronglySorted Nat.lt (indices_where test data k).
Proof.
  induction data as [|v data IH]; intros k; simpl; [constructor|].
  destruct (test v); [|apply IH].
  constructor; [apply IH|].
  apply Forall_forall. intros i Hi.
  apply indices_where_spec in Hi. unfold Nat.lt. lia.
Qed.

Lemma indices_where_none test data :
  (forall v, In v data -> test v = false) ->
  forall k, indices_where test data k = [].
Proof.
  induction data as [|v data IH]; intros Hall k; simpl; [reflexivity|].
  rewrite (Hall v) by now left.
  apply IH. intros w Hw. apply Hall. now right.
Qed.

(** ** Interquartile range *)

Lemma floor_quarter n : floor_of_length_times n 0.25 = (n / 4)%nat.
Proof.
  unfold floor_of_length_times, Qfloor, Qmult, inject_Z. simpl Qnum. simpl Qden.
  change (Z.pos (1 * 100)) with 100.
  apply Nat2Z.inj. rewrite Nat2Z.inj_div, Z2Nat.id.
  - change 100 with (25 * 4). rewrite (Z.mul_comm (Z.of_nat n) 25).
    now rewrite Z.div_mul_cancel_l by lia.
  - apply Z.div_pos; lia.
Qed.

Lemma floor_three_quarters n :
  floor_of_length_times n 0.75 = (3 * n / 4)%nat.
Proof.
  unfold floor_of_length_times, Qfloor, Qmult, inject_Z. simpl Qnum. simpl Qden.
  change (Z.pos (1 * 100)) with 100.
  apply Nat2Z.inj. rewrite Nat2Z.inj_div, Nat2Z.inj_mul, Z2Nat.id.
  - change 100 with (25 * 4). change 75 with (25 * 3).
    rewrite (Z.mul_comm (Z.of_nat n) (25 * 3)), <- Z.mul_assoc.
    now rewrite Z.div_mul_cancel_l by lia.
  - apply Z.div_pos; lia.
Qed.

Lemma at_or_zero_nth l i :
  (i < length l)%nat -> nth_error l i = Some (at_or_zero l i).
Proof.
  intros Hi. unfold at_or_zero.
  destruct (nth_error l i) eqn:H; [reflexivity|].
  apply nth_error_None in H. lia.
Qed.



(** ** Comparisons of numbers *)

(** A value that equals the mean is at distance zero or, for an infinite
    mean, at no distance at all. *)
Lemma sub_strict_eq v m :
  strict_eq v m = true -> is_zero (sub v m) = true \/ sub v m = NaN.
Proof.
  destruct v as [sv|sv| |sv mv ev], m as [sm|sm| |sm mm em]; intros H;
    try discriminate;
    try (apply strict_eq_finite in H; destruct H as (-> & -> & ->);
         left; unfold sub, SFsub; now rewrite Z.sub_diag);
    destruct sv; try destruct sm; try discriminate;
    try (left; reflexivity); right; reflexivity.
Qed.

Lemma div_zero_or_nan a d :
  is_zero a = true \/ a = NaN -> is_zero (div a d) = true \/ div a d = NaN.
Proof.
  intros [H| ->].
  - destruct a as [sa|sa| |sa ma ea]; try discriminate.
    destruct d as [sd|sd| |sd md ed]; [right|left|right|left]; reflexivity.
  - right. reflexivity.
Qed.

Lemma not_le_zero_not_below t z :
  le t zero = false -> is_zero z = true \/ z = NaN -> gt (Math_abs z) t = false.
Proof.
  intros Ht [Hz| ->].
  - destruct z as [sz|sz| |sz mz ez]; try discriminate.
    destruct t as [st|st| |st mt et]; try reflexivity; try discriminate;
      destruct st; try reflexivity; discriminate.
  - destruct t; reflexivity.
Qed.

(** ** Anomalies *)

Lemma zScore_at_mean mean stdDev threshold v :
  le threshold zero = false ->
  strict_eq v mean = true ->
  zScore_exceeds mean stdDev threshold v = false.
Proof.
  intros Ht Hv. unfold zScore_exceeds.
  apply not_le_zero_not_below; [exact Ht|].
  apply div_zero_or_nan, sub_strict_eq, Hv.
Qed.

Lemma detectAnomalies_unfold data threshold :
  data <> [] -> le threshold zero = false ->
  detectAnomalies data threshold
  = indices_where
      (zScore_exceeds (mean_of data)
                      (Math_sqrt (variance_of data (mean_of data))) threshold)
      data 0.
Proof.
  intros Hne Ht. unfold detectAnomalies. rewrite Ht.
  destruct data; [contradiction | reflexivity].
Qed.

Lemma detectAnomalies_empty data threshold :
  data = [] \/ le threshold zero = true -> detectAnomalies data threshold = [].
Proof.
  intros [-> | Ht]; unfold detectAnomalies; [reflexivity|].
  rewrite Ht. now rewrite orb_true_r.
Qed.

(** C7, as stated, fails.  Three equal values [0.1 * 2 ** -600]: the sum
    rounds, so the computed mean differs from the common value in the last
    place; the squared deviations underflow to zero, the computed standard
    deviation is zero, every z-score is [Infinity], and with the threshold 2
    all three indices are flagged. *)
Lemma C7_counterexample :
  let v := mul (lit 1 10) (pow2 (-600)) in
  let data := [v; v; v] in
  (forall w, In w data -> w = v)
  /\ strict_eq (Math_sqrt (variance_of data (mean_of data))) zero = true
  /\ gt (ofZ 2) zero = true
  /\ detectAnomalies data (ofZ 2) = [0; 1; 2]%nat
  /\ detectAnomalies data (ofZ 2) <> [].
Proof.
  cbv zeta. split; [|vm_compute; repeat split; discriminate].
  intros w [<-|[<-|[<-|[]]]]; reflexivity.
Qed.

(** The same happens without underflow: for 0.1, 0.1, 0.1 the computed mean
    is 0.10000000000000002, the deviations are one unit in the last place and
    every z-score is 1, above the threshold 0.5. *)
Example anomalies_equal_values_flagged :
  detectAnomalies [lit 1 10; lit 1 10; lit 1 10] (lit 5 10) = [0; 1; 2]%nat.
Proof. vm_compute. reflexivity. Qed.

(** C7, amended.  [detectAnomalies] never flags a point whose value equals
    the computed mean; when every value equals the computed mean no index is
    flagged.  The result holds positions of the input only, in ascending
    order.  For an empty input or a threshold that is not positive the result
    is empty. *)
Theorem C7_anomalies_at_mean (data : list number) (threshold : number) :
  (data = [] \/ le threshold zero = true -> detectAnomalies data threshold = [])
  /\ (forall i, In i (detectAnomalies data threshold) ->
        exists v, nth_error data i = Some v
                  /\ strict_eq v (mean_of data) = false)
  /\ ((forall v, In v data -> strict_eq v (mean_of data) = true) ->
      detectAnomalies data threshold = [])
  /\ StronglySorted Nat.lt (detectAnomalies data threshold).
Proof.
  split; [apply detectAnomalies_empty|].
  destruct data as [|d data'] eqn:Hdata;
    [repeat split; try contradiction; constructor|].
  destruct (le threshold zero) eqn:Ht.
  { rewrite detectAnomalies_empty by now right.
    repeat split; try contradiction; constructor. }
  rewrite detectAnomalies_unfold by (auto; discriminate).
  split; [|split].
  - intros i Hi. apply indices_where_spec in Hi.
    destruct Hi as (_ & v & Hv & Hz). rewrite Nat.sub_0_r in Hv.
    exists v. split; [exact Hv|].
    destruct (strict_eq v (mean_of (d :: data'))) eqn:He; [|reflexivity].
    now rewrite zScore_at_mean in Hz.
  - intros Hall. apply indices_where_none.
    intros v Hv. apply zScore_at_mean; auto.
  - apply indices_where_sorted.
Qed.

Lemma C7_anomalies_at_mean_witness :
  detectAnomalies (map ofZ [5; 5; 5; 5]) (lit 15 10) = []
  /\ detectAnomalies [] (ofZ 2) = [].
Proof.
  destruct (C7_anomalies_at_mean (map ofZ [5; 5; 5; 5]) (lit 15 10))
    as (_ & _ & Hall & _).
  destruct (C7_anomalies_at_mean [] (ofZ 2)) as (Hempty & _).
  split.
  - apply Hall. intros v [<-|[<-|[<-|[<-|[]]]]]; vm_compute; reflexivity.
  - apply Hempty. now left.
Defined.

(** ** Filters *)

Lemma filter_subsequence {A} (f : A -> bool) (l : list A) :
  Subsequence (filter f l) l.
Proof.
  induction l as [|a l IH]; simpl; [constructor|].
  destruct (f a); now constructor.
Qed.

Lemma value_in_range_spec min max p :
  value_in_range min max p = true
  <-> not_below min (value p) /\ not_above max (value p).
Proof.
  unfold value_in_range, not_below, not_above, defined_and.
  destruct min as [lo|], max as [hi|];
    try destruct (lt (value p) lo) eqn:Hlo;
    try destruct (gt (value p) hi) eqn:Hhi;
    split; try discriminate; try (intros _; split; congruence);
    try reflexivity;
    intros [H1 H2];
    try (specialize (H1 _ eq_refl); congruence);
    try (specialize (H2 _ eq_refl); congruence).
Qed.

Lemma date_in_range_spec startTime endTime p :
  date_in_range startTime endTime p = true
  <-> not_before startTime (timestamp p) /\ not_after endTime (timestamp p).
Proof.
  unfold date_in_range, not_before, not_after, defined_and, getTime.
  destruct startTime as [st|], endTime as [en|];
    try destruct (Z.ltb_spec (timestamp p) st);
    try destruct (Z.gtb_spec (timestamp p) en);
    split; try discriminate;
    try (intros _; split; intros ? [= <-]; lia);
    try (intros _; split; intros ? [=]; lia);
    try reflexivity;
    intros [H1 H2];
    try (specialize (H1 _ eq_refl); lia);
    try (specialize (H2 _ eq_refl); lia).
Qed.

(** C9, as stated, fails on the value filter: a point whose value is NaN
    passes every bound, so it is kept although it does not lie within the
    bounds, and it is kept when the minimum exceeds the maximum. *)
Lemma C9_counterexample :
  gt (ofZ 5) (ofZ 1) = true
  /\ le (ofZ 5) NaN = false
  /\ filterByValueRange [mkPoint 0 NaN] (Some (ofZ 5)) (Some (ofZ 1))
     = [mkPoint 0 NaN]
  /\ filterByValueRange [mkPoint 0 NaN] (Some (ofZ 5)) (Some (ofZ 1)) <> [].
Proof. vm_compute. repeat split; discriminate. Qed.

(** C9, amended.  Both filters return a subsequence of the input with the
    retained points unchanged.  The date filter keeps exactly the points
    whose timestamp lies within the inclusive bounds and returns the empty
    series when the start exceeds the end.  The value filter keeps exactly
    the points whose value is neither below the minimum nor above the
    maximum; for values and bounds other than NaN these are the points within
    the inclusive bounds, and when the minimum exceeds the maximum every
    retained point has the value NaN. *)
Theorem C9_filters (data : list DataPoint) :
  (forall min max,
     Subsequence (filterByValueRange data min max) data
     /\ (forall p, In p (filterByValueRange data min max)
                   <-> In p data /\ not_below min (value p)
                       /\ not_above max (value p))
     /\ (forall lo hi p,
           min = Some lo -> max = Some hi ->
           is_nan lo = false -> is_nan hi = false ->
           is_nan (value p) = false ->
           (In p (filterByValueRange data min max)
            <-> In p data /\ le lo (value p) = true
                /\ le (value p) hi = true))
     /\ (forall lo hi,
           min = Some lo -> max = Some hi -> gt lo hi = true ->
           forall p, In p (filterByValueRange data min max) ->
                     value p = NaN))
  /\ (forall startDate endDate,
        Subsequence (filterByDateRange data startDate endDate) data
        /\ (forall p, In p (filterByDateRange data startDate endDate)
                      <-> In p data /\ not_before startDate (timestamp p)
                          /\ not_after endDate (timestamp p))
        /\ (forall st en,
              startDate = Some st -> endDate = Some en ->
              getTime st > getTime en ->
              filterByDateRange data startDate endDate = [])).
Proof.
  split.
  - intros min max. unfold filterByValueRange.
    split; [apply filter_subsequence|].
    assert (Hin : forall p, In p (filter (value_in_range min max) data)
                            <-> In p data /\ not_below min (value p)
                                /\ not_above max (value p)).
    { intros p. now rewrite filter_In, value_in_range_spec. }
    split; [exact Hin|]. split.
    + intros lo hi p -> -> Hlo Hhi Hv. rewrite Hin.
      unfold not_below, not_above.
      rewrite <- (not_lt_iff_le lo (value p) Hlo Hv).
      assert (Hup : gt (value p) hi = false <-> le (value p) hi = true)
        by (apply (not_lt_iff_le (value p) hi); assumption).
      rewrite <- Hup.
      split; intros (Hd & H1 & H2); (split; [exact Hd|]).
      * split; [now apply H1 | now apply H2].
      * split; intros ? [= <-]; assumption.
    + intros lo hi -> -> Hinv p Hp. apply Hin in Hp.
      destruct Hp as (_ & H1 & H2).
      apply (between_inverted_bounds lo hi); auto.
  - intros startDate endDate. unfold filterByDateRange.
    split; [apply filter_subsequence|].
    assert (Hin : forall p,
               In p (filter (date_in_range (option_map getTime startDate)
                                           (option_map getTime endDate)) data)
               <-> In p data /\ not_before startDate (timestamp p)
                   /\ not_after endDate (timestamp p)).
    { intros p. rewrite filter_In, date_in_range_spec.
      unfold not_before, not_after, getTime.
      destruct startDate, endDate; simpl; reflexivity. }
    split; [exact Hin|].
    intros st en -> -> Hgt.
    assert (Hnone : forall p,
               ~ In p (filter (date_in_range (option_map getTime (Some st))
                                             (option_map getTime (Some en)))
                              data)).
    { intros p Hp. apply Hin in Hp. destruct Hp as (_ & H1 & H2).
      specialize (H1 _ eq_refl). specialize (H2 _ eq_refl). lia. }
    destruct (filter _ data) as [|p rest]; [reflexivity|].
    exfalso. apply (Hnone p). now left.
Qed.

Lemma C9_filters_witness :
  filterByDateRange [mkPoint 10 (ofZ 1); mkPoint 20 (ofZ 2)] (Some 30) (Some 5)
  = []
  /\ (forall p,
        In p (filterByValueRange [mkPoint 10 (ofZ 1); mkPoint 20 NaN]
                                 (Some (ofZ 5)) (Some (ofZ 1))) ->
        value p = NaN).
Proof.
  destruct (C9_filters [mkPoint 10 (ofZ 1); mkPoint 20 (ofZ 2)]) as (_ & Hd).
  destruct (Hd (Some 30) (Some 5)) as (_ & _ & Hempty).
  destruct (C9_filters [mkPoint 10 (ofZ 1); mkPoint 20 NaN]) as (Hv & _).
  destruct (Hv (Some (ofZ 5)) (Some (ofZ 1))) as (_ & _ & _ & Hnan).
  split.
  - apply (Hempty 30 5); [reflexivity | reflexivity | unfold getTime; lia].
  - apply (Hnan (ofZ 5) (ofZ 1)); reflexivity.
Defined.

(** ** Grouping *)

Lemma Map_set_absent groups key values :
  Map_has groups key = false ->
  Map_set groups key values = groups ++ [(key, values)].
Proof.
  unfold Map_has. induction groups as [|e groups IH]; simpl; [reflexivity|].
  destruct (fst e =? key); simpl; [discriminate|].
  intros H. now rewrite IH.
Qed.

Lemma Map_get_absent groups key :
  Map_has groups key = false -> Map_get groups key = None.
Proof.
  unfold Map_has, Map_get. induction groups as [|e groups IH]; simpl;
    [reflexivity|].
  destruct (fst e =? key); simpl; [discriminate | exact IH].
Qed.

Lemma push_group_absent groups key v :
  Map_has groups key = false ->
  push_group groups key v = groups ++ [(key, [v])].
Proof.
  unfold Map_has. induction groups as [|e groups IH]; simpl; [reflexivity|].
  destruct (fst e =? key); simpl; [discriminate|].
  intros H. now rewrite IH.
Qed.

Lemma Map_get_app_new groups key values :
  Map_has groups key = false ->
  Map_get (groups ++ [(key, values)]) key = Some values.
Proof.
  unfold Map_has, Map_get. induction groups as [|e groups IH]; simpl.
  - now rewrite Z.eqb_refl.
  - destruct (fst e =? key); simpl; [discriminate | exact IH].
Qed.

Lemma Map_set_app_new groups key values values' :
  Map_has groups key = false ->
  Map_set (groups ++ [(key, values)]) key values'
  = groups ++ [(key, values')].
Proof.
  unfold Map_has. induction groups as [|e groups IH]; simpl.
  - now rewrite Z.eqb_refl.
  - destruct (fst e =? key); simpl; [discriminate|].
    intros H. now rewrite IH.
Qed.

Lemma Map_set_present groups key v :
  forall values,
    Map_get groups key = Some values ->
    Map_set groups key (values ++ [v]) = push_group groups key v.
Proof.
  unfold Map_get. induction groups as [|e groups IH]; simpl; [discriminate|].
  intros values. destruct (fst e =? key) eqn:He.
  - now intros [= <-].
  - intros H. now rewrite (IH _ H).
Qed.

Lemma Map_has_get groups key :
  Map_has groups key = true -> exists values, Map_get groups key = Some values.
Proof.
  unfold Map_has, Map_get. induction groups as [|e groups IH]; simpl;
    [discriminate|].
  destruct (fst e =? key); simpl; [now eexists | exact IH].
Qed.

Lemma group_step_push tz period groups p :
  group_step tz period groups p
  = push_group groups (getPeriodStart tz (timestamp p) period) (value p).
Proof.
  unfold group_step.
  destruct (Map_has groups _) eqn:Hhas; simpl.
  - destruct (Map_has_get _ _ Hhas) as (values & Hget).
    rewrite Hget. now apply Map_set_present.
  - rewrite Map_set_absent by exact Hhas.
    rewrite Map_get_app_new by exact Hhas.
    rewrite Map_set_app_new by exact Hhas.
    now rewrite push_group_absent.
Qed.

Lemma lookup_push groups key v k :
  lookup (push_group groups key v) k
  = if k =? key then lookup groups key ++ [v] else lookup groups k.
Proof.
  unfold lookup, Map_get.
  induction groups as [|e groups IH]; simpl.
  - rewrite (Z.eqb_sym key k). now destruct (k =? key).
  - destruct (Z.eqb_spec (fst e) key) as [He|He]; simpl.
    + rewrite (Z.eqb_sym key k).
      destruct (Z.eqb_spec k key) as [Hk|Hk]; [reflexivity|].
      destruct (Z.eqb_spec (fst e) k) as [Hek|Hek]; [lia | reflexivity].
    + destruct (Z.eqb_spec (fst e) k) as [Hek|Hek].
      * destruct (Z.eqb_spec k key) as [Hk|Hk]; [lia | reflexivity].
      * exact IH.
Qed.

Lemma keys_push groups key v :
  forall k, In k (map fst (push_group groups key v))
            <-> In k (map fst groups) \/ k = key.
Proof.
  induction groups as [|e groups IH]; intros k; simpl.
  - intuition.
  - destruct (Z.eqb_spec (fst e) key) as [He|He]; simpl.
    + subst key. intuition.
    + rewrite IH. intuition.
Qed.

Lemma keys_push_nodup groups key v :
  NoDup (map fst groups) -> NoDup (map fst (push_group groups key v)).
Proof.
  induction groups as [|e groups IH]; simpl; intros Hnd.
  - constructor; [intros [] | constructor].
  - inversion Hnd as [|? ? Hnot Hrest]; subst.
    destruct (Z.eqb_spec (fst e) key) as [He|He]; simpl.
    + subst key. now constructor.
    + constructor; [|now apply IH].
      rewrite keys_push. intros [H|H]; [contradiction | congruence].
Qed.

Section GroupingFacts.
Variable LocalTZA : Z -> bool -> Z.
Variable period : AggregationPeriod.

Lemma grouping_lookup data :
  forall groups k,
    lookup (fold_left (group_step LocalTZA period) data groups) k
    = lookup groups k ++ bucket LocalTZA period k data.
Proof.
  unfold bucket.
  induction data as [|p data IH]; intros groups k; simpl.
  - now rewrite app_nil_r.
  - rewrite IH, group_step_push, lookup_push.
    rewrite (Z.eqb_sym _ k).
    destruct (Z.eqb_spec k (getPeriodStart LocalTZA (timestamp p) period))
      as [->|Hk]; simpl.
    + now rewrite <- app_assoc.
    + reflexivity.
Qed.

Lemma grouping_keys data :
  forall groups k,
    In k (map fst (fold_left (group_step LocalTZA period) data groups))
    <-> In k (map fst groups) \/ In k (map (fun p => getPeriodStart LocalTZA (timestamp p) period)
                           data).
Proof.
  induction data as [|p data IH]; intros groups k; simpl.
  - intuition.
  - rewrite IH, group_step_push, keys_push. intuition.
Qed.

Lemma grouping_nodup data :
  forall groups,
    NoDup (map fst groups) ->
    NoDup (map fst (fold_left (group_step LocalTZA period) data groups)).
Proof.
  induction data as [|p data IH]; intros groups Hnd; simpl; [exact Hnd|].
  apply IH. rewrite group_step_push. now apply keys_push_nodup.
Qed.
End GroupingFacts.

(** With distinct keys every entry is the one its key looks up. *)
Lemma groups_by_lookup (groups : Groups) :
  NoDup (map fst groups) ->
  groups = map (fun k => (k, lookup groups k)) (map fst groups).
Proof.
  induction groups as [|[k values] groups IH]; simpl; intros Hnd;
    [reflexivity|].
  inversion Hnd as [|? ? Hnot Hrest]; subst.
  unfold lookup at 1, Map_get. simpl. rewrite Z.eqb_refl. simpl.
  f_equal. rewrite (IH Hrest) at 1.
  apply map_ext_in. intros k' Hk'.
  unfold lookup, Map_get. simpl.
  destruct (Z.eqb_spec k k'); [subst; contradiction | reflexivity].
Qed.

(** ** Ascending timestamps *)

Lemma Z_ascending_antisym a b :
  Z_ascending a b = true -> Z_ascending b a = false.
Proof.
  unfold Z_ascending.
  destruct (Z.gtb_spec (a - b) 0), (Z.gtb_spec (b - a) 0);
    try reflexivity; try discriminate; lia.
Qed.

Lemma sorted_distinct_strict (l : list Z) :
  Sorted (in_order Z_ascending) l -> NoDup l -> StronglySorted Z.lt l.
Proof.
  induction l as [|a l IH]; intros Hs Hnd; [constructor|].
  inversion Hs as [|? ? Hl Hhd]; subst.
  inversion Hnd as [|? ? Hnot Hrest]; subst.
  specialize (IH Hl Hrest).
  constructor; [exact IH|].
  destruct l as [|b l]; [constructor|].
  inversion Hhd as [|? ? Hab]; subst.
  assert (Hlt : a < b).
  { unfold in_order, Z_ascending in Hab.
    destruct (Z.gtb_spec (a - b) 0); [discriminate|].
    assert (a <> b) by (intros ->; apply Hnot; now left). lia. }
  constructor; [exact Hlt|].
  inversion IH as [|? ? _ Hall]; subst.
  eapply Forall_impl; [|exact Hall]. intros c Hc. simpl in Hc. lia.
Qed.

Lemma strictly_sorted_unique (l1 : list Z) :
  forall l2,
    StronglySorted Z.lt l1 -> StronglySorted Z.lt l2 ->
    (forall k, In k l1 <-> In k l2) -> l1 = l2.
Proof.
  induction l1 as [|a l1 IH]; intros [|b l2] H1 H2 Hin.
  - reflexivity.
  - exfalso. apply (Hin b). now left.
  - exfalso. apply (Hin a). now left.
  - inversion H1 as [|? ? H1' Ha]; subst.
    inversion H2 as [|? ? H2' Hb]; subst.
    rewrite Forall_forall in Ha, Hb.
    assert (a = b).
    { destruct (proj1 (Hin a) (or_introl eq_refl)) as [Hab|Hab]; [auto|].
      destruct (proj2 (Hin b) (or_introl eq_refl)) as [Hba|Hba]; [auto|].
      specialize (Ha _ Hba). specialize (Hb _ Hab). lia. }
    subst b. f_equal. apply IH; auto.
    intros k. split; intros Hk.
    + destruct (proj1 (Hin k) (or_intror Hk)) as [Hak|Hak]; [|exact Hak].
      specialize (Ha _ Hk). lia.
    + destruct (proj2 (Hin k) (or_intror Hk)) as [Hak|Hak]; [|exact Hak].
      specialize (Hb _ Hk). lia.
Qed.

Lemma sorted_keys_strict (keys : list Z) :
  NoDup keys -> StronglySorted Z.lt (array_sort Z_ascending keys).
Proof.
  intros Hnd. apply sorted_distinct_strict.
  - apply array_sort_sorted, Z_ascending_antisym.
  - eapply Permutation_NoDup; [|exact Hnd].
    symmetry. apply array_sort_perm.
Qed.

(** ** Aggregation *)

Section AggregationFacts.
Variable LocalTZA : Z -> bool -> Z.
Variable period : AggregationPeriod.
Variable func : AggregationFunction.

Lemma group_keys_nodup data : NoDup (group_keys LocalTZA period data).
Proof. apply grouping_nodup. constructor. Qed.

Lemma group_keys_in data k :
  In k (group_keys LocalTZA period data)
  <-> exists p, In p data /\ k = getPeriodStart LocalTZA (timestamp p) period.
Proof.
  unfold group_keys. rewrite grouping_keys. simpl. rewrite in_map_iff.
  split.
  - intros [[]|(p & Hp & Hin)]. now exists p.
  - intros (p & Hin & Hp). right. now exists p.
Qed.

Lemma aggregate_unfold data :
  aggregateByTimePeriod LocalTZA data period func
  = map (bucket_point LocalTZA period func data)
        (array_sort Z_ascending (group_keys LocalTZA period data)).
Proof.
  assert (Hgen : array_sort timestamp_ascending
                   (map (fun entry =>
                           mkPoint (fst entry)
                                   (applyAggregationFunction (snd entry) func))
                        (fold_left (group_step LocalTZA period) data []))
                 = map (bucket_point LocalTZA period func data)
                       (array_sort Z_ascending
                                   (group_keys LocalTZA period data))).
  { rewrite <- (array_sort_map Z_ascending timestamp_ascending)
      by reflexivity.
    f_equal. unfold group_keys.
    rewrite (groups_by_lookup (fold_left (group_step LocalTZA period) data []))
      at 1 by (apply grouping_nodup; constructor).
    rewrite map_map. apply map_ext. intros k. simpl.
    unfold bucket_point. now rewrite grouping_lookup. }
  destruct data as [|p data]; [reflexivity | exact Hgen].
Qed.

Lemma aggregate_timestamps data :
  map timestamp (aggregateByTimePeriod LocalTZA data period func)
  = array_sort Z_ascending (group_keys LocalTZA period data).
Proof.
  rewrite aggregate_unfold, map_map. simpl. apply map_id.
Qed.
End AggregationFacts.

(** C10. The timestamps of the output of [aggregateByTimePeriod] are
    pairwise distinct and strictly ascending, and each of them is the period
    start of the timestamp of some input point (and the period start of every
    input point is among them). *)
Theorem C10_one_point_per_bucket (LocalTZA : Z -> bool -> Z)
    (data : list DataPoint) (period : AggregationPeriod)
    (func : AggregationFunction) :
  let out := aggregateByTimePeriod LocalTZA data period func in
  NoDup (map timestamp out)
  /\ StronglySorted Z.lt (map timestamp out)
  /\ (forall q, In q out ->
        exists p, In p data
                  /\ timestamp q
                     = getPeriodStart LocalTZA (timestamp p) period)
  /\ (forall p, In p data ->
        In (getPeriodStart LocalTZA (timestamp p) period) (map timestamp out)).
Proof.
  cbv zeta. rewrite aggregate_timestamps.
  assert (Hperm : Permutation
                    (array_sort Z_ascending (group_keys LocalTZA period data))
                    (group_keys LocalTZA period data))
    by apply array_sort_perm.
  split; [|split; [|split]].
  - eapply Permutation_NoDup; [symmetry; exact Hperm|].
    apply group_keys_nodup.
  - apply sorted_keys_strict, group_keys_nodup.
  - intros q Hq. apply group_keys_in.
    eapply Permutation_in; [exact Hperm|].
    rewrite <- (aggregate_timestamps LocalTZA period func). now apply in_map.
  - intros p Hp. eapply Permutation_in; [symmetry; exact Hperm|].
    apply group_keys_in. now exists p.
Qed.

(** *** Reordered inputs *)

Lemma filter_permutation {A} (f : A -> bool) (l l' : list A) :
  Permutation l l' -> Permutation (filter f l) (filter f l').
Proof.
  induction 1 as [|a l l' _ IH|a b l|l l' l'' _ IH1 _ IH2]; simpl.
  - constructor.
  - destruct (f a); [now constructor | exact IH].
  - destruct (f a), (f b); try reflexivity. apply perm_swap.
  - now transitivity (filter f l').
Qed.

Lemma bucket_permutation tz period key data data' :
  Permutation data data' ->
  Permutation (bucket tz period key data) (bucket tz period key data').
Proof.
  intros Hp. unfold bucket. now apply Permutation_map, filter_permutation.
Qed.

Lemma group_keys_permutation tz period data data' :
  Permutation data data' ->
  array_sort Z_ascending (group_keys tz period data)
  = array_sort Z_ascending (group_keys tz period data').
Proof.
  intros Hp.
  apply strictly_sorted_unique;
    try (apply sorted_keys_strict, group_keys_nodup).
  intros k.
  assert (Hs : forall d, In k (array_sort Z_ascending (group_keys tz period d))
                         <-> In k (group_keys tz period d)).
  { intros d. split; apply Permutation_in;
      [|symmetry]; apply array_sort_perm. }
  rewrite !Hs, !group_keys_in.
  split; intros (p & Hin & Hk); exists p; (split; [|exact Hk]).
  - eapply Permutation_in; eauto.
  - eapply Permutation_in; [symmetry|]; eauto.
Qed.

Lemma Forall2_map_same {A B C} (R : B -> C -> Prop) (f : A -> B) (g : A -> C)
    (l : list A) :
  (forall a, In a l -> R (f a) (g a)) -> Forall2 R (map f l) (map g l).
Proof.
  induction l as [|a l IH]; intros H; simpl; constructor.
  - apply H. now left.
  - apply IH. intros b Hb. apply H. now right.
Qed.

(** A fold whose step can take two elements in either order does not
    depend on the order of the array. *)
Lemma fold_left_permutation {A B} (f : B -> A -> B) :
  (forall acc a b, f (f acc a) b = f (f acc b) a) ->
  forall l l', Permutation l l' ->
  forall acc, fold_left f l acc = fold_left f l' acc.
Proof.
  intros Hswap l l' Hp.
  induction Hp as [|a l l' _ IH|a b l|l l' l'' _ IH1 _ IH2]; intros acc; simpl.
  - reflexivity.
  - apply IH.
  - now rewrite Hswap.
  - now rewrite IH1, IH2.
Qed.

Lemma min2_swap a b c : min2 (min2 a b) c = min2 (min2 a c) b.
Proof.
  unfold min2, SFltb, SFcompare.
  destruct a as [sa|sa| |sa ma ea], b as [sb|sb| |sb mb eb],
           c as [sc|sc| |sc mc ec]; try reflexivity; order_cases.
Qed.

Lemma max2_swap a b c : max2 (max2 a b) c = max2 (max2 a c) b.
Proof.
  unfold max2, SFltb, SFcompare.
  destruct a as [sa|sa| |sa ma ea], b as [sb|sb| |sb mb eb],
           c as [sc|sc| |sc mc ec]; try reflexivity; order_cases.
Qed.

Lemma order_free_permutation func vs vs' :
  order_free func = true ->
  Permutation vs vs' ->
  applyAggregationFunction vs func = applyAggregationFunction vs' func.
Proof.
  intros Hfree Hp. pose proof (Permutation_length Hp) as Hlen.
  destruct vs as [|v vs], vs' as [|v' vs']; try discriminate; [reflexivity|].
  destruct func; try discriminate; cbn [applyAggregationFunction].
  - apply (fold_left_permutation min2 min2_swap _ _ Hp).
  - apply (fold_left_permutation max2 max2_swap _ _ Hp).
  - now rewrite Hlen.
Qed.

(** C8, as stated, fails for the reducer [mean]: the sum of a bucket is
    accumulated in input order and binary64 addition rounds.  Three points of
    one day with the values 2^53, 1 and -2^53 have the mean 0 in this order
    (2^53 + 1 rounds to 2^53) and the mean 1/3 when the last two are
    exchanged. *)
Lemma C8_counterexample :
  let a := mkPoint 0 (ofZ (2 ^ 53)) in
  let b := mkPoint 1 (ofZ 1) in
  let c := mkPoint 2 (ofZ (- 2 ^ 53)) in
  Permutation [a; b; c] [a; c; b]
  /\ aggregateByTimePeriod (fun _ _ => 0) [a; b; c] daily mean
     = [mkPoint 0 zero]
  /\ aggregateByTimePeriod (fun _ _ => 0) [a; c; b] daily mean
     = [mkPoint 0 (lit 1 3)]
  /\ aggregateByTimePeriod (fun _ _ => 0) [a; b; c] daily mean
     <> aggregateByTimePeriod (fun _ _ => 0) [a; c; b] daily mean.
Proof.
  cbv zeta. split; [constructor; apply perm_swap|].
  vm_compute. repeat split; discriminate.
Qed.

(** The reducer [sum] shows the same dependence on the order. *)
Example aggregation_sum_order :
  aggregateByTimePeriod (fun _ _ => 0)
    [mkPoint 0 (ofZ (2 ^ 53)); mkPoint 1 (ofZ 1); mkPoint 2 (ofZ (- 2 ^ 53))]
    daily sum
  = [mkPoint 0 zero]
  /\ aggregateByTimePeriod (fun _ _ => 0)
       [mkPoint 0 (ofZ (2 ^ 53)); mkPoint 2 (ofZ (- 2 ^ 53)); mkPoint 1 (ofZ 1)]
       daily sum
     = [mkPoint 0 (ofZ 1)].
Proof. vm_compute. split; reflexivity. Qed.

(** C8, amended.  The output of [aggregateByTimePeriod] is sorted ascending
    by bucket start, and reordering the input changes neither the buckets nor
    their order: the outputs for an input and for a permutation of it have the
    same timestamps, and corresponding points reduce permutations of the same
    values.  For the reducers [count], [min] and [max] the two outputs are
    identical. *)
Theorem C8_aggregation_order (LocalTZA : Z -> bool -> Z)
    (data data' : list DataPoint) (period : AggregationPeriod)
    (func : AggregationFunction) :
  Permutation data data' ->
  let out := aggregateByTimePeriod LocalTZA data period func in
  let out' := aggregateByTimePeriod LocalTZA data' period func in
  StronglySorted Z.lt (map timestamp out)
  /\ map timestamp out = map timestamp out'
  /\ Forall2 (fun p p' =>
                timestamp p = timestamp p'
                /\ exists vs vs',
                     Permutation vs vs'
                     /\ vs = bucket LocalTZA period (timestamp p) data
                     /\ vs' = bucket LocalTZA period (timestamp p) data'
                     /\ value p = applyAggregationFunction vs func
                     /\ value p' = applyAggregationFunction vs' func)
             out out'
  /\ (order_free func = true -> out = out').
Proof.
  intros Hp. cbv zeta.
  rewrite !aggregate_timestamps.
  rewrite !aggregate_unfold.
  rewrite <- (group_keys_permutation LocalTZA period data data' Hp).
  split; [apply sorted_keys_strict, group_keys_nodup|].
  split; [reflexivity|].
  split.
  - apply Forall2_map_same. intros k _. simpl. split; [reflexivity|].
    exists (bucket LocalTZA period k data), (bucket LocalTZA period k data').
    repeat split. now apply bucket_permutation.
  - intros Hfree. apply map_ext. intros k. unfold bucket_point. f_equal.
    now apply order_free_permutation, bucket_permutation.
Qed.

Lemma C8_aggregation_order_witness :
  let a := mkPoint 0 (ofZ (2 ^ 53)) in
  let b := mkPoint 1 (ofZ 1) in
  let c := mkPoint 2 (ofZ (- 2 ^ 53)) in
  map timestamp (aggregateByTimePeriod (fun _ _ => 0) [a; b; c] daily mean)
  = map timestamp (aggregateByTimePeriod (fun _ _ => 0) [a; c; b] daily mean)
  /\ aggregateByTimePeriod (fun _ _ => 0) [a; b; c] daily count
     = aggregateByTimePeriod (fun _ _ => 0) [a; c; b] daily count.
Proof.
  cbv zeta.
  assert (Hp : Permutation
                 [mkPoint 0 (ofZ (2 ^ 53)); mkPoint 1 (ofZ 1);
                  mkPoint 2 (ofZ (- 2 ^ 53))]
                 [mkPoint 0 (ofZ (2 ^ 53)); mkPoint 2 (ofZ (- 2 ^ 53));
                  mkPoint 1 (ofZ 1)])
    by (constructor; apply perm_swap).
  split.
  - exact (proj1 (proj2 (C8_aggregation_order (fun _ _ => 0) _ _ daily mean Hp))).
  - apply (proj2 (proj2 (proj2
             (C8_aggregation_order (fun _ _ => 0) _ _ daily count Hp)))).
    reflexivity.
Defined.

(** ** Empty input *)

(** C2, as stated, fails: on a zero-length input the trend engine throws,
    and so does the simple moving average for a valid window such as 1. *)
Lemma C2_counterexample :
  calculateLinearTrend [] []
  = Throw "X and Y arrays must have the same non-zero length"
  /\ calculateSimpleMovingAverage [] 1
     = Throw "Window size must be positive and <= data length".
Proof. split; reflexivity. Qed.

(** C2, amended.  On a zero-length input the interquartile range, the
    exponential moving average (for a valid [alpha]), the aggregation and the
    anomaly detection return their empty or default result; the simple moving
    average throws for every window size and the linear trend throws. *)
Theorem C2_empty_input :
  calculateIQR [] = mkIQR zero zero zero zero zero []
  /\ (forall alpha,
        le alpha zero = false -> gt alpha (ofZ 1) = false ->
        calculateExponentialMovingAverage [] alpha = Ok [])
  /\ (forall LocalTZA period func,
        aggregateByTimePeriod LocalTZA [] period func = [])
  /\ (forall threshold, detectAnomalies [] threshold = [])
  /\ (forall windowSize,
        is_throw (calculateSimpleMovingAverage [] windowSize) = true)
  /\ (forall y, is_throw (calculateLinearTrend [] y) = true).
Proof.
  split; [reflexivity|].
  split; [intros alpha H0 H1; now rewrite ema_unfold|].
  split; [reflexivity|]. split; [reflexivity|]. split.
  - intros windowSize. unfold calculateSimpleMovingAverage. simpl length.
    destruct (Z.leb_spec windowSize 0); [reflexivity|].
    destruct (Z.gtb_spec windowSize (Z.of_nat 0)); [reflexivity | lia].
  - intros y. unfold calculateLinearTrend. simpl length.
    now rewrite orb_true_r.
Qed.

Lemma C2_empty_input_witness :
  calculateExponentialMovingAverage [] (lit 3 10) = Ok [].
Proof.
  destruct C2_empty_input as (_ & Hema & _).
  apply Hema; vm_compute; reflexivity.
Defined.

(** ** The recomputation *)

(** C1.  The recomputation throws: with three raw points and the simple
    moving average selected at its initial window size 7, the exception of
    [calculateSimpleMovingAverage] leaves [processedData]; no field of a
    result is substituted. *)
Theorem C1_recomputation_throws :
  processedData (fun _ _ => 0)
                [mkPoint 0 (ofZ 1); mkPoint 1 (ofZ 2); mkPoint 2 (ofZ 3)]
                smaSelected
  = Throw "Window size must be positive and <= data length".
Proof. vm_compute. reflexivity. Qed.

(** The guard of the trend step does what the guard of the moving-average
    step misses: with the moving average off the recomputation returns, and
    with fewer than two points the trend is absent. *)
Lemma trend_never_throws x y :
  length x = length y -> (2 <= length x)%nat ->
  exists t, calculateLinearTrend x y = Ok t.
Proof.
  intros Hlen Hge. rewrite trend_unfold by (auto; lia). now eexists.
Qed.

Lemma recomputation_without_moving_average tz rawData st :
  MovingAverageSettings.type (movingAverage st) = none ->
  exists r, processedData tz rawData st = Ok r
            /\ movingAverageData r = None
            /\ ((length (match aggregatedData r with
                         | Some aggregated => aggregated
                         | None => filteredData r
                         end) < 2)%nat -> trendData r = None).
Proof.
  intros Hnone. unfold processedData.
  destruct rawData as [|p rawData]; [eexists; repeat split|].
  rewrite Hnone. cbn [is_active andb bind].
  match goal with
  | |- context [match ?agg with Some a => a | None => ?f end] =>
      set (aggregated := agg); set (filtered := f)
  end.
  set (dataForAnalysis :=
         match aggregated with Some a => a | None => filtered end).
  destruct (TrendLineSettings.enabled (trendLine st)
            && (2 <=? length dataForAnalysis)%nat) eqn:Htrend.
  - apply andb_true_iff in Htrend. destruct Htrend as (_ & Hge).
    apply Nat.leb_le in Hge.
    destruct (trend_never_throws
                (map (fun d => ofZ (timestamp d)) dataForAnalysis)
                (map value dataForAnalysis)) as (t & Ht).
    + now rewrite !length_map.
    + now rewrite length_map.
    + rewrite Ht. cbn [bind]. eexists. split; [reflexivity|].
      cbn [movingAverageData aggregatedData filteredData trendData].
      split; [reflexivity|]. fold dataForAnalysis. intros Hlt.
      subst dataForAnalysis. lia.
  - cbn [bind]. eexists. split; [reflexivity|].
    cbn [movingAverageData aggregatedData filteredData trendData].
    split; reflexivity.
Qed.

Lemma C10_one_point_per_bucket_witness :
  map timestamp
      (aggregateByTimePeriod (fun _ _ => 0)
         [mkPoint 90000000 (ofZ 4); mkPoint 5 (ofZ 1); mkPoint 7 (ofZ 2)]
         daily mean)
  = [0; 86400000]
  /\ exists p,
       In p [mkPoint 90000000 (ofZ 4); mkPoint 5 (ofZ 1); mkPoint 7 (ofZ 2)]
       /\ 86400000 = getPeriodStart (fun _ _ => 0) (timestamp p) daily.
Proof.
  split; [vm_compute; reflexivity|].
  destruct (C10_one_point_per_bucket (fun _ _ => 0)
              [mkPoint 90000000 (ofZ 4); mkPoint 5 (ofZ 1); mkPoint 7 (ofZ 2)]
              daily mean) as (_ & _ & Hsrc & _).
  apply (Hsrc (mkPoint 86400000 (ofZ 4))).
  vm_compute. right. left. reflexivity.
Defined.

(** ** Checks of the embedding on known values *)

(** 2021-03-04T05:06:07.008Z, a Thursday, in a host on UTC. *)
Example period_starts_utc :
  map (getPeriodStart (fun _ _ => 0) 1614834367008)
      [hourly; daily; weekly; monthly; yearly]
  = [1614834000000;    (* 2021-03-04T05:00:00Z *)
     1614816000000;    (* 2021-03-04T00:00:00Z *)
     1614556800000;    (* 2021-03-01T00:00:00Z, a Monday *)
     1614556800000;    (* 2021-03-01T00:00:00Z *)
     1609459200000].   (* 2021-01-01T00:00:00Z *)
Proof. vm_compute. reflexivity. Qed.

(** The same instant in a host two hours east of UTC: the day starts at
    22:00 UTC of the day before. *)
Example period_starts_east :
  map (getPeriodStart (fun _ _ => 7200000) 1614834367008) [hourly; daily]
  = [1614834000000; 1614808800000].
Proof. vm_compute. reflexivity. Qed.

(** A Sunday belongs to the week of the Monday before it:
    2021-03-07T12:00:00Z. *)
Example week_of_a_sunday :
  getPeriodStart (fun _ _ => 0) 1615118400000 weekly = 1614556800000.
Proof. vm_compute. reflexivity. Qed.

(** [detectAnomalies([1, 1, 1, 1, 100], 1.5)] flags the index of 100 only. *)
Example anomalies_single_spike :
  detectAnomalies (map ofZ [1; 1; 1; 1; 100]) (lit 15 10) = [4%nat].
Proof. vm_compute. reflexivity. Qed.

(** The median of an even-sized bucket is the mean of the two middle
    values. *)
Example median_even :
  applyAggregationFunction (map ofZ [9; 1; 4; 2]) median = ofZ 3.
Proof. vm_compute. reflexivity. Qed.

(** 0.1 + 0.2 is 0.30000000000000004, not 0.3. *)
Example rounding_is_modelled :
  strict_eq (add (lit 1 10) (lit 2 10)) (lit 3 10) = false
  /\ add (lit 1 10) (lit 2 10) = lit 30000000000000004 100000000000000000.
Proof. vm_compute. split; reflexivity. Qed.

(** * Further properties *)

(** ** The recomputation, step by step *)

Lemma processedData_steps tz rawData st :
  processedData tz rawData st
  = match rawData with
    | [] => Ok (mkProcessed [] None None None [])
    | _ =>
        movingAverageData <-
          moving_average_step st (analysed_series tz rawData st) ;;
        trendData <- trend_step st (analysed_series tz rawData st) ;;
        Ok (mkProcessed (filtered_series rawData st) movingAverageData
                        trendData (aggregated_series tz rawData st)
                        (anomalies_step st (analysed_series tz rawData st)))
    end.
Proof. destruct rawData; reflexivity. Qed.

Lemma sma_throws_iff data windowSize :
  is_throw (calculateSimpleMovingAverage data windowSize) = true
  <-> window_out_of_range windowSize (length data).
Proof.
  unfold calculateSimpleMovingAverage, window_out_of_range.
  destruct (Z.leb_spec windowSize 0);
    destruct (Z.gtb_spec windowSize (Z.of_nat (length data)));
    simpl; split; intros; try discriminate; try reflexivity; lia.
Qed.

Lemma sma_ok_length data windowSize out :
  calculateSimpleMovingAverage data windowSize = Ok out ->
  length out = length data.
Proof.
  unfold calculateSimpleMovingAverage.
  destruct (_ || _); [discriminate|].
  intros [= <-].
  rewrite (fold_left_push (sma_at data windowSize)) by apply sma_step_push.
  simpl. now rewrite length_map, length_seq.
Qed.

Lemma ema_throws_iff data alpha :
  is_throw (calculateExponentialMovingAverage data alpha) = true
  <-> alpha_out_of_range alpha.
Proof.
  unfold alpha_out_of_range.
  destruct (le alpha zero) eqn:H0; destruct (gt alpha (ofZ 1)) eqn:H1;
    try (unfold calculateExponentialMovingAverage; rewrite H0, H1; simpl;
         split; auto; fail).
  rewrite ema_unfold by assumption. simpl.
  split; [discriminate | intros [H|H]; discriminate].
Qed.

Lemma ema_ok_length data alpha out :
  calculateExponentialMovingAverage data alpha = Ok out ->
  length out = length data.
Proof.
  intros Hok.
  destruct (le alpha zero) eqn:H0; destruct (gt alpha (ofZ 1)) eqn:H1;
    try (unfold calculateExponentialMovingAverage in Hok;
         rewrite H0, H1 in Hok; discriminate).
  rewrite ema_unfold in Hok by assumption.
  injection Hok as <-. destruct data; simpl; [reflexivity|].
  now rewrite length_ema_from.
Qed.

Lemma trend_step_ok st analysed :
  exists t, trend_step st analysed = Ok t
            /\ (t <> None
                <-> TrendLineSettings.enabled (trendLine st) = true
                    /\ (2 <= length analysed)%nat).
Proof.
  unfold trend_step.
  destruct (TrendLineSettings.enabled (trendLine st)); cbn [andb].
  - destruct (Nat.leb_spec 2 (length analysed)).
    + destruct (trend_never_throws
                  (map (fun d => ofZ (timestamp d)) analysed)
                  (map value analysed)) as (t & Ht).
      * now rewrite !length_map.
      * now rewrite length_map.
      * rewrite Ht. simpl. eexists. split; [reflexivity|].
        split; [auto | discriminate].
    + eexists. split; [reflexivity|].
      split; [congruence | intros (_ & ?); lia].
  - eexists. split; [reflexivity|].
    split; [congruence | intros (? & _); discriminate].
Qed.

Lemma moving_average_step_throws_iff st analysed :
  is_throw (moving_average_step st analysed) = true
  <-> MovingAverageSettings.visible (movingAverage st) = true
      /\ analysed <> []
      /\ ((MovingAverageSettings.type (movingAverage st) = sma
           /\ window_out_of_range
                (MovingAverageSettings.windowSize (movingAverage st))
                (length analysed))
          \/ (MovingAverageSettings.type (movingAverage st) = ema
              /\ alpha_out_of_range
                   (MovingAverageSettings.alpha (movingAverage st)))).
Proof.
  unfold moving_average_step.
  destruct (MovingAverageSettings.visible (movingAverage st));
    [|rewrite andb_false_r; simpl; split;
      [discriminate | intros (? & _); discriminate]].
  rewrite andb_true_r.
  destruct analysed as [|p analysed'] eqn:Ha;
    [rewrite andb_false_r; simpl; split;
     [discriminate | intros (_ & ? & _); contradiction]|].
  rewrite <- Ha. assert (Hne : analysed <> []) by (subst; discriminate).
  replace (0 <? length analysed)%nat with true
    by (subst; reflexivity).
  rewrite andb_true_r. clear Ha.
  destruct (MovingAverageSettings.type (movingAverage st)) eqn:Ht; simpl.
  - split; [discriminate|].
    intros (_ & _ & [(? & _)|(? & _)]); discriminate.
  - pose proof (sma_throws_iff (map value analysed)
                  (MovingAverageSettings.windowSize (movingAverage st))) as Hs.
    rewrite length_map in Hs.
    destruct (calculateSimpleMovingAverage _ _); simpl in *.
    + split; [discriminate|].
      intros (_ & _ & [(_ & Hw)|(? & _)]); [now apply Hs | discriminate].
    + split; auto. intros _. repeat split; auto. left. split; auto.
      now apply Hs.
  - pose proof (ema_throws_iff (map value analysed)
                  (MovingAverageSettings.alpha (movingAverage st))) as He.
    destruct (calculateExponentialMovingAverage _ _); simpl in *.
    + split; [discriminate|].
      intros (_ & _ & [(? & _)|(_ & Hw)]); [discriminate | now apply He].
    + split; auto. intros _. repeat split; auto. right. split; auto.
      now apply He.
Qed.

(** X1. The recomputation throws exactly when the raw series is not empty,
    the moving average is visible, the analysed series is not empty, and
    either the simple moving average is selected with a window that is not
    positive or exceeds the analysed series, or the exponential one with an
    [alpha] outside (0, 1].  Filters, aggregation, trend and anomaly detection
    never make it throw. *)
Theorem recomputation_throws_iff (LocalTZA : Z -> bool -> Z)
    (rawData : list DataPoint) (st : AnalysisState) :
  is_throw (processedData LocalTZA rawData st) = true
  <-> rawData <> []
      /\ MovingAverageSettings.visible (movingAverage st) = true
      /\ analysed_series LocalTZA rawData st <> []
      /\ ((MovingAverageSettings.type (movingAverage st) = sma
           /\ window_out_of_range
                (MovingAverageSettings.windowSize (movingAverage st))
                (length (analysed_series LocalTZA rawData st)))
          \/ (MovingAverageSettings.type (movingAverage st) = ema
              /\ alpha_out_of_range
                   (MovingAverageSettings.alpha (movingAverage st)))).
Proof.
  rewrite processedData_steps.
  destruct rawData as [|p rawData'] eqn:Hraw.
  - simpl. split; [discriminate | intros (? & _); contradiction].
  - rewrite <- Hraw.
    pose proof (moving_average_step_throws_iff st
                  (analysed_series LocalTZA rawData st)) as Hma.
    destruct (trend_step_ok st (analysed_series LocalTZA rawData st))
      as (t & Ht & _).
    rewrite Ht.
    destruct (moving_average_step st (analysed_series LocalTZA rawData st));
      simpl in *.
    + split; [discriminate|]. intros (_ & H). now apply Hma.
    + split; [|reflexivity]. intros _. split; [subst; discriminate|].
      now apply Hma.
Qed.

Lemma recomputation_throws_iff_witness :
  is_throw (processedData (fun _ _ => 0)
              [mkPoint 0 (ofZ 1); mkPoint 1 (ofZ 2)] smaSelected) = true.
Proof.
  apply recomputation_throws_iff.
  split; [discriminate|]. split; [reflexivity|]. split; [discriminate|].
  left. split; [reflexivity|]. right. vm_compute. reflexivity.
Defined.

Lemma recomputation_fields tz rawData st r :
  processedData tz rawData st = Ok r ->
  filteredData r = filtered_series rawData st
  /\ aggregatedData r = aggregated_series tz rawData st
  /\ dataPoints_of r = analysed_series tz rawData st
  /\ moving_average_step st (analysed_series tz rawData st)
     = Ok (movingAverageData r)
  /\ trend_step st (analysed_series tz rawData st) = Ok (trendData r)
  /\ anomalies r = anomalies_step st (analysed_series tz rawData st).
Proof.
  rewrite processedData_steps.
  destruct rawData as [|p rawData'] eqn:Hraw.
  - intros [= <-]. unfold analysed_series, aggregated_series, filtered_series,
      moving_average_step, trend_step, anomalies_step, dataPoints_of.
    cbn [filteredData aggregatedData movingAverageData trendData anomalies].
    destruct (is_some _ || is_some _), (is_some _ || is_some _);
      simpl; rewrite ?andb_false_r; simpl; repeat split; reflexivity.
  - rewrite <- Hraw.
    destruct (moving_average_step st (analysed_series tz rawData st));
      [|discriminate].
    destruct (trend_step st (analysed_series tz rawData st)); [|discriminate].
    simpl. intros [= <-]. unfold dataPoints_of, analysed_series. simpl.
    repeat split; reflexivity.
Qed.

Lemma Subsequence_trans {A} (l1 l2 l3 : list A) :
  Subsequence l1 l2 -> Subsequence l2 l3 -> Subsequence l1 l3.
Proof.
  intros H12 H23. revert l1 H12.
  induction H23 as [|a l2 l3 _ IH|a l2 l3 _ IH]; intros l1 H12.
  - exact H12.
  - inversion H12; subst; constructor; auto.
  - constructor. auto.
Qed.

Lemma Subsequence_refl {A} (l : list A) : Subsequence l l.
Proof. induction l; constructor; auto. Qed.

Lemma not_before_none t : not_before None t.
Proof. intros st H. discriminate. Qed.

Lemma not_after_none t : not_after None t.
Proof. intros en H. discriminate. Qed.

Lemma not_below_none v : not_below None v.
Proof. intros lo H. discriminate. Qed.

Lemma not_above_none v : not_above None v.
Proof. intros hi H. discriminate. Qed.

Lemma filterByDateRange_in data startDate endDate p :
  In p (filterByDateRange data startDate endDate)
  <-> In p data /\ not_before startDate (timestamp p)
      /\ not_after endDate (timestamp p).
Proof.
  unfold filterByDateRange. rewrite filter_In, date_in_range_spec.
  unfold not_before, not_after, getTime.
  destruct startDate, endDate; simpl; reflexivity.
Qed.

Lemma filterByValueRange_in data min max p :
  In p (filterByValueRange data min max)
  <-> In p data /\ not_below min (value p) /\ not_above max (value p).
Proof.
  unfold filterByValueRange. now rewrite filter_In, value_in_range_spec.
Qed.

(** X2. The filtered series of a recomputation is a subsequence of the raw
    series, and it holds exactly the raw points that pass the bounds that are
    set: the timestamp within the date bounds, the value neither below the
    minimum nor above the maximum. *)
Theorem recomputation_filtered (LocalTZA : Z -> bool -> Z)
    (rawData : list DataPoint) (st : AnalysisState) (r : ProcessedData) :
  processedData LocalTZA rawData st = Ok r ->
  Subsequence (filteredData r) rawData
  /\ forall p,
       In p (filteredData r)
       <-> In p rawData
           /\ not_before (DateRange.startDate (dateRange st)) (timestamp p)
           /\ not_after (DateRange.endDate (dateRange st)) (timestamp p)
           /\ not_below (ValueRange.min (valueRange st)) (value p)
           /\ not_above (ValueRange.max (valueRange st)) (value p).
Proof.
  intros Hok. apply recomputation_fields in Hok.
  destruct Hok as (-> & _). unfold filtered_series.
  set (dated :=
         if is_some (DateRange.startDate (dateRange st))
            || is_some (DateRange.endDate (dateRange st))
         then filterByDateRange rawData (DateRange.startDate (dateRange st))
                                (DateRange.endDate (dateRange st))
         else rawData).
  assert (Hd : Subsequence dated rawData
               /\ forall p, In p dated
                            <-> In p rawData
                                /\ not_before (DateRange.startDate (dateRange st))
                                              (timestamp p)
                                /\ not_after (DateRange.endDate (dateRange st))
                                             (timestamp p)).
  { subst dated.
    destruct (DateRange.startDate (dateRange st)) as [s|],
             (DateRange.endDate (dateRange st)) as [e|]; simpl;
      try (split; [apply filter_subsequence | apply filterByDateRange_in]).
    split; [apply Subsequence_refl|]. intros p.
    pose proof (not_before_none (timestamp p)).
    pose proof (not_after_none (timestamp p)). tauto. }
  destruct Hd as (Hsub & Hin).
  destruct (ValueRange.min (valueRange st)) as [lo|] eqn:Hmin,
           (ValueRange.max (valueRange st)) as [hi|] eqn:Hmax; simpl;
    try (split;
         [eapply Subsequence_trans; [apply filter_subsequence | exact Hsub]
         | intros p; rewrite filterByValueRange_in, Hin; tauto]).
  split; [exact Hsub|]. intros p. rewrite Hin.
  pose proof (not_below_none (value p)).
  pose proof (not_above_none (value p)). tauto.
Qed.

Lemma recomputation_filtered_witness :
  exists r,
    processedData (fun _ _ => 0)
      [mkPoint 0 (ofZ 1); mkPoint 1 (ofZ 9); mkPoint 2 (ofZ 3)]
      (mkState (DateRange.mk (Some 0) None)
               (ValueRange.mk None (Some (ofZ 5)) false)
               (movingAverage initialState) (trendLine initialState)
               (aggregation initialState) (anomaly initialState))
    = Ok r
    /\ Subsequence (filteredData r)
                   [mkPoint 0 (ofZ 1); mkPoint 1 (ofZ 9); mkPoint 2 (ofZ 3)].
Proof.
  destruct (processedData _ _ _) as [r|m] eqn:Hr;
    [|vm_compute in Hr; discriminate].
  exists r. split; [reflexivity|].
  exact (proj1 (recomputation_filtered _ _ _ _ Hr)).
Defined.

(** ** The size of the aggregated series *)

Lemma aggregate_length tz data period func :
  length (aggregateByTimePeriod tz data period func)
  = length (group_keys tz period data).
Proof.
  rewrite aggregate_unfold, length_map. apply array_sort_length.
Qed.

Lemma aggregation_size_bounds tz data period func :
  (length (aggregateByTimePeriod tz data period func) <= length data)%nat
  /\ (data <> [] -> aggregateByTimePeriod tz data period func <> []).
Proof.
  rewrite aggregate_length. split.
  - rewrite <- (length_map
                  (fun p => getPeriodStart tz (timestamp p) period) data).
    apply NoDup_incl_length; [apply group_keys_nodup|].
    intros k Hk. apply group_keys_in in Hk. destruct Hk as (p & Hp & ->).
    exact (in_map (fun q => getPeriodStart tz (timestamp q) period)
                  data p Hp).
  - intros Hne Hnil. apply (f_equal (@length _)) in Hnil.
    rewrite aggregate_length in Hnil.
    destruct data as [|p data']; [contradiction|].
    assert (Hin : In (getPeriodStart tz (timestamp p) period)
                     (group_keys tz period (p :: data')))
      by (apply group_keys_in; exists p; split; [now left | reflexivity]).
    destruct (group_keys tz period (p :: data')); [contradiction|].
    discriminate.
Qed.

(** ** The fields of a recomputation *)

Lemma moving_average_step_ok st analysed o :
  moving_average_step st analysed = Ok o ->
  (forall ma, o = Some ma -> length ma = length analysed)
  /\ (o <> None
      <-> MovingAverageSettings.type (movingAverage st) <> none
          /\ MovingAverageSettings.visible (movingAverage st) = true
          /\ analysed <> []).
Proof.
  unfold moving_average_step.
  destruct (MovingAverageSettings.type (movingAverage st)) eqn:Ht;
    destruct (MovingAverageSettings.visible (movingAverage st));
    destruct analysed as [|p analysed'];
    cbn [is_active andb Nat.ltb Nat.leb length];
    try (intros [= <-]; split; [discriminate|];
         split; [congruence | intros (H1 & H2 & H3); congruence]).
  - destruct (calculateSimpleMovingAverage _ _) as [out|] eqn:Hs;
      [|discriminate].
    cbn [bind]. intros [= <-].
    apply sma_ok_length in Hs. rewrite length_map in Hs.
    split; [now intros ma [= <-]|].
    split; [intros _; repeat split; discriminate | discriminate].
  - destruct (calculateExponentialMovingAverage _ _) as [out|] eqn:Hs;
      [|discriminate].
    cbn [bind]. intros [= <-].
    apply ema_ok_length in Hs. rewrite length_map in Hs.
    split; [now intros ma [= <-]|].
    split; [intros _; repeat split; discriminate | discriminate].
Qed.

(** X3. When the recomputation returns a moving average, it has one entry per
    point of the series it was computed on (the aggregated series if there is
    one, the filtered series otherwise); it returns one exactly when a type is
    selected, the average is visible and that series is not empty. *)
Theorem recomputation_moving_average (LocalTZA : Z -> bool -> Z)
    (rawData : list DataPoint) (st : AnalysisState) (r : ProcessedData) :
  processedData LocalTZA rawData st = Ok r ->
  (forall ma, movingAverageData r = Some ma ->
              length ma = length (dataPoints_of r))
  /\ (movingAverageData r <> None
      <-> MovingAverageSettings.type (movingAverage st) <> none
          /\ MovingAverageSettings.visible (movingAverage st) = true
          /\ dataPoints_of r <> []).
Proof.
  intros Hok. apply recomputation_fields in Hok.
  destruct Hok as (_ & _ & -> & Hma & _).
  now apply moving_average_step_ok.
Qed.

Lemma recomputation_moving_average_witness :
  exists r ma,
    processedData (fun _ _ => 0)
      [mkPoint 0 (ofZ 1); mkPoint 1 (ofZ 9); mkPoint 2 (ofZ 3)]
      (mkState (dateRange initialState) (valueRange initialState)
               (MovingAverageSettings.mk sma 2 (lit 3 10) true)
               (trendLine initialState) (aggregation initialState)
               (anomaly initialState))
    = Ok r
    /\ movingAverageData r = Some ma
    /\ length ma = length (dataPoints_of r).
Proof.
  destruct (processedData _ _ _) as [r|m] eqn:Hr;
    [|vm_compute in Hr; discriminate].
  destruct (movingAverageData r) as [ma|] eqn:Hma;
    [|vm_compute in Hr; injection Hr as <-; discriminate].
  exists r, ma. split; [reflexivity|]. split; [exact Hma|].
  exact (proj1 (recomputation_moving_average _ _ _ _ Hr) ma Hma).
Defined.

Lemma trend_step_value st analysed t :
  trend_step st analysed = Ok (Some t) ->
  calculateLinearTrend (map (fun d => ofZ (timestamp d)) analysed)
                       (map value analysed) = Ok t.
Proof.
  unfold trend_step.
  destruct (_ && _); [|discriminate].
  destruct (calculateLinearTrend _ _) as [t'|]; [|discriminate].
  now intros [= ->].
Qed.

(** X4. A recomputation that returns carries a trend exactly when the trend
    line is enabled and the analysed series has at least two points; the
    trend is then the fit of the values against the timestamps of that
    series. *)
Theorem recomputation_trend (LocalTZA : Z -> bool -> Z)
    (rawData : list DataPoint) (st : AnalysisState) (r : ProcessedData) :
  processedData LocalTZA rawData st = Ok r ->
  (trendData r <> None
   <-> TrendLineSettings.enabled (trendLine st) = true
       /\ (2 <= length (dataPoints_of r))%nat)
  /\ (forall t, trendData r = Some t ->
        calculateLinearTrend
          (map (fun d => ofZ (timestamp d)) (dataPoints_of r))
          (map value (dataPoints_of r)) = Ok t).
Proof.
  intros Hok. apply recomputation_fields in Hok.
  destruct Hok as (_ & _ & -> & _ & Htrend & _).
  destruct (trend_step_ok st (analysed_series LocalTZA rawData st))
    as (t & Ht & Hiff).
  rewrite Ht in Htrend. injection Htrend as ->.
  split; [exact Hiff|].
  intros t' Ht'. apply (trend_step_value st). now rewrite Ht, Ht'.
Qed.

Lemma recomputation_trend_witness :
  exists r,
    processedData (fun _ _ => 0) [mkPoint 0 (ofZ 1)]
      (mkState (dateRange initialState) (valueRange initialState)
               (movingAverage initialState) (TrendLineSettings.mk true None)
               (aggregation initialState) (anomaly initialState))
    = Ok r
    /\ ~ trendData r <> None.
Proof.
  destruct (processedData _ _ _) as [r|m] eqn:Hr;
    [|vm_compute in Hr; discriminate].
  exists r. split; [reflexivity|].
  intros Hsome.
  apply (proj1 (recomputation_trend _ _ _ _ Hr)) in Hsome.
  destruct Hsome as (_ & Hlen).
  vm_compute in Hr. injection Hr as <-. simpl in Hlen. lia.
Defined.

(** *** Anomalies *)

Lemma non_null_anomalies analysed mean stdDev indices :
  (forall i, In i indices -> (i < length analysed)%nat) ->
  map Anomaly.index
      (non_null (map (anomaly_of_index analysed mean stdDev) indices))
  = indices.
Proof.
  induction indices as [|i indices IH]; intros Hvalid; [reflexivity|].
  simpl. unfold anomaly_of_index at 1.
  destruct (nth_error analysed i) as [p|] eqn:Hp.
  - simpl. f_equal. apply IH. intros j Hj. apply Hvalid. now right.
  - apply nth_error_None in Hp. specialize (Hvalid i (or_introl eq_refl)). lia.
Qed.

Lemma non_null_anomalies_in analysed mean stdDev indices a :
  In a (non_null (map (anomaly_of_index analysed mean stdDev) indices)) ->
  In (Anomaly.index a) indices
  /\ exists p, nth_error analysed (Anomaly.index a) = Some p
               /\ Anomaly.timestamp a = timestamp p
               /\ Anomaly.value a = value p
               /\ Anomaly.zScore a = div (sub (value p) mean) stdDev.
Proof.
  induction indices as [|i indices IH]; simpl; [contradiction|].
  unfold anomaly_of_index at 1.
  destruct (nth_error analysed i) as [p|] eqn:Hp; simpl.
  - intros [<-|Hin]; simpl.
    + split; [now left|]. exists p. repeat split; auto.
    + destruct (IH Hin) as (H1 & H2). split; [now right | exact H2].
  - intros Hin. destruct (IH Hin) as (H1 & H2). split; [now right | exact H2].
Qed.

Lemma detectAnomalies_in data threshold i :
  In i (detectAnomalies data threshold) ->
  le threshold zero = false
  /\ exists v, nth_error data i = Some v
               /\ zScore_exceeds (mean_of data)
                    (Math_sqrt (variance_of data (mean_of data)))
                    threshold v = true.
Proof.
  destruct data as [|d data'] eqn:Hd; [contradiction|].
  destruct (le threshold zero) eqn:Ht.
  { rewrite detectAnomalies_empty by now right. contradiction. }
  rewrite detectAnomalies_unfold by (auto; discriminate).
  intros Hi. apply indices_where_spec in Hi.
  destruct Hi as (_ & v & Hv & Hz). rewrite Nat.sub_0_r in Hv.
  split; [reflexivity|]. now exists v.
Qed.

(** X5. The anomalies of a recomputation are the indices that
    [detectAnomalies] flags on the values of the analysed series, none
    dropped and in ascending order; each anomaly carries the timestamp and
    the value of the point at its index, and the magnitude of its z-score
    exceeds the threshold. *)
Theorem recomputation_anomalies (LocalTZA : Z -> bool -> Z)
    (rawData : list DataPoint) (st : AnalysisState) (r : ProcessedData) :
  processedData LocalTZA rawData st = Ok r ->
  map Anomaly.index (anomalies r)
  = (if AnomalySettings.enabled (anomaly st)
     then detectAnomalies (map value (dataPoints_of r))
                          (AnomalySettings.threshold (anomaly st))
     else [])
  /\ StronglySorted Nat.lt (map Anomaly.index (anomalies r))
  /\ forall a, In a (anomalies r) ->
       exists p,
         nth_error (dataPoints_of r) (Anomaly.index a) = Some p
         /\ Anomaly.timestamp a = timestamp p
         /\ Anomaly.value a = value p
         /\ gt (Math_abs (Anomaly.zScore a))
               (AnomalySettings.threshold (anomaly st)) = true.
Proof.
  intros Hok. apply recomputation_fields in Hok.
  destruct Hok as (_ & _ & -> & _ & _ & ->).
  set (analysed := analysed_series LocalTZA rawData st).
  unfold anomalies_step.
  destruct (AnomalySettings.enabled (anomaly st)); cbn [andb];
    [|split; [reflexivity | split; [constructor | contradiction]]].
  destruct (0 <? length analysed)%nat eqn:Hlen.
  - assert (Hvalid : forall i,
               In i (detectAnomalies (map value analysed)
                       (AnomalySettings.threshold (anomaly st))) ->
               (i < length analysed)%nat).
    { intros i Hi. apply detectAnomalies_in in Hi.
      destruct Hi as (_ & v & Hv & _).
      rewrite <- (length_map value). apply nth_error_Some. congruence. }
    assert (Hidx := non_null_anomalies analysed
                      (mean_of (map value analysed))
                      (Math_sqrt (variance_of (map value analysed)
                                              (mean_of (map value analysed))))
                      _ Hvalid).
    cbv zeta. split; [exact Hidx|]. split.
    + rewrite Hidx.
      destruct (map value analysed) as [|d l] eqn:Hm; [constructor|].
      rewrite <- Hm.
      destruct (le (AnomalySettings.threshold (anomaly st)) zero) eqn:Ht.
      * rewrite detectAnomalies_empty by now right. constructor.
      * rewrite detectAnomalies_unfold by (auto; rewrite Hm; discriminate).
        apply indices_where_sorted.
    + intros a Ha. apply non_null_anomalies_in in Ha.
      destruct Ha as (Hin & p & Hp & Hts & Hv & Hz).
      exists p. repeat split; auto.
      apply detectAnomalies_in in Hin. destruct Hin as (_ & v & Hnth & Hex).
      rewrite nth_error_map, Hp in Hnth. injection Hnth as <-.
      rewrite Hz. exact Hex.
  - apply Nat.ltb_ge in Hlen.
    assert (analysed = []) by (destruct analysed; [reflexivity | simpl in Hlen; lia]).
    rewrite H. split; [reflexivity | split; [constructor | contradiction]].
Qed.

Lemma recomputation_anomalies_witness :
  exists r,
    processedData (fun _ _ => 0)
      (map (fun i => mkPoint i (ofZ (if i =? 4 then 100 else 1))) [0; 1; 2; 3; 4])
      (mkState (dateRange initialState) (valueRange initialState)
               (movingAverage initialState) (trendLine initialState)
               (aggregation initialState)
               (AnomalySettings.mk true (lit 15 10) false))
    = Ok r
    /\ map Anomaly.index (anomalies r) = [4%nat].
Proof.
  destruct (processedData _ _ _) as [r|m] eqn:Hr;
    [|vm_compute in Hr; discriminate].
  exists r. split; [reflexivity|].
  rewrite (proj1 (recomputation_anomalies _ _ _ _ Hr)).
  vm_compute in Hr. injection Hr as <-. vm_compute. reflexivity.
Defined.

(** X6. A recomputation that returns carries an aggregated series exactly
    when aggregation is enabled and the filtered series is not empty; it is
    then the aggregation of the filtered series, with at least one and at most
    as many points. *)
Theorem recomputation_aggregated (LocalTZA : Z -> bool -> Z)
    (rawData : list DataPoint) (st : AnalysisState) (r : ProcessedData) :
  processedData LocalTZA rawData st = Ok r ->
  (aggregatedData r <> None
   <-> AggregationSettings.enabled (aggregation st) = true
       /\ filteredData r <> [])
  /\ (forall aggregated,
        aggregatedData r = Some aggregated ->
        aggregated
        = aggregateByTimePeriod LocalTZA (filteredData r)
            (AggregationSettings.period (aggregation st))
            (AggregationSettings.func (aggregation st))
        /\ (1 <= length aggregated <= length (filteredData r))%nat).
Proof.
  intros Hok. apply recomputation_fields in Hok.
  destruct Hok as (-> & -> & _).
  unfold aggregated_series.
  set (filtered := filtered_series rawData st).
  destruct (AggregationSettings.enabled (aggregation st)); cbn [andb];
    [|split; [split; [congruence | intros (? & _); discriminate]
             | discriminate]].
  destruct (Nat.ltb_spec 0 (length filtered)) as [Hlen|Hlen].
  - assert (Hne : filtered <> [])
      by (intros Hnil; rewrite Hnil in Hlen; simpl in Hlen; lia).
    split; [split; [auto | discriminate]|].
    intros aggregated [= <-]. split; [reflexivity|].
    destruct (aggregation_size_bounds LocalTZA filtered
                (AggregationSettings.period (aggregation st))
                (AggregationSettings.func (aggregation st))) as (Hle & Hnn).
    split; [|exact Hle].
    specialize (Hnn Hne).
    destruct (aggregateByTimePeriod _ _ _ _); [contradiction | simpl; lia].
  - assert (Hnil : filtered = [])
      by (destruct filtered; [reflexivity | simpl in Hlen; lia]).
    split; [split; [congruence | intros (_ & ?); contradiction]
           | discriminate].
Qed.

Lemma recomputation_aggregated_witness :
  exists r aggregated,
    processedData (fun _ _ => 0)
      [mkPoint 5 (ofZ 1); mkPoint 7 (ofZ 2); mkPoint 90000000 (ofZ 4)]
      (mkState (dateRange initialState) (valueRange initialState)
               (movingAverage initialState) (trendLine initialState)
               (AggregationSettings.mk true daily mean)
               (anomaly initialState))
    = Ok r
    /\ aggregatedData r = Some aggregated
    /\ (1 <= length aggregated <= length (filteredData r))%nat.
Proof.
  destruct (processedData _ _ _) as [r|m] eqn:Hr;
    [|vm_compute in Hr; discriminate].
  destruct (aggregatedData r) as [aggregated|] eqn:Hagg;
    [|vm_compute in Hr; injection Hr as <-; discriminate].
  exists r, aggregated. split; [reflexivity|]. split; [exact Hagg|].
  exact (proj2 (proj2 (recomputation_aggregated _ _ _ _ Hr) aggregated Hagg)).
Defined.

(** ** Filters, composed *)

Lemma filter_filter_comm {A} (f g : A -> bool) (l : list A) :
  filter f (filter g l) = filter g (filter f l).
Proof.
  induction l as [|a l IH]; [reflexivity|]. simpl.
  destruct (f a) eqn:Hf, (g a) eqn:Hg; simpl; rewrite ?Hf, ?Hg, IH; reflexivity.
Qed.

Lemma filter_filter_weaker {A} (f g : A -> bool) (l : list A) :
  (forall a, f a = true -> g a = true) ->
  filter f (filter g l) = filter f l.
Proof.
  intros Himp. induction l as [|a l IH]; [reflexivity|]. simpl.
  destruct (g a) eqn:Hg; simpl.
  - now rewrite IH.
  - destruct (f a) eqn:Hf; [|exact IH].
    apply Himp in Hf. congruence.
Qed.

Lemma lt_le_false v lo1 lo2 :
  le lo1 lo2 = true -> lt v lo2 = false -> lt v lo1 = false.
Proof.
  unfold le, lt, SFleb, SFltb, SFcompare.
  destruct v as [sv|sv| |sv mv ev], lo1 as [s1|s1| |s1 m1 e1],
           lo2 as [s2|s2| |s2 m2 e2]; try reflexivity; try discriminate;
    order_cases.
Qed.

Lemma gt_le_false v hi1 hi2 :
  le hi2 hi1 = true -> gt v hi2 = false -> gt v hi1 = false.
Proof.
  unfold le, gt, SFleb, SFltb, SFcompare.
  destruct v as [sv|sv| |sv mv ev], hi1 as [s1|s1| |s1 m1 e1],
           hi2 as [s2|s2| |s2 m2 e2]; try reflexivity; try discriminate;
    order_cases.
Qed.

(** X7. The two filters commute: filtering by value and then by date gives
    the same series as filtering by date and then by value. *)
Theorem filters_commute (data : list DataPoint)
    (startDate endDate : option Date) (min max : option number) :
  filterByDateRange (filterByValueRange data min max) startDate endDate
  = filterByValueRange (filterByDateRange data startDate endDate) min max.
Proof.
  unfold filterByDateRange, filterByValueRange. apply filter_filter_comm.
Qed.

(** X8. Filtering an already filtered series with bounds that are at least
    as tight gives what the tighter filter gives on the original series; in
    particular applying a filter twice changes nothing. *)
Theorem filters_narrow (data : list DataPoint) :
  (forall s1 e1 s2 e2,
     getTime s1 <= getTime s2 -> getTime e2 <= getTime e1 ->
     filterByDateRange (filterByDateRange data (Some s1) (Some e1))
                       (Some s2) (Some e2)
     = filterByDateRange data (Some s2) (Some e2))
  /\ (forall lo1 hi1 lo2 hi2,
        le lo1 lo2 = true -> le hi2 hi1 = true ->
        filterByValueRange (filterByValueRange data (Some lo1) (Some hi1))
                           (Some lo2) (Some hi2)
        = filterByValueRange data (Some lo2) (Some hi2))
  /\ (forall startDate endDate,
        filterByDateRange (filterByDateRange data startDate endDate)
                          startDate endDate
        = filterByDateRange data startDate endDate)
  /\ (forall min max,
        filterByValueRange (filterByValueRange data min max) min max
        = filterByValueRange data min max).
Proof.
  split; [|split; [|split]].
  - intros s1 e1 s2 e2 Hs He. unfold filterByDateRange.
    apply filter_filter_weaker. intros p.
    rewrite !date_in_range_spec. unfold not_before, not_after, getTime in *.
    simpl. intros (H1 & H2). specialize (H1 _ eq_refl). specialize (H2 _ eq_refl).
    split; intros ? [= <-]; lia.
  - intros lo1 hi1 lo2 hi2 Hlo Hhi. unfold filterByValueRange.
    apply filter_filter_weaker. intros p.
    rewrite !value_in_range_spec. unfold not_below, not_above.
    intros (H1 & H2). specialize (H1 _ eq_refl). specialize (H2 _ eq_refl).
    split; intros ? [= <-].
    + eapply lt_le_false; eauto.
    + eapply gt_le_false; eauto.
  - intros startDate endDate. unfold filterByDateRange.
    apply filter_filter_weaker. auto.
  - intros min max. unfold filterByValueRange.
    apply filter_filter_weaker. auto.
Qed.

Lemma filters_narrow_witness :
  filterByDateRange
    (filterByDateRange [mkPoint 1 (ofZ 1); mkPoint 5 (ofZ 2); mkPoint 9 (ofZ 3)]
                       (Some 0) (Some 10))
    (Some 4) (Some 9)
  = filterByDateRange [mkPoint 1 (ofZ 1); mkPoint 5 (ofZ 2); mkPoint 9 (ofZ 3)]
                      (Some 4) (Some 9)
  /\ filterByValueRange
       (filterByValueRange [mkPoint 1 (ofZ 1); mkPoint 5 NaN] (Some (ofZ 0))
                           (Some (ofZ 9)))
       (Some (ofZ 2)) (Some (ofZ 3))
     = filterByValueRange [mkPoint 1 (ofZ 1); mkPoint 5 NaN] (Some (ofZ 2))
                          (Some (ofZ 3)).
Proof.
  split.
  - apply (proj1 (filters_narrow _)); unfold getTime; lia.
  - apply (proj1 (proj2 (filters_narrow _))); vm_compute; reflexivity.
Defined.

(** ** Quartiles *)

Lemma calculateIQR_nonempty data :
  data <> [] ->
  calculateIQR data
  = let sorted := array_sort number_ascending data in
    let q1 := at_or_zero sorted (floor_of_length_times (length sorted) 0.25) in
    let q3 := at_or_zero sorted (floor_of_length_times (length sorted) 0.75) in
    let iqr := sub q3 q1 in
    let lowerBound := sub q1 (mul (lit 15 10) iqr) in
    let upperBound := add q3 (mul (lit 15 10) iqr) in
    mkIQR q1 q3 iqr lowerBound upperBound
          (indices_where (is_outlier lowerBound upperBound) data 0).
Proof. destruct data; [contradiction | reflexivity]. Qed.

Lemma quartile_positions data :
  data <> [] ->
  let sorted := array_sort number_ascending data in
  let i1 := floor_of_length_times (length sorted) 0.25 in
  let i3 := floor_of_length_times (length sorted) 0.75 in
  (i1 <= i3)%nat /\ (i3 < length sorted)%nat
  /\ nth_error sorted i1 = Some (q1 (calculateIQR data))
  /\ nth_error sorted i3 = Some (q3 (calculateIQR data)).
Proof.
  intros Hne sorted i1 i3.
  assert (Hn : (0 < length sorted)%nat).
  { subst sorted. rewrite array_sort_length.
    destruct data; [contradiction | simpl; lia]. }
  assert (H1 : i1 = (length sorted / 4)%nat) by apply floor_quarter.
  assert (H3 : i3 = (3 * length sorted / 4)%nat) by apply floor_three_quarters.
  assert (Hlt3 : (i3 < length sorted)%nat)
    by (rewrite H3; apply Nat.Div0.div_lt_upper_bound; lia).
  assert (Hle : (i1 <= i3)%nat)
    by (rewrite H1, H3; apply Nat.Div0.div_le_mono; lia).
  rewrite (calculateIQR_nonempty data Hne). cbn [q1 q3].
  repeat split; auto; apply at_or_zero_nth; fold sorted; fold i1; fold i3; lia.
Qed.

Lemma le_refl_number v : is_nan v = false -> le v v = true.
Proof.
  unfold le, SFleb, SFcompare.
  destruct v as [s|s| |s m e]; try discriminate; intros _; order_cases.
Qed.

Lemma StronglySorted_nth {A} (R : A -> A -> Prop) (l : list A) :
  StronglySorted R l ->
  forall i j a b,
    (i < j)%nat -> nth_error l i = Some a -> nth_error l j = Some b -> R a b.
Proof.
  induction 1 as [|x l Hs IH Hall]; intros i j a b Hij Ha Hb.
  - destruct i; discriminate.
  - destruct j as [|j]; [lia|]. simpl in Hb.
    destruct i as [|i]; simpl in Ha.
    + injection Ha as <-. rewrite Forall_forall in Hall.
      apply Hall. eapply nth_error_In; eauto.
    + apply (IH i j a b); [lia | exact Ha | exact Hb].
Qed.

Lemma le_cases a b :
  le a b = true -> lt a b = true \/ strict_eq b a = true.
Proof.
  unfold le, lt, strict_eq, SFleb, SFltb, SFeqb, SFcompare.
  destruct a as [sa|sa| |sa ma ea], b as [sb|sb| |sb mb eb];
    try discriminate; order_cases; auto.
Qed.

Lemma gt_not_lt a : gt a zero = true -> lt a zero = false.
Proof.
  unfold gt, lt, SFltb, SFcompare, zero.
  destruct a as [s|s| |s m e]; try discriminate; destruct s;
    try discriminate; reflexivity.
Qed.

(** X9. The quartiles of a non-empty array are values of the array (no
    interpolation).  When the array holds binary64 values other than NaN,
    the first quartile is at most the third and the interquartile range is
    not negative. *)
Theorem quartiles_are_data_values (data : list number) :
  data <> [] ->
  In (q1 (calculateIQR data)) data
  /\ In (q3 (calculateIQR data)) data
  /\ (Forall is_number data ->
      le (q1 (calculateIQR data)) (q3 (calculateIQR data)) = true
      /\ lt (iqr (calculateIQR data)) zero = false).
Proof.
  intros Hne.
  destruct (quartile_positions data Hne) as (Hle & Hlt & H1 & H3).
  set (sorted := array_sort number_ascending data) in *.
  assert (Hperm : Permutation sorted data) by apply array_sort_perm.
  assert (Hin1 : In (q1 (calculateIQR data)) sorted)
    by (eapply nth_error_In; eauto).
  assert (Hin3 : In (q3 (calculateIQR data)) sorted)
    by (eapply nth_error_In; eauto).
  split; [eapply Permutation_in; eauto|].
  split; [eapply Permutation_in; eauto|].
  intros Hnum.
  assert (Hle13 : le (q1 (calculateIQR data)) (q3 (calculateIQR data)) = true).
  { destruct (Nat.eq_dec (floor_of_length_times (length sorted) 0.25)
                         (floor_of_length_times (length sorted) 0.75))
      as [Heq|Hneq].
    - rewrite Heq in H1. rewrite H1 in H3. injection H3 as <-.
      apply le_refl_number.
      rewrite Forall_forall in Hnum.
      apply (Hnum (q1 (calculateIQR data))).
      eapply Permutation_in; eauto.
    - apply (StronglySorted_nth (fun a b => le a b = true) sorted
               (array_sort_ascending data Hnum)
               (floor_of_length_times (length sorted) 0.25)
               (floor_of_length_times (length sorted) 0.75));
        [cbv zeta in Hle; lia | exact H1 | exact H3]. }
  split; [exact Hle13|].
  rewrite (calculateIQR_nonempty data Hne). cbn [iqr].
  fold sorted.
  replace (at_or_zero sorted (floor_of_length_times (length sorted) 0.75))
    with (q3 (calculateIQR data))
    by (rewrite (calculateIQR_nonempty data Hne); reflexivity).
  replace (at_or_zero sorted (floor_of_length_times (length sorted) 0.25))
    with (q1 (calculateIQR data))
    by (rewrite (calculateIQR_nonempty data Hne); reflexivity).
  rewrite Forall_forall in Hnum.
  assert (Hn1 : is_number (q1 (calculateIQR data)))
    by (apply Hnum; eapply Permutation_in; eauto).
  assert (Hn3 : is_number (q3 (calculateIQR data)))
    by (apply Hnum; eapply Permutation_in; eauto).
  destruct (le_cases _ _ Hle13) as [Hlt13|Heq].
  - apply gt_not_lt. apply sub_positive; [apply Hn3 | apply Hn1 | exact Hlt13].
  - destruct (sub_strict_eq _ _ Heq) as [Hz|Hnan].
    + destruct (sub _ _); try discriminate. reflexivity.
    + rewrite Hnan. reflexivity.
Qed.

Lemma quartiles_are_data_values_witness :
  In (q1 (calculateIQR (map ofZ [7; 2; 9; 4]))) (map ofZ [7; 2; 9; 4])
  /\ le (q1 (calculateIQR (map ofZ [7; 2; 9; 4])))
        (q3 (calculateIQR (map ofZ [7; 2; 9; 4]))) = true.
Proof.
  destruct (quartiles_are_data_values (map ofZ [7; 2; 9; 4]))
    as (H1 & _ & Hord); [discriminate|].
  split; [exact H1|]. apply Hord. repeat constructor.
Defined.

Lemma lit_15_10 : lit 15 10 = S754_finite false 6755399441055744 (-52).
Proof. vm_compute. reflexivity. Qed.

Lemma lt_irrefl_number v : lt v v = false.
Proof.
  unfold lt, SFltb, SFcompare.
  destruct v as [s|s| |s m e]; try reflexivity; order_cases.
Qed.

(** Around a single repeated value the envelope closes on the value
    itself (or is NaN for an infinite one): the value is not outside. *)
Lemma constant_envelope v :
  is_outlier (sub v (mul (lit 15 10) (sub v v)))
             (add v (mul (lit 15 10) (sub v v))) v = false.
Proof.
  unfold is_outlier. rewrite lit_15_10.
  destruct v as [s|s| |s m e].
  - destruct s; reflexivity.
  - destruct s; reflexivity.
  - reflexivity.
  - assert (Hself : sub (S754_finite s m e) (S754_finite s m e)
                    = S754_zero false)
      by (unfold sub, SFsub; now rewrite Z.sub_diag).
    rewrite Hself.
    change (mul (S754_finite false 6755399441055744 (-52)) (S754_zero false))
      with (S754_zero false).
    change (sub (S754_finite s m e) (S754_zero false)) with (S754_finite s m e).
    change (add (S754_finite s m e) (S754_zero false)) with (S754_finite s m e).
    pose proof (lt_irrefl_number (S754_finite s m e)) as Hirr.
    unfold lt in Hirr. unfold gt, lt. now rewrite Hirr.
Qed.

Lemma nth_error_constant {A} (l : list A) (v : A) i :
  (forall w, In w l -> w = v) -> (i < length l)%nat ->
  nth_error l i = Some v.
Proof.
  intros Hall Hi. destruct (nth_error l i) as [w|] eqn:Hw.
  - f_equal. apply Hall. eapply nth_error_In; eauto.
  - apply nth_error_None in Hw. lia.
Qed.

(** X10. An array that repeats one value has no outliers, whatever the
    value: both quartiles are that value and no index is reported. *)
Theorem constant_data_has_no_outliers (data : list number) (v : number) :
  data <> [] -> (forall w, In w data -> w = v) ->
  q1 (calculateIQR data) = v
  /\ q3 (calculateIQR data) = v
  /\ outlierIndices (calculateIQR data) = [].
Proof.
  intros Hne Hall.
  destruct (quartile_positions data Hne) as (Hle & Hlt & H1 & H3).
  set (sorted := array_sort number_ascending data) in *.
  assert (Hsorted : forall w, In w sorted -> w = v).
  { intros w Hw. apply Hall. eapply Permutation_in; [|exact Hw].
    apply array_sort_perm. }
  cbv zeta in Hle, Hlt, H1, H3.
  rewrite (nth_error_constant sorted v _ Hsorted) in H1 by lia.
  rewrite (nth_error_constant sorted v _ Hsorted) in H3 by lia.
  injection H1 as H1. injection H3 as H3.
  split; [auto|]. split; [auto|].
  pose proof (calculateIQR_nonempty data Hne) as Hu. cbv zeta in Hu.
  fold sorted in Hu.
  assert (Hq1 : at_or_zero sorted (floor_of_length_times (length sorted) 0.25) = v)
    by (rewrite Hu in H1; symmetry; exact H1).
  assert (Hq3 : at_or_zero sorted (floor_of_length_times (length sorted) 0.75) = v)
    by (rewrite Hu in H3; symmetry; exact H3).
  rewrite Hu. cbn [outlierIndices]. rewrite Hq1, Hq3.
  apply indices_where_none. intros w Hw.
  rewrite (Hall w Hw). apply constant_envelope.
Qed.

Lemma constant_data_has_no_outliers_witness :
  outlierIndices (calculateIQR [Infinity; Infinity; Infinity]) = [].
Proof.
  apply (constant_data_has_no_outliers [Infinity; Infinity; Infinity] Infinity).
  - discriminate.
  - intros w [<-|[<-|[<-|[]]]]; reflexivity.
Defined.

(** ** The value-range control and the filter *)









(** ** Anomaly detection: thresholds and missing samples *)

Lemma exceeds_lower_threshold z t1 t2 :
  le t1 t2 = true -> gt z t2 = true -> gt z t1 = true.
Proof.
  unfold le, gt, SFleb, SFltb, SFcompare.
  destruct z as [sz|sz| |sz mz ez], t1 as [s1|s1| |s1 m1 e1],
           t2 as [s2|s2| |s2 m2 e2]; try reflexivity; try discriminate;
    order_cases.
Qed.

Lemma indices_where_incl test1 test2 data :
  (forall v, test2 v = true -> test1 v = true) ->
  forall k i, In i (indices_where test2 data k) ->
              In i (indices_where test1 data k).
Proof.
  intros Himp k i. rewrite !indices_where_spec.
  intros (Hk & v & Hv & Ht). split; [exact Hk|]. exists v. auto.
Qed.

(** X12. Raising the threshold never adds anomalies: every index flagged at
    a threshold is flagged at every smaller positive threshold. *)
Theorem anomalies_shrink_with_threshold (data : list number)
    (t1 t2 : number) :
  le t1 zero = false -> le t1 t2 = true ->
  forall i, In i (detectAnomalies data t2) -> In i (detectAnomalies data t1).
Proof.
  intros Hpos Hle i Hi.
  destruct data as [|d data'] eqn:Hd; [contradiction|]. rewrite <- Hd in *.
  assert (Hne : data <> []) by (rewrite Hd; discriminate).
  destruct (le t2 zero) eqn:Ht2.
  { rewrite detectAnomalies_empty in Hi by now right. contradiction. }
  rewrite detectAnomalies_unfold in * by assumption.
  eapply indices_where_incl; [|exact Hi].
  intros v. unfold zScore_exceeds. now apply exceeds_lower_threshold.
Qed.

Lemma anomalies_shrink_with_threshold_witness :
  In 4%nat (detectAnomalies (map ofZ [1; 1; 1; 1; 100]) (lit 15 10)).
Proof.
  apply (anomalies_shrink_with_threshold _ (lit 15 10) (lit 19 10));
    vm_compute; auto.
Defined.

Lemma sum_nonfinite l :
  (exists v, In v l /\ is_finite v = false) ->
  forall a, is_finite (fold_left add l a) = false.
Proof.
  induction l as [|w l IH]; intros (v & Hin & Hv) a; [contradiction|].
  simpl. destruct Hin as [->|Hin].
  - apply fold_add_nonfinite. now apply add_nonfinite_r.
  - apply IH. now exists v.
Qed.

Lemma div_nonfinite_l a b : is_finite a = false -> is_finite (div a b) = false.
Proof.
  destruct a as [s|s| |s m e]; try discriminate; intros _;
    destruct b as [sb|sb| |sb mb eb]; reflexivity.
Qed.

Lemma sqrt_nonfinite a : is_finite a = false -> is_finite (Math_sqrt a) = false.
Proof.
  destruct a as [s|s| |s m e]; try discriminate; intros _;
    try destruct s; reflexivity.
Qed.

Lemma div_nonfinite_both a b :
  is_finite a = false -> is_finite b = false -> div a b = NaN.
Proof.
  destruct a as [s|s| |s m e]; try discriminate; intros _;
    destruct b as [sb|sb| |sb mb eb]; try discriminate; reflexivity.
Qed.

Lemma fold_add_nonfinite_step {A} (f : A -> number) (l : list A) :
  forall a, is_finite a = false ->
            is_finite (fold_left (fun sum val => add sum (f val)) l a) = false.
Proof.
  induction l as [|v l IH]; intros a Ha; simpl; [exact Ha|].
  apply IH. now apply add_nonfinite_l.
Qed.

Lemma variance_nonfinite data mean :
  data <> [] -> is_finite mean = false ->
  is_finite (variance_of data mean) = false.
Proof.
  intros Hne Hm. unfold variance_of. apply div_nonfinite_l.
  destruct data as [|d data']; [contradiction|]. simpl.
  apply fold_add_nonfinite_step.
  apply add_nonfinite_r, sq_nonfinite, sub_nonfinite_r, Hm.
Qed.

(** X13. One missing sample silences the detector: when the array holds a
    NaN or an infinite value, the mean is not finite, every z-score is NaN
    and no index is flagged, at any threshold. *)
Theorem anomalies_none_with_missing_sample (data : list number)
    (threshold : number) :
  (exists v, In v data /\ is_finite v = false) ->
  detectAnomalies data threshold = [].
Proof.
  intros Hex.
  destruct data as [|d data'] eqn:Hd; [reflexivity|]. rewrite <- Hd in *.
  assert (Hne : data <> []) by (rewrite Hd; discriminate).
  destruct (le threshold zero) eqn:Ht.
  { apply detectAnomalies_empty. now right. }
  rewrite detectAnomalies_unfold by assumption.
  apply indices_where_none. intros v _.
  assert (Hmean : is_finite (mean_of data) = false)
    by (unfold mean_of, Num.sum; apply div_nonfinite_l, sum_nonfinite, Hex).
  unfold zScore_exceeds.
  rewrite div_nonfinite_both; [destruct threshold; reflexivity | |].
  - now apply sub_nonfinite_r.
  - now apply sqrt_nonfinite, variance_nonfinite.
Qed.

Lemma anomalies_none_with_missing_sample_witness :
  detectAnomalies [ofZ 1; ofZ 1; NaN; ofZ 1000] (ofZ 2) = [].
Proof.
  apply anomalies_none_with_missing_sample.
  exists NaN. split; [simpl; auto | reflexivity].
Defined.

(** ** Moving averages and missing samples *)

Lemma add_nan_r a : add a NaN = NaN.
Proof. destruct a; reflexivity. Qed.

Lemma mul_nan_r a : mul a NaN = NaN.
Proof. destruct a; reflexivity. Qed.

Lemma fold_add_nan l : fold_left add l NaN = NaN.
Proof. induction l as [|v l IH]; simpl; [reflexivity | exact IH]. Qed.

Lemma sum_nan l : forall a, In NaN l -> fold_left add l a = NaN.
Proof.
  induction l as [|v l IH]; intros a Hin; [contradiction|]. simpl.
  destruct Hin as [->|Hin].
  - rewrite add_nan_r. apply fold_add_nan.
  - now apply IH.
Qed.

Lemma ema_from_after_nan alpha rest :
  forall j, (j < length rest)%nat ->
            nth_error (ema_from alpha NaN rest) j = Some NaN.
Proof.
  induction rest as [|v rest IH]; intros j Hj; simpl in *; [lia|].
  rewrite mul_nan_r, add_nan_r.
  destruct j as [|j]; [reflexivity|]. apply IH. lia.
Qed.

Lemma ema_from_from_nan alpha rest :
  forall prev k j,
    nth_error rest k = Some NaN -> (k <= j < length rest)%nat ->
    nth_error (ema_from alpha prev rest) j = Some NaN.
Proof.
  induction rest as [|v rest IH]; intros prev k j Hk Hj; simpl in *; [lia|].
  destruct k as [|k]; simpl in Hk.
  - injection Hk as ->. rewrite mul_nan_r.
    change (add NaN (mul (sub (ofZ 1) alpha) prev)) with NaN.
    destruct j as [|j]; [reflexivity|]. apply ema_from_after_nan. lia.
  - destruct j as [|j]; [lia|]. simpl. apply (IH _ k); [exact Hk | lia].
Qed.

(** X14. A missing sample poisons the rest of an exponential moving
    average: from the index of a NaN input on, every output is NaN. *)
Theorem ema_after_missing_sample (data : list number) (alpha : number)
    (k : nat) :
  le alpha zero = false -> gt alpha (ofZ 1) = false ->
  nth_error data k = Some NaN ->
  exists out,
    calculateExponentialMovingAverage data alpha = Ok out
    /\ forall j, (k <= j < length data)%nat -> nth_error out j = Some NaN.
Proof.
  intros H0 H1 Hk. rewrite ema_unfold by assumption.
  destruct data as [|first rest]; [destruct k; discriminate|].
  eexists. split; [reflexivity|]. intros j Hj. simpl in Hj.
  destruct k as [|k]; simpl in Hk.
  - injection Hk as ->. destruct j as [|j]; [reflexivity|].
    simpl. apply ema_from_after_nan. lia.
  - destruct j as [|j]; [lia|]. simpl.
    apply (ema_from_from_nan alpha rest first k); [exact Hk | lia].
Qed.

Lemma ema_after_missing_sample_witness :
  exists out,
    calculateExponentialMovingAverage [ofZ 1; NaN; ofZ 3; ofZ 4] (lit 3 10)
    = Ok out
    /\ nth_error out 3 = Some NaN.
Proof.
  destruct (ema_after_missing_sample [ofZ 1; NaN; ofZ 3; ofZ 4] (lit 3 10) 1)
    as (out & Hout & Hnan); try (vm_compute; reflexivity).
  exists out. split; [exact Hout|]. apply Hnan. simpl. lia.
Defined.

Lemma sma_at_nan data windowSize i k :
  0 < windowSize -> (i < length data)%nat ->
  nth_error data k = Some NaN ->
  (k <= i)%nat -> Z.of_nat i - windowSize < Z.of_nat k ->
  sma_at data windowSize i = NaN.
Proof.
  intros Hw Hi Hk Hle Hin. unfold sma_at.
  destruct (Z.ltb_spec (Z.of_nat i) (windowSize - 1)).
  - rewrite slice_prefix by exact Hi.
    unfold Num.sum. rewrite sum_nan; [reflexivity|].
    apply (nth_error_In _ k). rewrite nth_error_firstn.
    destruct (Nat.ltb_spec k (S i)); [exact Hk | lia].
  - rewrite slice_window by (auto; lia).
    unfold Num.sum. rewrite sum_nan; [reflexivity|].
    apply (nth_error_In _ (k - (S i - Z.to_nat windowSize))).
    rewrite nth_error_firstn, nth_error_skipn.
    destruct (Nat.ltb_spec (k - (S i - Z.to_nat windowSize))
                           (Z.to_nat windowSize)); [|lia].
    replace (S i - Z.to_nat windowSize + (k - (S i - Z.to_nat windowSize)))%nat
      with k by lia.
    exact Hk.
Qed.

(** X15. A missing sample makes the simple moving average NaN while it is
    in the window: the output at index [i] is NaN whenever a NaN input lies
    among the last [window] positions up to [i]. *)
Theorem sma_with_missing_sample (data : list number) (windowSize : Z)
    (k : nat) :
  0 < windowSize <= Z.of_nat (length data) ->
  nth_error data k = Some NaN ->
  exists out,
    calculateSimpleMovingAverage data windowSize = Ok out
    /\ forall i, (k <= i < length data)%nat ->
                 Z.of_nat i < Z.of_nat k + windowSize ->
                 nth_error out i = Some NaN.
Proof.
  intros (Hpos & Hle) Hk.
  exists (map (sma_at data windowSize) (seq 0 (length data))). split.
  - unfold calculateSimpleMovingAverage.
    destruct (Z.leb_spec windowSize 0); [lia|].
    destruct (Z.gtb_spec windowSize (Z.of_nat (length data))); [lia|].
    simpl. f_equal. apply (fold_left_push (sma_at data windowSize)).
    apply sma_step_push.
  - intros i (Hki & Hi) Hwin.
    rewrite nth_error_map_seq by exact Hi. f_equal.
    apply (sma_at_nan data windowSize i k); auto; lia.
Qed.

Lemma sma_with_missing_sample_witness :
  exists out,
    calculateSimpleMovingAverage [ofZ 1; NaN; ofZ 3; ofZ 4; ofZ 5] 2 = Ok out
    /\ nth_error out 2 = Some NaN.
Proof.
  destruct (sma_with_missing_sample [ofZ 1; NaN; ofZ 3; ofZ 4; ofZ 5] 2 1)
    as (out & Hout & Hnan); [simpl; lia | reflexivity |].
  exists out. split; [exact Hout|]. apply Hnan; simpl; lia.
Defined.

(** ** Aggregation: what a bucket holds *)

Lemma list_sum_map_add {A} (f g : A -> nat) (l : list A) :
  list_sum (map (fun a => f a + g a)%nat l)
  = (list_sum (map f l) + list_sum (map g l))%nat.
Proof.
  induction l as [|a l IH]; simpl; [reflexivity|]. rewrite IH. lia.
Qed.

Lemma list_sum_indicator_absent (k0 : Z) (ks : list Z) :
  ~ In k0 ks ->
  list_sum (map (fun k => if k0 =? k then 1%nat else 0%nat) ks) = 0%nat.
Proof.
  induction ks as [|k ks IH]; intros Hnot; [reflexivity|]. simpl.
  destruct (Z.eqb_spec k0 k) as [->|_]; [exfalso; apply Hnot; now left|].
  apply IH. intros H. apply Hnot. now right.
Qed.

Lemma list_sum_indicator (k0 : Z) (ks : list Z) :
  NoDup ks -> In k0 ks ->
  list_sum (map (fun k => if k0 =? k then 1%nat else 0%nat) ks) = 1%nat.
Proof.
  induction ks as [|k ks IH]; intros Hnd Hin; [contradiction|].
  inversion Hnd as [|? ? Hnot Hrest]; subst. simpl.
  destruct (Z.eqb_spec k0 k) as [->|Hne].
  - now rewrite list_sum_indicator_absent.
  - destruct Hin as [->|Hin]; [contradiction|]. now apply IH.
Qed.

Lemma buckets_partition (key_of : DataPoint -> Z) (data : list DataPoint) :
  forall ks,
    NoDup ks -> (forall p, In p data -> In (key_of p) ks) ->
    list_sum (map (fun k => length (filter (fun p => key_of p =? k) data)) ks)
    = length data.
Proof.
  induction data as [|p data IH]; intros ks Hnd Hcov.
  - clear Hnd Hcov. induction ks as [|k ks IH]; simpl; auto.
  - rewrite (map_ext _ (fun k : Z =>
                          Nat.add (if key_of p =? k then 1%nat else 0%nat)
                                  (length (filter (fun q => key_of q =? k)
                                                  data)))).
    2:{ intros k. simpl. destruct (key_of p =? k); reflexivity. }
    rewrite list_sum_map_add, list_sum_indicator, IH; auto.
    + intros q Hq. apply Hcov. now right.
    + apply Hcov. now left.
Qed.

(** X16. Each output point of [aggregateByTimePeriod] carries the reducer of
    the values of exactly those input points whose timestamp falls in its
    period, taken in input order; every bucket holds at least one point, the
    buckets together hold every input point once, and so there are at most
    as many output points as input points. *)
Theorem aggregation_buckets (LocalTZA : Z -> bool -> Z)
    (data : list DataPoint) (period : AggregationPeriod)
    (func : AggregationFunction) :
  let out := aggregateByTimePeriod LocalTZA data period func in
  (forall q, In q out ->
     bucket LocalTZA period (timestamp q) data <> []
     /\ value q
        = applyAggregationFunction
            (bucket LocalTZA period (timestamp q) data) func)
  /\ list_sum (map (fun q => length (bucket LocalTZA period (timestamp q) data))
                   out)
     = length data
  /\ (length out <= length data)%nat
  /\ (data <> [] -> out <> []).
Proof.
  cbv zeta.
  assert (Hperm : Permutation
                    (array_sort Z_ascending (group_keys LocalTZA period data))
                    (group_keys LocalTZA period data))
    by apply array_sort_perm.
  split; [|split; [|apply aggregation_size_bounds]].
  - intros q Hq. rewrite aggregate_unfold in Hq.
    apply in_map_iff in Hq. destruct Hq as (k & <- & Hk).
    unfold bucket_point. cbn [timestamp value]. split; [|reflexivity].
    apply (Permutation_in _ Hperm), group_keys_in in Hk.
    destruct Hk as (p & Hp & ->). unfold bucket.
    intros Hnil. apply map_eq_nil in Hnil.
    assert (Hin : In p (filter
                          (fun p0 => getPeriodStart LocalTZA (timestamp p0) period
                                     =? getPeriodStart LocalTZA (timestamp p) period)
                          data))
      by (apply filter_In; split; [exact Hp | apply Z.eqb_refl]).
    rewrite Hnil in Hin. contradiction.
  - rewrite aggregate_unfold, map_map. unfold bucket_point, bucket.
    cbn [timestamp].
    rewrite (map_ext _ (fun k => length
                                   (filter (fun p => getPeriodStart LocalTZA
                                                       (timestamp p) period =? k)
                                           data)))
      by (intros k; apply length_map).
    apply (buckets_partition
             (fun p => getPeriodStart LocalTZA (timestamp p) period)).
    + eapply Permutation_NoDup; [symmetry; exact Hperm|].
      apply group_keys_nodup.
    + intros p Hp. apply (Permutation_in _ (Permutation_sym Hperm)).
      apply group_keys_in. now exists p.
Qed.

Lemma aggregation_buckets_witness :
  aggregateByTimePeriod (fun _ _ => 0)
    [mkPoint 5 (ofZ 1); mkPoint 90000000 (ofZ 4); mkPoint 7 (ofZ 2)] daily sum
  <> [].
Proof.
  apply (proj2 (proj2 (proj2
           (aggregation_buckets (fun _ _ => 0)
              [mkPoint 5 (ofZ 1); mkPoint 90000000 (ofZ 4); mkPoint 7 (ofZ 2)]
              daily sum)))).
  discriminate.
Defined.

Lemma nodup_singleton (l : list Z) (k : Z) :
  NoDup l -> l <> [] -> (forall x, In x l -> x = k) -> l = [k].
Proof.
  intros Hnd Hne Hall.
  destruct l as [|a l]; [contradiction|].
  rewrite (Hall a (or_introl eq_refl)) in *.
  destruct l as [|b l]; [reflexivity|].
  inversion Hnd as [|? ? Hnot _]; subst.
  exfalso. apply Hnot. left. apply Hall. right. now left.
Qed.

Lemma filter_all {A} (f : A -> bool) (l : list A) :
  (forall a, In a l -> f a = true) -> filter f l = l.
Proof.
  induction l as [|a l IH]; intros H; simpl; [reflexivity|].
  rewrite (H a) by now left. f_equal. apply IH. intros b Hb. apply H. now right.
Qed.

(** X17. When all points of a non-empty series fall in one period, the
    aggregation is the single point at the start of that period whose value
    is the reducer of all values in input order. *)
Theorem aggregation_single_bucket (LocalTZA : Z -> bool -> Z)
    (data : list DataPoint) (period : AggregationPeriod)
    (func : AggregationFunction) (k : Z) :
  data <> [] ->
  (forall p, In p data -> getPeriodStart LocalTZA (timestamp p) period = k) ->
  aggregateByTimePeriod LocalTZA data period func
  = [mkPoint k (applyAggregationFunction (map value data) func)].
Proof.
  intros Hne Hall. rewrite aggregate_unfold.
  assert (Hkeys : group_keys LocalTZA period data = [k]).
  { apply nodup_singleton; [apply group_keys_nodup | |].
    - destruct data as [|p data']; [contradiction|].
      intros Hnil.
      assert (Hin : In (getPeriodStart LocalTZA (timestamp p) period)
                       (group_keys LocalTZA period (p :: data')))
        by (apply group_keys_in; exists p; split; [now left | reflexivity]).
      rewrite Hnil in Hin. contradiction.
    - intros x Hx. apply group_keys_in in Hx.
      destruct Hx as (p & Hp & ->). now apply Hall. }
  rewrite Hkeys. simpl. unfold bucket_point, bucket.
  rewrite filter_all; [reflexivity|].
  intros p Hp. rewrite (Hall p Hp). apply Z.eqb_refl.
Qed.

Lemma aggregation_single_bucket_witness :
  aggregateByTimePeriod (fun _ _ => 0)
    [mkPoint 5 (ofZ 1); mkPoint 9 (ofZ 4); mkPoint 7 (ofZ 2)] daily median
  = [mkPoint 0 (applyAggregationFunction [ofZ 1; ofZ 4; ofZ 2] median)].
Proof.
  apply (aggregation_single_bucket (fun _ _ => 0)
           [mkPoint 5 (ofZ 1); mkPoint 9 (ofZ 4); mkPoint 7 (ofZ 2)]
           daily median 0).
  - discriminate.
  - intros p [<-|[<-|[<-|[]]]]; reflexivity.
Defined.

(** ** The reducers [min] and [max] *)

Lemma min2_from_infinity b : min2 (S754_infinity false) b = b.
Proof. destruct b as [s|s| |s m e]; try destruct s; reflexivity. Qed.

Lemma max2_from_infinity b : max2 (S754_infinity true) b = b.
Proof. destruct b as [s|s| |s m e]; try destruct s; reflexivity. Qed.

Lemma min2_choice a b : min2 a b = a \/ min2 a b = b.
Proof.
  unfold min2.
  destruct a as [sa|sa| |sa ma ea], b as [sb|sb| |sb mb eb]; auto;
    try (destruct (SFltb _ _); auto);
    destruct sa, sb; auto.
Qed.

Lemma max2_choice a b : max2 a b = a \/ max2 a b = b.
Proof.
  unfold max2.
  destruct a as [sa|sa| |sa ma ea], b as [sb|sb| |sb mb eb]; auto;
    try (destruct (SFltb _ _); auto);
    destruct sa, sb; auto.
Qed.

Lemma fold_choice_in (op : number -> number -> number) :
  (forall a b, op a b = a \/ op a b = b) ->
  forall l a, In (fold_left op l a) (a :: l).
Proof.
  intros Hop. induction l as [|v l IH]; intros a; simpl; [now left|].
  destruct (IH (op a v)) as [H|H]; [|right; now right].
  rewrite <- H. destruct (Hop a v) as [-> | ->]; [now left | right; now left].
Qed.

Lemma min2_lower a b :
  is_nan a = false -> is_nan b = false ->
  is_nan (min2 a b) = false
  /\ le (min2 a b) a = true /\ le (min2 a b) b = true.
Proof.
  unfold min2, le, SFleb, SFltb, SFcompare.
  destruct a as [sa|sa| |sa ma ea], b as [sb|sb| |sb mb eb];
    try discriminate; intros _ _; order_cases; repeat split; order_cases.
Qed.

Lemma max2_upper a b :
  is_nan a = false -> is_nan b = false ->
  is_nan (max2 a b) = false
  /\ le a (max2 a b) = true /\ le b (max2 a b) = true.
Proof.
  unfold max2, le, SFleb, SFltb, SFcompare.
  destruct a as [sa|sa| |sa ma ea], b as [sb|sb| |sb mb eb];
    try discriminate; intros _ _; order_cases; repeat split; order_cases.
Qed.

Lemma fold_min_lower l :
  forall a,
    is_nan a = false -> (forall v, In v l -> is_nan v = false) ->
    is_nan (fold_left min2 l a) = false
    /\ le (fold_left min2 l a) a = true
    /\ forall v, In v l -> le (fold_left min2 l a) v = true.
Proof.
  induction l as [|w l IH]; intros a Ha Hall; simpl.
  - split; [exact Ha|]. split; [now apply le_refl_number | contradiction].
  - destruct (min2_lower a w Ha (Hall w (or_introl eq_refl)))
      as (Hn & Hla & Hlw).
    destruct (IH (min2 a w) Hn (fun v Hv => Hall v (or_intror Hv)))
      as (Hn' & Hl' & Hrest).
    split; [exact Hn'|]. split; [eapply le_trans; eauto|].
    intros v [<-|Hv]; [eapply le_trans; eauto | now apply Hrest].
Qed.

Lemma fold_max_upper l :
  forall a,
    is_nan a = false -> (forall v, In v l -> is_nan v = false) ->
    is_nan (fold_left max2 l a) = false
    /\ le a (fold_left max2 l a) = true
    /\ forall v, In v l -> le v (fold_left max2 l a) = true.
Proof.
  induction l as [|w l IH]; intros a Ha Hall; simpl.
  - split; [exact Ha|]. split; [now apply le_refl_number | contradiction].
  - destruct (max2_upper a w Ha (Hall w (or_introl eq_refl)))
      as (Hn & Hla & Hlw).
    destruct (IH (max2 a w) Hn (fun v Hv => Hall v (or_intror Hv)))
      as (Hn' & Hl' & Hrest).
    split; [exact Hn'|]. split; [eapply le_trans; eauto|].
    intros v [<-|Hv]; [eapply le_trans; eauto | now apply Hrest].
Qed.

Lemma min2_nan_l b : min2 NaN b = NaN.
Proof. reflexivity. Qed.

Lemma min2_nan_r a : min2 a NaN = NaN.
Proof. destruct a; reflexivity. Qed.

Lemma max2_nan_r a : max2 a NaN = NaN.
Proof. destruct a; reflexivity. Qed.

Lemma fold_nan_contagious (op : number -> number -> number) :
  (forall b, op NaN b = NaN) -> (forall a, op a NaN = NaN) ->
  forall l a, In NaN (a :: l) -> fold_left op l a = NaN.
Proof.
  intros Hl Hr. induction l as [|v l IH]; intros a Hin; simpl.
  - destruct Hin as [->|[]]. reflexivity.
  - apply IH. destruct Hin as [->|[->|Hin]].
    + left. apply Hl.
    + left. apply Hr.
    + now right.
Qed.

(** X18. The reducers [min] and [max] return a value of the bucket.  When
    the bucket holds no NaN they bound every value of it from below and from
    above; when it holds a NaN both return NaN. *)
Theorem min_max_of_a_bucket (values : list number) :
  values <> [] ->
  In (applyAggregationFunction values min) values
  /\ In (applyAggregationFunction values max) values
  /\ ((forall v, In v values -> is_nan v = false) ->
      forall v, In v values ->
        le (applyAggregationFunction values min) v = true
        /\ le v (applyAggregationFunction values max) = true)
  /\ (In NaN values ->
      applyAggregationFunction values min = NaN
      /\ applyAggregationFunction values max = NaN).
Proof.
  intros Hne. destruct values as [|w values]; [contradiction|].
  cbn [applyAggregationFunction]. unfold Math_min, Math_max.
  cbn [fold_left]. rewrite min2_from_infinity, max2_from_infinity.
  split; [apply (fold_choice_in min2 min2_choice)|].
  split; [apply (fold_choice_in max2 max2_choice)|].
  split.
  - intros Hall v Hv.
    destruct (fold_min_lower values w (Hall w (or_introl eq_refl))
                (fun u Hu => Hall u (or_intror Hu))) as (_ & Hw & Hrest).
    destruct (fold_max_upper values w (Hall w (or_introl eq_refl))
                (fun u Hu => Hall u (or_intror Hu))) as (_ & Hw' & Hrest').
    destruct Hv as [<-|Hv]; split; auto.
  - intros Hnan. split.
    + apply (fold_nan_contagious min2 min2_nan_l min2_nan_r). exact Hnan.
    + apply (fold_nan_contagious max2 (fun b => eq_refl) max2_nan_r).
      exact Hnan.
Qed.

Lemma min_max_of_a_bucket_witness :
  le (applyAggregationFunction (map ofZ [4; -2; 9]) min) (ofZ 9) = true
  /\ applyAggregationFunction [ofZ 4; NaN] max = NaN.
Proof.
  destruct (min_max_of_a_bucket (map ofZ [4; -2; 9])) as (_ & _ & Hb & _);
    [discriminate|].
  destruct (min_max_of_a_bucket [ofZ 4; NaN]) as (_ & _ & _ & Hn);
    [discriminate|].
  split.
  - apply Hb.
    + intros v [<-|[<-|[<-|[]]]]; reflexivity.
    + simpl. auto.
  - apply Hn. simpl. auto.
Defined.

Lemma StronglySorted_around {A} (R : A -> A -> Prop) (l1 : list A) a l2 :
  StronglySorted R (l1 ++ a :: l2) ->
  (forall v, In v l1 -> R v a) /\ (forall v, In v l2 -> R a v).
Proof.
  induction l1 as [|x l1 IH]; cbn [app]; intros Hs.
  - apply StronglySorted_inv in Hs. destruct Hs as [_ Hall].
    rewrite Forall_forall in Hall. split; [intros v []|exact Hall].
  - apply StronglySorted_inv in Hs. destruct Hs as [Hs Hall].
    destruct (IH Hs) as [Hl Hr]. split; [|exact Hr].
    intros v [<-|Hv]; [|apply Hl, Hv].
    rewrite Forall_forall in Hall. apply Hall, in_or_app. right. left.
    reflexivity.
Qed.

Lemma median_unfold values :
  values <> [] ->
  applyAggregationFunction values median
  = let sorted := array_sort number_ascending values in
    let mid := (length sorted / 2)%nat in
    if (length sorted mod 2 =? 0)%nat
    then div (add (at_or_zero sorted (mid - 1)) (at_or_zero sorted mid)) (ofZ 2)
    else at_or_zero sorted mid.
Proof. destruct values; [congruence|reflexivity]. Qed.

(** X19. The median reducer on a bucket without NaN: for an odd size it is
    a value of the bucket with as many values at or below it as at or
    above it; for an even size it is half the sum of two values of the
    bucket that have as many values at or below the smaller as at or above
    the larger. *)
Theorem median_of_a_bucket (values : list number) :
  values <> [] ->
  Forall is_number values ->
  let m := applyAggregationFunction values median in
  ((length values mod 2 = 1)%nat ->
   exists below above,
     Permutation (below ++ m :: above) values
     /\ length below = length above
     /\ (forall v, In v below -> le v m = true)
     /\ (forall v, In v above -> le m v = true))
  /\ ((length values mod 2 = 0)%nat ->
      exists below a b above,
        Permutation (below ++ a :: b :: above) values
        /\ length below = length above
        /\ le a b = true
        /\ (forall v, In v below -> le v a = true)
        /\ (forall v, In v above -> le b v = true)
        /\ m = div (add a b) (ofZ 2)).
Proof.
  intros Hne Hall m. subst m. rewrite (median_unfold values Hne). cbv zeta.
  assert (Hperm := array_sort_perm number_ascending values).
  assert (Hsorted := array_sort_ascending values Hall).
  assert (Hlen := array_sort_length number_ascending values).
  assert (Hpos : (0 < length values)%nat)
    by (destruct values; [congruence|cbn [length]; lia]).
  revert Hperm Hsorted Hlen.
  generalize (array_sort number_ascending values). intros sorted Hperm Hsorted Hlen.
  rewrite Hlen.
  assert (Hdiv := Nat.div_mod_eq (length values) 2).
  split; intros Hmod; rewrite Hmod; cbn [Nat.eqb].
  - assert (Hmid : (length values / 2 < length sorted)%nat) by lia.
    apply nth_error_Some in Hmid.
    destruct (nth_error sorted (length values / 2)) as [a|] eqn:Ha; [|congruence].
    unfold at_or_zero. rewrite Ha.
    destruct (nth_error_split _ _ Ha) as (l1 & l2 & -> & Hl1).
    exists l1, l2.
    destruct (StronglySorted_around _ _ _ _ Hsorted) as [Hb Hab].
    rewrite length_app in Hlen. cbn [length] in Hlen.
    repeat split; [exact Hperm|lia|exact Hb|exact Hab].
  - assert (Hmid : (length values / 2 < length sorted)%nat) by lia.
    apply nth_error_Some in Hmid.
    destruct (nth_error sorted (length values / 2)) as [b|] eqn:Hb; [|congruence].
    destruct (nth_error_split _ _ Hb) as (l1 & l2 & -> & Hl1).
    assert (Hl1' : l1 <> []) by (intros ->; cbn [length] in Hl1; lia).
    destruct (exists_last Hl1') as (l0 & a & ->).
    rewrite length_app in Hl1. cbn [length] in Hl1.
    rewrite <- app_assoc in *. cbn [app] in *.
    unfold at_or_zero.
    replace (length values / 2 - 1)%nat with (length l0) by lia.
    rewrite nth_error_app2 by lia. rewrite Nat.sub_diag. cbn [nth_error].
    replace (length values / 2)%nat with (length l0 + 1)%nat by lia.
    rewrite nth_error_app2 by lia.
    replace (length l0 + 1 - length l0)%nat with 1%nat by lia. cbn [nth_error].
    exists l0, a, b, l2.
    destruct (StronglySorted_around _ _ _ _ Hsorted) as [Hbelow Hab].
    assert (Hsorted' : StronglySorted (fun a b => le a b = true)
                         ((l0 ++ [a]) ++ b :: l2))
      by (rewrite <- app_assoc; exact Hsorted).
    destruct (StronglySorted_around _ _ _ _ Hsorted') as [_ Habove].
    rewrite length_app in Hlen. cbn [length] in Hlen.
    repeat split; [exact Hperm|lia|apply Hab; left; reflexivity|exact Hbelow
                  |exact Habove].
Qed.

Lemma median_of_a_bucket_witness :
  exists below above,
    Permutation
      (below ++ applyAggregationFunction (map ofZ [5; 1; 3]) median :: above)
      (map ofZ [5; 1; 3])
    /\ length below = length above.
Proof.
  destruct (median_of_a_bucket (map ofZ [5; 1; 3])) as [Hodd _].
  - discriminate.
  - repeat (constructor; [split; reflexivity|]). constructor.
  - destruct (Hodd eq_refl) as (below & above & Hp & Hl & _).
    exists below, above. split; assumption.
Defined.

(** * Calendar periods on a host with a constant offset

    Where the offset of local time from UTC never changes (no daylight
    saving), the five period starts of [getPeriodStart] can be computed in
    closed form, and the day-to-date conversion and its inverse cancel. *)

Ltac divlia := Z.div_mod_to_equations; lia.

Lemma MakeDay_date y m dt : MakeDay y m dt = MakeDay y m 1 + (dt - 1).
Proof. unfold MakeDay. lia. Qed.

Lemma civil_of_day_ranges d :
  let '(y, m, dd) := civil_of_day d in 0 <= m <= 11 /\ 1 <= dd <= 31.
Proof.
  unfold civil_of_day.
  set (z := d + 719468). set (era := z / 146097).
  set (doe := z - era * 146097).
  assert (Hdoe : 0 <= doe <= 146096) by (subst doe era; divlia).
  clearbody doe. clear z era.
  set (yoe := (doe - doe / 1460 + doe / 36524 - doe / 146096) / 365).
  set (doy := doe - (365 * yoe + yoe / 4 - yoe / 100)).
  assert (Hdoy : 0 <= doy <= 365) by (subst doy yoe; divlia).
  clearbody doy.
  set (mp := (5 * doy + 2) / 153).
  destruct (Z.ltb_spec mp 10); subst mp; divlia.
Qed.

Lemma MakeDay_civil_of_day d :
  let '(y, m, dd) := civil_of_day d in MakeDay y m dd = d.
Proof.
  unfold civil_of_day.
  set (z := d + 719468). set (era := z / 146097).
  set (doe := z - era * 146097).
  assert (Hdoe : 0 <= doe <= 146096) by (subst doe era; divlia).
  assert (Hd : d = era * 146097 + doe - 719468) by (subst doe z; lia).
  clearbody doe era. clear z.
  set (yoe := (doe - doe / 1460 + doe / 36524 - doe / 146096) / 365).
  assert (Hyoe : 0 <= yoe <= 399) by (subst yoe; divlia).
  set (doy := doe - (365 * yoe + yoe / 4 - yoe / 100)).
  assert (Hdoy : 0 <= doy <= 365) by (subst doy yoe; divlia).
  assert (Hdoe' : doe = 365 * yoe + yoe / 4 - yoe / 100 + doy) by (subst doy; lia).
  clearbody doy. clearbody yoe. subst d doe.
  set (mp := (5 * doy + 2) / 153).
  assert (Hmp : 0 <= mp <= 11) by (subst mp; divlia).
  clearbody mp.
  unfold MakeDay.
  destruct (Z.ltb_spec mp 10) as [Hlt|Hge].
  - replace (mp + 3 - 1) with (mp + 2) by lia.
    replace ((mp + 2) / 12) with 0 by divlia.
    replace ((mp + 2) mod 12 + 1) with (mp + 3) by divlia.
    destruct (Z.leb_spec (mp + 3) 2); [lia|].
    destruct (Z.gtb_spec (mp + 3) 2); [|lia].
    replace (mp + 3 - 3) with mp by lia.
    rewrite Z.add_0_r.
    replace ((yoe + era * 400 + 0) / 400) with era by divlia.
    divlia.
  - replace (mp - 9 - 1) with (mp - 10) by lia.
    replace ((mp - 10) / 12) with 0 by divlia.
    replace ((mp - 10) mod 12 + 1) with (mp - 9) by divlia.
    destruct (Z.leb_spec (mp - 9) 2); [|lia].
    destruct (Z.gtb_spec (mp - 9) 2); [lia|].
    replace (mp - 9 + 9) with mp by lia.
    replace ((yoe + era * 400 + 1 + 0 - 1) / 400) with era by divlia.
    divlia.
Qed.

Lemma year_of_era yoe k :
  0 <= yoe <= 399 -> 0 <= k <= 364 ->
  let doe := 365 * yoe + yoe / 4 - yoe / 100 + k in
  0 <= doe <= 146096 /\
  (doe - doe / 1460 + doe / 36524 - doe / 146096) / 365 = yoe.
Proof. intros Hy Hk doe. subst doe. divlia. Qed.

Lemma civil_of_day_MakeDay y m dd :
  0 <= m <= 11 -> 1 <= dd <= 28 ->
  civil_of_day (MakeDay y m dd) = (y, m, dd).
Proof.
  intros Hm Hdd. unfold MakeDay.
  replace (m / 12) with 0 by divlia.
  replace (m mod 12 + 1) with (m + 1) by divlia.
  rewrite Z.add_0_r.
  set (y' := if m + 1 <=? 2 then y - 1 else y).
  set (mp := if m + 1 >? 2 then m + 1 - 3 else m + 1 + 9).
  assert (Hmp : 0 <= mp <= 11 /\ m = (if mp <? 10 then mp + 3 else mp - 9) - 1
                /\ y = y' + (if (if mp <? 10 then mp + 3 else mp - 9) <=? 2 then 1 else 0)).
  { subst mp y'. destruct (Z.leb_spec (m + 1) 2), (Z.gtb_spec (m + 1) 2); try lia.
    - destruct (Z.ltb_spec (m + 1 + 9) 10); [lia|].
      destruct (Z.leb_spec (m + 1 + 9 - 9) 2); lia.
    - destruct (Z.ltb_spec (m + 1 - 3) 10); [|lia].
      destruct (Z.leb_spec (m + 1 - 3 + 3) 2); lia. }
  clearbody mp y'. destruct Hmp as (Hmp & Hm' & Hy').
  set (era := y' / 400). set (yoe := y' - era * 400).
  assert (Hyoe : 0 <= yoe <= 399) by (subst yoe era; divlia).
  assert (Hy'' : y' = yoe + era * 400) by (subst yoe; lia).
  clearbody yoe era.
  set (k := (153 * mp + 2) / 5 + (dd - 1)).
  assert (Hk : 0 <= k <= 364) by (subst k; divlia).
  destruct (year_of_era yoe k Hyoe Hk) as [Hdoe Hyear].
  unfold civil_of_day.
  replace (era * 146097 + (yoe * 365 + yoe / 4 - yoe / 100 + (153 * mp + 2) / 5)
           - 719468 + dd - 1 + 719468)
    with (365 * yoe + yoe / 4 - yoe / 100 + k + era * 146097) by (subst k; lia).
  set (doe := 365 * yoe + yoe / 4 - yoe / 100 + k) in *.
  rewrite Z.div_add by lia.
  replace (doe / 146097) with 0 by divlia.
  rewrite Z.add_0_l.
  replace (doe + era * 146097 - era * 146097) with doe by lia.
  rewrite Hyear.
  replace (doe - (365 * yoe + yoe / 4 - yoe / 100)) with k by (subst doe; lia).
  replace ((5 * k + 2) / 153) with mp by (subst k; divlia).
  rewrite <- Hy'' , <- Hy'.
  f_equal; [f_equal; exact (eq_sym Hm')|subst k; lia].
Qed.

Lemma MakeDay_month_offset y m :
  0 <= m <= 11 -> 0 <= MakeDay y m 1 - MakeDay y 0 1 <= 335.
Proof.
  intros Hm. unfold MakeDay.
  replace (m / 12) with 0 by divlia.
  replace (m mod 12 + 1) with (m + 1) by divlia.
  change (0 / 12) with 0. change (0 mod 12 + 1) with 1.
  change (1 <=? 2) with true. change (1 >? 2) with false. cbv iota.
  rewrite !Z.add_0_r.
  destruct (Z.leb_spec (m + 1) 2), (Z.gtb_spec (m + 1) 2); try lia; divlia.
Qed.

Lemma year_start_monotone y y' : y <= y' -> MakeDay y 0 1 <= MakeDay y' 0 1.
Proof.
  intros H. unfold MakeDay.
  change (0 / 12) with 0. change (0 mod 12 + 1) with 1.
  change (1 <=? 2) with true. change (1 >? 2) with false. cbv iota.
  rewrite !Z.add_0_r.
  divlia.
Qed.

(** The day of the era, the year of the era and the day of the year that
    [civil_of_day] computes. *)
Lemma era_order z z' :
  z <= z' ->
  let era := z / 146097 in
  let era' := z' / 146097 in
  let doe := z - era * 146097 in
  let doe' := z' - era' * 146097 in
  0 <= doe <= 146096 /\ 0 <= doe' <= 146096 /\
  (era < era' \/ era = era' /\ doe <= doe').
Proof. intros H era era' doe doe'. subst era era' doe doe'. divlia. Qed.

Lemma year_order doe doe' :
  0 <= doe <= doe' -> doe' <= 146096 ->
  let yoe := (doe - doe / 1460 + doe / 36524 - doe / 146096) / 365 in
  let yoe' := (doe' - doe' / 1460 + doe' / 36524 - doe' / 146096) / 365 in
  let doy := doe - (365 * yoe + yoe / 4 - yoe / 100) in
  let doy' := doe' - (365 * yoe' + yoe' / 4 - yoe' / 100) in
  yoe < yoe' \/ yoe = yoe' /\ doy <= doy'.
Proof.
  intros H H' yoe yoe' doy doy'.
  assert (Hle : yoe <= yoe') by (subst yoe yoe'; divlia).
  subst doy doy'. clearbody yoe yoe'.
  destruct (Z.eq_dec yoe yoe') as [->|Hne]; [right|left]; lia.
Qed.

Lemma year_day_bounds doe :
  0 <= doe <= 146096 ->
  let yoe := (doe - doe / 1460 + doe / 36524 - doe / 146096) / 365 in
  0 <= yoe <= 399 /\ 0 <= doe - (365 * yoe + yoe / 4 - yoe / 100) <= 365.
Proof. intros H yoe. subst yoe. divlia. Qed.

Lemma month_order doy doy' :
  0 <= doy <= doy' ->
  let mp := (5 * doy + 2) / 153 in
  let mp' := (5 * doy' + 2) / 153 in
  0 <= mp <= mp' /\
  0 <= (153 * mp + 2) / 5 <= doy /\
  (153 * mp + 2) / 5 <= (153 * mp' + 2) / 5 <= doy'.
Proof. intros H mp mp'. subst mp mp'. divlia. Qed.

Lemma year_start_order yoe yoe' :
  0 <= yoe < yoe' ->
  365 * yoe + yoe / 4 - yoe / 100 + 365 <= 365 * yoe' + yoe' / 4 - yoe' / 100.
Proof. intros H. divlia. Qed.

Ltac civil_order d d' H :=
  let Hz := fresh "Hz" in
  set (z := d + 719468); set (z' := d' + 719468);
  assert (Hz : z <= z') by (subst z z'; lia);
  set (era := z / 146097); set (era' := z' / 146097);
  set (doe := z - era * 146097); set (doe' := z' - era' * 146097);
  assert (Hera : 0 <= doe <= 146096 /\ 0 <= doe' <= 146096 /\
                 (era < era' \/ era = era' /\ doe <= doe'))
    by exact (era_order z z' Hz);
  destruct Hera as (Hdoe & Hdoe' & Hera);
  set (yoe := (doe - doe / 1460 + doe / 36524 - doe / 146096) / 365);
  set (yoe' := (doe' - doe' / 1460 + doe' / 36524 - doe' / 146096) / 365);
  set (doy := doe - (365 * yoe + yoe / 4 - yoe / 100));
  set (doy' := doe' - (365 * yoe' + yoe' / 4 - yoe' / 100));
  assert (Hy : 0 <= yoe <= 399 /\ 0 <= doy <= 365)
    by exact (year_day_bounds doe Hdoe);
  assert (Hy' : 0 <= yoe' <= 399 /\ 0 <= doy' <= 365)
    by exact (year_day_bounds doe' Hdoe');
  assert (Hyy : doe <= doe' -> yoe < yoe' \/ yoe = yoe' /\ doy <= doy')
    by (intros Hle; exact (year_order doe doe' (conj (proj1 Hdoe) Hle) (proj2 Hdoe')));
  set (mp := (5 * doy + 2) / 153); set (mp' := (5 * doy' + 2) / 153);
  assert (Hmp : 0 <= mp <= 11 /\ 0 <= (153 * mp + 2) / 5 <= doy)
    by (pose proof (month_order doy doy (conj (proj1 (proj2 Hy)) (Z.le_refl doy))) as Hm;
        cbv zeta in Hm; fold mp in Hm; split; [subst mp; divlia|tauto]);
  assert (Hmp' : 0 <= mp' <= 11 /\ 0 <= (153 * mp' + 2) / 5 <= doy')
    by (pose proof (month_order doy' doy' (conj (proj1 (proj2 Hy')) (Z.le_refl doy'))) as Hm;
        cbv zeta in Hm; fold mp' in Hm; split; [subst mp'; divlia|tauto]);
  assert (Hmm : doy <= doy' -> mp <= mp' /\ (153 * mp + 2) / 5 <= (153 * mp' + 2) / 5)
    by (intros Hle; pose proof (month_order doy doy' (conj (proj1 (proj2 Hy)) Hle)) as Hm;
        cbv zeta in Hm; fold mp mp' in Hm; tauto);
  assert (Hss : yoe < yoe' ->
                365 * yoe + yoe / 4 - yoe / 100 + 365
                <= 365 * yoe' + yoe' / 4 - yoe' / 100)
    by (intros Hlt; apply year_start_order; lia).

Lemma civil_year_monotone d d' :
  d <= d' -> fst (fst (civil_of_day d)) <= fst (fst (civil_of_day d')).
Proof.
  intros H. unfold civil_of_day. cbn [fst].
  civil_order d d' H.
  clearbody mp mp' doy doy' yoe yoe' doe doe' era era'.
  destruct (Z.ltb_spec mp 10), (Z.ltb_spec mp' 10);
    repeat match goal with
           | |- context [?a <=? 2] => destruct (Z.leb_spec a 2)
           end; lia.
Qed.

Lemma month_start_monotone d d' :
  d <= d' ->
  d - (snd (civil_of_day d) - 1) <= d' - (snd (civil_of_day d') - 1).
Proof.
  intros H. unfold civil_of_day. cbn [snd].
  civil_order d d' H.
  assert (E : d = era * 146097 + (365 * yoe + yoe / 4 - yoe / 100) + doy - 719468)
    by (subst doy doe z; lia).
  assert (E' : d' = era' * 146097 + (365 * yoe' + yoe' / 4 - yoe' / 100) + doy' - 719468)
    by (subst doy' doe' z'; lia).
  assert (D : doe = 365 * yoe + yoe / 4 - yoe / 100 + doy) by (subst doy; lia).
  assert (D' : doe' = 365 * yoe' + yoe' / 4 - yoe' / 100 + doy') by (subst doy'; lia).
  clearbody mp mp' doy doy' yoe yoe' doe doe' era era'.
  revert Hmp Hmp' Hmm.
  generalize ((153 * mp + 2) / 5) ((153 * mp' + 2) / 5). intros q q' Hmp Hmp' Hmm.
  assert (Hs0 : 0 <= 365 * yoe' + yoe' / 4 - yoe' / 100) by divlia.
  assert (Hse : yoe = yoe' -> 365 * yoe + yoe / 4 - yoe / 100
                              = 365 * yoe' + yoe' / 4 - yoe' / 100)
    by (intros ->; reflexivity).
  revert Hss E E' D D' Hs0 Hse.
  generalize (365 * yoe + yoe / 4 - yoe / 100) (365 * yoe' + yoe' / 4 - yoe' / 100).
  intros s s' Hss E E' D D' Hs0 Hse. lia.
Qed.

Section ConstantOffset.
Variable LocalTZA : Z -> bool -> Z.
Variable c : Z.
Hypothesis constant_offset : forall t b, LocalTZA t b = c.

Lemma LocalTime_constant t : LocalTime LocalTZA t = t + c.
Proof. unfold LocalTime. rewrite constant_offset. reflexivity. Qed.

Lemma UTC_constant t : UTC LocalTZA t = t - c.
Proof. unfold UTC. rewrite constant_offset. reflexivity. Qed.

Lemma Day_MakeDate d tm : 0 <= tm < msPerDay -> Day (MakeDate d tm) = d.
Proof. unfold Day, MakeDate, msPerDay. intros H. divlia. Qed.

Lemma Day_spec t : Day t * msPerDay <= t < Day t * msPerDay + msPerDay.
Proof. unfold Day, msPerDay. divlia. Qed.

Lemma TimeWithinDay_range t : 0 <= TimeWithinDay t < msPerDay.
Proof. unfold TimeWithinDay, msPerDay. divlia. Qed.

Lemma setHours0_constant tv :
  setHours0 LocalTZA tv = Day (tv + c) * msPerDay - c.
Proof.
  unfold setHours0. rewrite UTC_constant, LocalTime_constant.
  unfold MakeDate. lia.
Qed.

Lemma setHours0_local d tm :
  0 <= tm < msPerDay ->
  setHours0 LocalTZA (MakeDate d tm - c) = d * msPerDay - c.
Proof.
  intros H. rewrite setHours0_constant.
  replace (MakeDate d tm - c + c) with (MakeDate d tm) by lia.
  rewrite Day_MakeDate by exact H. reflexivity.
Qed.

Lemma setDate_constant tv dt :
  setDate LocalTZA tv dt
  = MakeDate (MakeDay (YearFromTime (tv + c)) (MonthFromTime (tv + c)) dt)
             (TimeWithinDay (tv + c)) - c.
Proof.
  unfold setDate. rewrite UTC_constant, LocalTime_constant. reflexivity.
Qed.

Lemma hourly_constant t :
  getPeriodStart LocalTZA t hourly = (t + c) / msPerHour * msPerHour - c.
Proof.
  unfold getPeriodStart, setMinutes0.
  rewrite UTC_constant, LocalTime_constant.
  unfold MakeDate, Day, HourFromTime, msPerDay, msPerHour. divlia.
Qed.

Lemma daily_constant t :
  getPeriodStart LocalTZA t daily = Day (t + c) * msPerDay - c.
Proof. apply setHours0_constant. Qed.

Lemma civil_of_day_eta d :
  civil_of_day d
  = (fst (fst (civil_of_day d)), snd (fst (civil_of_day d)), snd (civil_of_day d)).
Proof. destruct (civil_of_day d) as [[y m] dd]. reflexivity. Qed.

Lemma MakeDay_of_time t :
  MakeDay (YearFromTime t) (MonthFromTime t) (DateFromTime t) = Day t.
Proof.
  unfold YearFromTime, MonthFromTime, DateFromTime.
  generalize (MakeDay_civil_of_day (Day t)).
  destruct (civil_of_day (Day t)) as [[y m] dd]. auto.
Qed.

Lemma time_ranges t :
  0 <= MonthFromTime t <= 11 /\ 1 <= DateFromTime t <= 31.
Proof.
  unfold MonthFromTime, DateFromTime.
  generalize (civil_of_day_ranges (Day t)).
  destruct (civil_of_day (Day t)) as [[y m] dd]. auto.
Qed.

Lemma weekly_constant t :
  getPeriodStart LocalTZA t weekly
  = (Day (t + c) - (WeekDay (t + c) + 6) mod 7) * msPerDay - c.
Proof.
  unfold getPeriodStart. cbv zeta.
  rewrite setDate_constant.
  rewrite setHours0_local by apply TimeWithinDay_range.
  unfold getDay, getDate. rewrite LocalTime_constant.
  rewrite MakeDay_date.
  assert (H := MakeDay_of_time (t + c)). rewrite MakeDay_date in H.
  assert (Hw : 0 <= WeekDay (t + c) < 7) by (unfold WeekDay; divlia).
  destruct (Z.eqb_spec (WeekDay (t + c)) 0) as [E|E].
  - rewrite E. change ((0 + 6) mod 7) with 6. lia.
  - replace ((WeekDay (t + c) + 6) mod 7) with (WeekDay (t + c) - 1) by divlia.
    lia.
Qed.

Lemma monthly_constant t :
  getPeriodStart LocalTZA t monthly
  = MakeDay (YearFromTime (t + c)) (MonthFromTime (t + c)) 1 * msPerDay - c.
Proof.
  unfold getPeriodStart. cbv zeta.
  rewrite setDate_constant.
  apply setHours0_local, TimeWithinDay_range.
Qed.

Lemma yearly_constant t :
  getPeriodStart LocalTZA t yearly
  = MakeDay (YearFromTime (t + c)) 0 1 * msPerDay - c.
Proof.
  unfold getPeriodStart, setMonth01. cbv zeta.
  rewrite UTC_constant, LocalTime_constant.
  apply setHours0_local, TimeWithinDay_range.
Qed.

Lemma hourly_bucket t t' :
  getPeriodStart LocalTZA t' hourly = getPeriodStart LocalTZA t hourly
  <-> getPeriodStart LocalTZA t hourly <= t'
      < getPeriodStart LocalTZA t hourly + msPerHour.
Proof. rewrite !hourly_constant. unfold msPerHour. divlia. Qed.

Lemma daily_bucket t t' :
  getPeriodStart LocalTZA t' daily = getPeriodStart LocalTZA t daily
  <-> getPeriodStart LocalTZA t daily <= t'
      < getPeriodStart LocalTZA t daily + msPerDay.
Proof. rewrite !daily_constant. unfold Day, msPerDay. divlia. Qed.

Lemma weekly_bucket t t' :
  getPeriodStart LocalTZA t' weekly = getPeriodStart LocalTZA t weekly
  <-> getPeriodStart LocalTZA t weekly <= t'
      < getPeriodStart LocalTZA t weekly + 7 * msPerDay.
Proof.
  rewrite !weekly_constant. unfold WeekDay.
  generalize (Day_spec (t + c)) (Day_spec (t' + c)).
  generalize (Day (t + c)) (Day (t' + c)). unfold msPerDay.
  intros d d' H H'. divlia.
Qed.

Lemma YearMonth_of_MakeDay y m :
  0 <= m <= 11 ->
  YearFromTime (MakeDay y m 1 * msPerDay) = y
  /\ MonthFromTime (MakeDay y m 1 * msPerDay) = m
  /\ DateFromTime (MakeDay y m 1 * msPerDay) = 1
  /\ TimeWithinDay (MakeDay y m 1 * msPerDay) = 0.
Proof.
  intros Hm. unfold YearFromTime, MonthFromTime, DateFromTime.
  replace (Day (MakeDay y m 1 * msPerDay)) with (MakeDay y m 1)
    by (unfold Day, msPerDay; divlia).
  rewrite civil_of_day_MakeDay by lia. cbn [fst snd].
  repeat split. unfold TimeWithinDay, msPerDay. divlia.
Qed.

Lemma month_start_day t :
  MakeDay (YearFromTime t) (MonthFromTime t) 1 = Day t - (DateFromTime t - 1).
Proof. generalize (MakeDay_of_time t). rewrite MakeDay_date. lia. Qed.

Lemma monthly_local t :
  LocalTime LocalTZA (getPeriodStart LocalTZA t monthly)
  = MakeDay (YearFromTime (t + c)) (MonthFromTime (t + c)) 1 * msPerDay.
Proof. rewrite LocalTime_constant, monthly_constant. lia. Qed.

Lemma yearly_local t :
  LocalTime LocalTZA (getPeriodStart LocalTZA t yearly)
  = MakeDay (YearFromTime (t + c)) 0 1 * msPerDay.
Proof. rewrite LocalTime_constant, yearly_constant. lia. Qed.

Lemma monthly_bounds t :
  getPeriodStart LocalTZA t monthly <= t
  < getPeriodStart LocalTZA t monthly + 31 * msPerDay.
Proof.
  rewrite monthly_constant, month_start_day.
  generalize (Day_spec (t + c)) (time_ranges (t + c)). unfold msPerDay. lia.
Qed.

Lemma yearly_bounds t :
  getPeriodStart LocalTZA t yearly <= t
  < getPeriodStart LocalTZA t yearly + 366 * msPerDay.
Proof.
  rewrite yearly_constant.
  generalize (MakeDay_month_offset (YearFromTime (t + c)) (MonthFromTime (t + c))
                (proj1 (time_ranges (t + c)))).
  rewrite month_start_day.
  generalize (Day_spec (t + c)) (time_ranges (t + c)). unfold msPerDay. lia.
Qed.

Lemma monthly_bucket t t' :
  getPeriodStart LocalTZA t' monthly = getPeriodStart LocalTZA t monthly
  <-> YearFromTime (t' + c) = YearFromTime (t + c)
      /\ MonthFromTime (t' + c) = MonthFromTime (t + c).
Proof.
  rewrite !monthly_constant. split.
  - intros E.
    assert (E' : MakeDay (YearFromTime (t' + c)) (MonthFromTime (t' + c)) 1 * msPerDay
                 = MakeDay (YearFromTime (t + c)) (MonthFromTime (t + c)) 1 * msPerDay)
      by lia.
    destruct (YearMonth_of_MakeDay (YearFromTime (t' + c)) (MonthFromTime (t' + c))
                (proj1 (time_ranges (t' + c)))) as (Hy' & Hm' & _).
    destruct (YearMonth_of_MakeDay (YearFromTime (t + c)) (MonthFromTime (t + c))
                (proj1 (time_ranges (t + c)))) as (Hy & Hm & _).
    rewrite E' in Hy', Hm'. split; congruence.
  - intros [-> ->]. reflexivity.
Qed.

Lemma yearly_bucket t t' :
  getPeriodStart LocalTZA t' yearly = getPeriodStart LocalTZA t yearly
  <-> YearFromTime (t' + c) = YearFromTime (t + c).
Proof.
  rewrite !yearly_constant. split.
  - intros E.
    assert (E' : MakeDay (YearFromTime (t' + c)) 0 1 * msPerDay
                 = MakeDay (YearFromTime (t + c)) 0 1 * msPerDay) by lia.
    destruct (YearMonth_of_MakeDay (YearFromTime (t' + c)) 0) as (Hy' & _); [lia|].
    destruct (YearMonth_of_MakeDay (YearFromTime (t + c)) 0) as (Hy & _); [lia|].
    rewrite E' in Hy'. congruence.
  - intros ->. reflexivity.
Qed.

Lemma period_start_idempotent t period :
  getPeriodStart LocalTZA (getPeriodStart LocalTZA t period) period
  = getPeriodStart LocalTZA t period.
Proof.
  destruct period.
  - apply hourly_bucket. rewrite hourly_constant. unfold msPerHour. divlia.
  - apply daily_bucket. rewrite daily_constant. unfold Day, msPerDay. divlia.
  - apply weekly_bucket. unfold msPerDay. lia.
  - apply monthly_bucket. rewrite <- !LocalTime_constant, monthly_local.
    rewrite LocalTime_constant.
    destruct (YearMonth_of_MakeDay (YearFromTime (t + c)) (MonthFromTime (t + c))
                (proj1 (time_ranges (t + c)))) as (Hy & Hm & _).
    split; assumption.
  - apply yearly_bucket. rewrite <- !LocalTime_constant, yearly_local.
    rewrite LocalTime_constant.
    destruct (YearMonth_of_MakeDay (YearFromTime (t + c)) 0) as (Hy & _); [lia|].
    exact Hy.
Qed.

Lemma period_start_monotone t t' period :
  t <= t' -> getPeriodStart LocalTZA t period <= getPeriodStart LocalTZA t' period.
Proof.
  intros H.
  assert (Hd : Day (t + c) <= Day (t' + c)) by (unfold Day, msPerDay; divlia).
  destruct period.
  - rewrite !hourly_constant. unfold msPerHour. divlia.
  - rewrite !daily_constant. unfold msPerDay. lia.
  - rewrite !weekly_constant. unfold WeekDay, msPerDay.
    revert Hd. generalize (Day (t + c)) (Day (t' + c)). intros d d' Hd. divlia.
  - rewrite !monthly_constant, !month_start_day.
    generalize (month_start_monotone _ _ Hd). unfold DateFromTime, msPerDay. lia.
  - rewrite !yearly_constant.
    generalize (year_start_monotone _ _ (civil_year_monotone _ _ Hd)).
    unfold YearFromTime, msPerDay. lia.
Qed.

End ConstantOffset.

(** X20. On a host whose offset from UTC never changes, the hourly and the
    daily period start are on the local clock hour and on local midnight,
    the day starts no later than the hour, and the timestamps that share the
    start of [t] are exactly those of the hour (the day) from that start
    on; [t] is one of them. *)
Theorem hour_and_day_buckets (LocalTZA : Z -> bool -> Z) (c t t' : Z) :
  (forall u b, LocalTZA u b = c) ->
  let h := getPeriodStart LocalTZA t hourly in
  let d := getPeriodStart LocalTZA t daily in
  LocalTime LocalTZA h mod msPerHour = 0
  /\ TimeWithinDay (LocalTime LocalTZA d) = 0
  /\ d <= h <= t
  /\ (getPeriodStart LocalTZA t' hourly = h <-> h <= t' < h + msPerHour)
  /\ (getPeriodStart LocalTZA t' daily = d <-> d <= t' < d + msPerDay).
Proof.
  intros Hc h d. subst h d.
  split; [|split; [|split; [|split]]].
  - rewrite (LocalTime_constant _ _ Hc), (hourly_constant _ _ Hc).
    unfold msPerHour. divlia.
  - rewrite (LocalTime_constant _ _ Hc), (daily_constant _ _ Hc).
    unfold TimeWithinDay, msPerDay. divlia.
  - rewrite (hourly_constant _ _ Hc), (daily_constant _ _ Hc).
    unfold Day, msPerDay, msPerHour. divlia.
  - apply (hourly_bucket _ _ Hc).
  - apply (daily_bucket _ _ Hc).
Qed.

Lemma hour_and_day_buckets_witness :
  getPeriodStart (fun _ _ => 7200000) 1614834367008 daily
  <= getPeriodStart (fun _ _ => 7200000) 1614834367008 hourly
  <= 1614834367008.
Proof.
  exact (proj1 (proj2 (proj2
    (hour_and_day_buckets (fun _ _ => 7200000) 7200000 1614834367008 0
       (fun _ _ => eq_refl))))).
Defined.

(** X21. On a host whose offset from UTC never changes, the weekly period
    start is a Monday at local midnight, and the timestamps that share the
    start of [t] are exactly those of the seven days from that start on;
    [t] is one of them. *)
Theorem week_buckets (LocalTZA : Z -> bool -> Z) (c t t' : Z) :
  (forall u b, LocalTZA u b = c) ->
  let w := getPeriodStart LocalTZA t weekly in
  getDay LocalTZA w = 1
  /\ TimeWithinDay (LocalTime LocalTZA w) = 0
  /\ w <= t < w + 7 * msPerDay
  /\ (getPeriodStart LocalTZA t' weekly = w <-> w <= t' < w + 7 * msPerDay).
Proof.
  intros Hc w. subst w.
  assert (Hl : LocalTime LocalTZA (getPeriodStart LocalTZA t weekly)
               = (Day (t + c) - (WeekDay (t + c) + 6) mod 7) * msPerDay)
    by (rewrite (LocalTime_constant _ _ Hc), (weekly_constant _ _ Hc); lia).
  split; [|split; [|split]].
  - unfold getDay. rewrite Hl. unfold WeekDay.
    replace (Day ((Day (t + c) - ((Day (t + c) + 4) mod 7 + 6) mod 7) * msPerDay))
      with (Day (t + c) - ((Day (t + c) + 4) mod 7 + 6) mod 7)
      by (unfold Day, msPerDay; divlia).
    generalize (Day (t + c)). intros d. divlia.
  - rewrite Hl. unfold TimeWithinDay, msPerDay. divlia.
  - apply (weekly_bucket _ _ Hc). reflexivity.
  - apply (weekly_bucket _ _ Hc).
Qed.

Lemma week_buckets_witness :
  getDay (fun _ _ => 7200000)
    (getPeriodStart (fun _ _ => 7200000) 1614834367008 weekly) = 1.
Proof.
  exact (proj1 (week_buckets (fun _ _ => 7200000) 7200000 1614834367008 0
                  (fun _ _ => eq_refl))).
Defined.

(** X22. On a host whose offset from UTC never changes, the monthly period
    start is local midnight of day 1 of the local month of [t], at most 31
    days before [t], and two timestamps share it exactly when they have the
    same local year and month. *)
Theorem month_buckets (LocalTZA : Z -> bool -> Z) (c t t' : Z) :
  (forall u b, LocalTZA u b = c) ->
  let m := getPeriodStart LocalTZA t monthly in
  YearFromTime (LocalTime LocalTZA m) = YearFromTime (LocalTime LocalTZA t)
  /\ MonthFromTime (LocalTime LocalTZA m) = MonthFromTime (LocalTime LocalTZA t)
  /\ getDate LocalTZA m = 1
  /\ TimeWithinDay (LocalTime LocalTZA m) = 0
  /\ m <= t < m + 31 * msPerDay
  /\ (getPeriodStart LocalTZA t' monthly = m
      <-> YearFromTime (LocalTime LocalTZA t') = YearFromTime (LocalTime LocalTZA t)
          /\ MonthFromTime (LocalTime LocalTZA t')
             = MonthFromTime (LocalTime LocalTZA t)).
Proof.
  intros Hc m. subst m. unfold getDate.
  rewrite (monthly_local _ _ Hc), !(LocalTime_constant _ _ Hc).
  destruct (YearMonth_of_MakeDay (YearFromTime (t + c)) (MonthFromTime (t + c))
              (proj1 (time_ranges (t + c)))) as (Hy & Hm & Hd & Ht).
  repeat (split; [assumption|]).
  split; [apply (monthly_bounds _ _ Hc)|apply (monthly_bucket _ _ Hc)].
Qed.

Lemma month_buckets_witness :
  getDate (fun _ _ => 7200000)
    (getPeriodStart (fun _ _ => 7200000) 1614834367008 monthly) = 1.
Proof.
  exact (proj1 (proj2 (proj2
    (month_buckets (fun _ _ => 7200000) 7200000 1614834367008 0
       (fun _ _ => eq_refl))))).
Defined.

(** X23. On a host whose offset from UTC never changes, the yearly period
    start is local midnight of 1 January of the local year of [t], at most
    366 days before [t], and two timestamps share it exactly when they
    have the same local year. *)
Theorem year_buckets (LocalTZA : Z -> bool -> Z) (c t t' : Z) :
  (forall u b, LocalTZA u b = c) ->
  let y := getPeriodStart LocalTZA t yearly in
  YearFromTime (LocalTime LocalTZA y) = YearFromTime (LocalTime LocalTZA t)
  /\ MonthFromTime (LocalTime LocalTZA y) = 0
  /\ getDate LocalTZA y = 1
  /\ TimeWithinDay (LocalTime LocalTZA y) = 0
  /\ y <= t < y + 366 * msPerDay
  /\ (getPeriodStart LocalTZA t' yearly = y
      <-> YearFromTime (LocalTime LocalTZA t') = YearFromTime (LocalTime LocalTZA t)).
Proof.
  intros Hc y. subst y. unfold getDate.
  rewrite (yearly_local _ _ Hc), !(LocalTime_constant _ _ Hc).
  destruct (YearMonth_of_MakeDay (YearFromTime (t + c)) 0) as (Hy & Hm & Hd & Ht);
    [lia|].
  repeat (split; [assumption|]).
  split; [apply (yearly_bounds _ _ Hc)|apply (yearly_bucket _ _ Hc)].
Qed.

Lemma year_buckets_witness :
  MonthFromTime (LocalTime (fun _ _ => 7200000)
    (getPeriodStart (fun _ _ => 7200000) 1614834367008 yearly)) = 0.
Proof.
  exact (proj1 (proj2
    (year_buckets (fun _ _ => 7200000) 7200000 1614834367008 0
       (fun _ _ => eq_refl)))).
Defined.

(** X24. On a host whose offset from UTC never changes, a period start is
    its own period start, and period starts keep the order of the
    timestamps, for each of the five periods. *)
Theorem period_starts_ordered (LocalTZA : Z -> bool -> Z) (c t t' : Z)
  (period : AggregationPeriod) :
  (forall u b, LocalTZA u b = c) ->
  getPeriodStart LocalTZA (getPeriodStart LocalTZA t period) period
  = getPeriodStart LocalTZA t period
  /\ (t <= t' ->
      getPeriodStart LocalTZA t period <= getPeriodStart LocalTZA t' period).
Proof.
  intros Hc. split.
  - apply (period_start_idempotent _ _ Hc).
  - apply (period_start_monotone _ _ Hc).
Qed.

Lemma period_starts_ordered_witness :
  getPeriodStart (fun _ _ => 0) 1614834367008 monthly
  <= getPeriodStart (fun _ _ => 0) 1615118400000 monthly.
Proof.
  apply (period_starts_ordered (fun _ _ => 0) 0 1614834367008 1615118400000
           monthly (fun _ _ => eq_refl)).
  lia.
Defined.
